(** * FlowBlock: blocking decision engine and session/timer state machine

    A shallow embedding of the TypeScript sources

      - [src/background/index.ts]  (URL blocking, alarm and message handlers)
      - [src/utils/storage.ts]     (typed accessors over [chrome.storage.local])
      - [src/utils/timer.ts]       (focus sessions, pause/resume, Pomodoro mode)
      - [src/utils/analytics.ts]   (weekly and daily focus time, top blocked sites)
      - [blocked.js]               (the break button of the blocked page)
      - the options page           (Reset All Data, which clears the store)

    JavaScript numbers that hold timestamps, durations and counters are
    integers in every path that is modelled here; they are embedded as [Z].
    [Math.round (a / b)] on such integers is embedded exactly as the floor of
    [a / b + 1/2].  Strings are [string]; the stored domains and the clock
    strings ["HH:MM"] are ASCII, on which the UTF-16 code unit order of
    JavaScript coincides with the byte order used here. *)

From Stdlib Require Import ZArith Lia Bool Ascii DecimalString Sorted.
From Stdlib Require String.
From stdpp Require Import base option list strings gmap.

Local Open Scope string_scope.
Local Open Scope Z_scope.

(** ** JavaScript string primitives *)

Module JsString.

Definition lower_ascii (c : ascii) : ascii :=
  let n := nat_of_ascii c in
  if ((65 <=? n)%nat && (n <=? 90)%nat)%bool then ascii_of_nat (n + 32) else c.

(** [s.toLowerCase()] on ASCII text. *)
Fixpoint toLowerCase (s : string) : string :=
  match s with
  | EmptyString => EmptyString
  | String c s' => String (lower_ascii c) (toLowerCase s')
  end.

(** [s.slice(n)] for [0 <= n]. *)
Fixpoint slice (n : nat) (s : string) : string :=
  match n, s with
  | O, _ => s
  | S n', String _ s' => slice n' s'
  | S _, EmptyString => EmptyString
  end.

(** [s.startsWith(p)]. *)
Fixpoint startsWith (s p : string) : bool :=
  match p, s with
  | EmptyString, _ => true
  | String a p', String b s' => if ascii_dec a b then startsWith s' p' else false
  | String _ _, EmptyString => false
  end.

(** [s.endsWith(suf)]: the last [suf.length] code units of [s] are [suf]. *)
Definition endsWith (s suf : string) : bool :=
  if (String.length suf <=? String.length s)%nat
  then String.eqb (slice (String.length s - String.length suf) s) suf
  else false.

(** [s.replace(/^www\./, "")]: one leading ["www."] is removed. *)
Definition strip_www (s : string) : string :=
  if startsWith s "www." then slice 4 s else s.

(** [a <= b] on strings, by code unit. *)
Definition str_le (a b : string) : bool := String.leb a b.

End JsString.

(** ** Domain Matcher ([background/index.ts]) *)

(** [domainMatchesPattern(domain, pattern)]. *)
Definition domainMatchesPattern (domain pattern : string) : bool :=
  let normalizedPattern := JsString.strip_www (JsString.toLowerCase pattern) in
  if JsString.startsWith normalizedPattern "*." then
    let baseDomain := JsString.slice 2 normalizedPattern in
    String.eqb domain baseDomain || JsString.endsWith domain ("." +:+ baseDomain)
  else
    String.eqb domain normalizedPattern
    || JsString.endsWith domain ("." +:+ normalizedPattern).

(** ** Data model ([utils/types.ts])

    Field names carry the record's name as a prefix where two interfaces of
    the source share a field name ([id], [enabled], [startTime], ...). *)

Record BlockedSite := mkBlockedSite {
  site_id : string;
  site_domain : string;
  site_category : option string;
  site_createdAt : Z;
  site_blockCount : Z
}.

Inductive SessionType := Focus | Break.

Record FocusSession := mkFocusSession {
  session_id : string;
  session_startTime : Z;
  session_endTime : option Z;
  session_duration : Z;
  session_completed : bool;
  session_type : SessionType
}.

Record ScheduleSlot := mkScheduleSlot {
  slot_id : string;
  slot_day : Z;
  slot_startTime : string;
  slot_endTime : string;
  slot_enabled : bool
}.

Record WeeklySchedule := mkWeeklySchedule {
  schedule_enabled : bool;
  schedule_slots : list ScheduleSlot
}.

(** The presentation fields of [UserSettings] ([theme], [blockedPageStyle],
    [premium]) play no part in the engine and are left out. *)
Record UserSettings := mkUserSettings {
  settings_enabled : bool;
  strictMode : bool;
  defaultSessionLength : Z;
  breakLength : Z;
  notificationsEnabled : bool
}.

Record Stats := mkStats {
  totalFocusTime : Z;
  totalBlocks : Z;
  currentStreak : Z;
  longestStreak : Z;
  sessionsCompleted : Z
}.

(** [Partial<Stats>]: the fields an update names. *)
Record PartialStats := mkPartialStats {
  upd_totalFocusTime : option Z;
  upd_totalBlocks : option Z;
  upd_currentStreak : option Z;
  upd_longestStreak : option Z;
  upd_sessionsCompleted : option Z
}.

Record PomodoroState := mkPomodoroState {
  pomodoro_enabled : bool;
  workDuration : Z;
  breakDuration : Z;
  longBreakDuration : Z;
  sessionsUntilLongBreak : Z;
  currentCycle : Z;
  isOnBreak : bool;
  totalCyclesCompleted : Z
}.

(** [Partial<PomodoroState>]. *)
Record PartialPomodoroState := mkPartialPomodoroState {
  upd_enabled : option bool;
  upd_workDuration : option Z;
  upd_breakDuration : option Z;
  upd_longBreakDuration : option Z;
  upd_sessionsUntilLongBreak : option Z;
  upd_currentCycle : option Z;
  upd_isOnBreak : option bool;
  upd_totalCyclesCompleted : option Z
}.

(** The record kept under [PAUSED_SESSION_KEY]. *)
Record PausedSession := mkPausedSession {
  pausedAt : Z;
  remainingSeconds : Z
}.

(** ** Persisted state: the keys of [chrome.storage.local]

    A key that was never written, or was removed, is [None]. *)
Record Store := mkStore {
  blockedSites : option (list BlockedSite);
  settings : option UserSettings;
  stats : option Stats;
  focusSessions : option (list FocusSession);
  currentSession : option FocusSession;
  pausedSession : option PausedSession;
  pomodoroState : option PomodoroState;
  weeklySchedule : option WeeklySchedule;
  temporaryBreaks : option (gmap string Z)
}.

Definition empty_store : Store :=
  mkStore None None None None None None None None None.

Definition with_blockedSites (v : option (list BlockedSite)) (s : Store) : Store :=
  mkStore v (settings s) (stats s) (focusSessions s) (currentSession s)
          (pausedSession s) (pomodoroState s) (weeklySchedule s) (temporaryBreaks s).
Definition with_stats (v : option Stats) (s : Store) : Store :=
  mkStore (blockedSites s) (settings s) v (focusSessions s) (currentSession s)
          (pausedSession s) (pomodoroState s) (weeklySchedule s) (temporaryBreaks s).
Definition with_focusSessions (v : option (list FocusSession)) (s : Store) : Store :=
  mkStore (blockedSites s) (settings s) (stats s) v (currentSession s)
          (pausedSession s) (pomodoroState s) (weeklySchedule s) (temporaryBreaks s).
Definition with_currentSession (v : option FocusSession) (s : Store) : Store :=
  mkStore (blockedSites s) (settings s) (stats s) (focusSessions s) v
          (pausedSession s) (pomodoroState s) (weeklySchedule s) (temporaryBreaks s).
Definition with_pausedSession (v : option PausedSession) (s : Store) : Store :=
  mkStore (blockedSites s) (settings s) (stats s) (focusSessions s) (currentSession s)
          v (pomodoroState s) (weeklySchedule s) (temporaryBreaks s).
Definition with_pomodoroState (v : option PomodoroState) (s : Store) : Store :=
  mkStore (blockedSites s) (settings s) (stats s) (focusSessions s) (currentSession s)
          (pausedSession s) v (weeklySchedule s) (temporaryBreaks s).
Definition with_temporaryBreaks (v : option (gmap string Z)) (s : Store) : Store :=
  mkStore (blockedSites s) (settings s) (stats s) (focusSessions s) (currentSession s)
          (pausedSession s) (pomodoroState s) (weeklySchedule s) v.

(** ** The host: browser services the engine calls *)

(** Built-ins of the platform that the sources call and do not define. *)
Class Host := mkHost {
  (** [new URL(url).hostname]; [None] when the constructor throws. *)
  url_hostname : string -> option string;
  (** [chrome.runtime.getURL("")]. *)
  extension_root : string;
  (** [new Date(t).toDateString()], as the number of the local calendar day:
      the text is determined by that day, so [===] on two such texts is
      equality of the days. *)
  toDateString : Z -> Z;
  (** [new Date(t).getDay()], [.getHours()], [.getMinutes()]. *)
  getDay : Z -> Z;
  getHours : Z -> Z;
  getMinutes : Z -> Z
}.

Inductive NotificationTitle :=
  | BreakTime | FocusTime | FocusSessionComplete | FocusSessionCompleted.

(** What an entry point of the service worker can change: the store, the one
    alarm [ALARM_NAME] (its scheduled time, in ms), the notifications shown,
    and how many identifiers [generateId] has handed out from its supply. *)
Record World := mkWorld {
  store : Store;
  alarm : option Z;
  notifications : list (NotificationTitle * string);
  idgen : nat -> string;
  issued : nat
}.

Definition with_store (f : Store -> Store) (w : World) : World :=
  mkWorld (f (store w)) (alarm w) (notifications w) (idgen w) (issued w).
Definition with_alarm (a : option Z) (w : World) : World :=
  mkWorld (store w) a (notifications w) (idgen w) (issued w).

(** The errors the sources throw, with their messages. *)
Inductive Error :=
  | SessionNotFound
  | NoActiveSession
  | SessionAlreadyEnded
  | NoSessionToResume
  | NotPaused
  | UnknownOperation (name : string).

Definition error_message (e : Error) : string :=
  match e with
  | SessionNotFound => "Session not found or not active"
  | NoActiveSession => "No active session to pause"
  | SessionAlreadyEnded => "Session has already ended"
  | NoSessionToResume => "No active session to resume"
  | NotPaused => "Session is not paused"
  | UnknownOperation name => "Unknown message type: " +:+ name
  end.

(** ** Computations of an entry point

    An entry point runs at one instant [now]: every [Date.now()] and
    [new Date()] of one call reads that value.  A [throw] keeps the writes
    made before it. *)
Definition M (A : Type) : Type := Z -> World -> (Error + A) * World.

Definition ret {A} (a : A) : M A := fun _ w => (inr a, w).
Definition bind {A B} (c : M A) (k : A -> M B) : M B :=
  fun now w =>
    match c now w with
    | (inl e, w') => (inl e, w')
    | (inr a, w') => k a now w'
    end.
Definition throw {A} (e : Error) : M A := fun _ w => (inl e, w).

Notation "x <- c ;; k" := (bind c (fun x => k))
  (at level 100, c at next level, right associativity, only parsing).
Notation "c ;;; k" := (bind c (fun _ => k))
  (at level 100, right associativity, only parsing).

Definition date_now : M Z := fun now w => (inr now, w).
Definition storage_get {A} (key : Store -> A) : M A := fun _ w => (inr (key (store w)), w).
Definition storage_update (f : Store -> Store) : M unit :=
  fun _ w => (inr tt, with_store f w).
Definition alarms_clear : M unit := fun _ w => (inr tt, with_alarm None w).
(** [chrome.alarms.create(ALARM_NAME, { delayInMinutes })], the delay given
    in seconds. *)
Definition alarms_create (delaySeconds : Z) : M unit :=
  fun now w => (inr tt, with_alarm (Some (now + delaySeconds * 1000)) w).
Definition notifications_create (title : NotificationTitle) (message : string) : M unit :=
  fun _ w => (inr tt, mkWorld (store w) (alarm w) (notifications w ++ [(title, message)])%list
                              (idgen w) (issued w)).
(** [generateId()] of [utils/helpers]: the next identifier of the supply. *)
Definition generateId : M string :=
  fun _ w => (inr (idgen w (issued w)),
              mkWorld (store w) (alarm w) (notifications w) (idgen w) (S (issued w))).

(** ** JavaScript numbers *)

(** [Math.round(a / b)] for integers [a] and [0 < b]: halves round up. *)
Definition round_div (a b : Z) : Z := (2 * a + b) / (2 * b).

(** [a % b === 0]; [a % 0] is [NaN]. *)
Definition rem_is_zero (a b : Z) : bool :=
  if b =? 0 then false else Z.rem a b =? 0.

(** [n.toString()] for an integer. *)
Definition toString (n : Z) : string := NilEmpty.string_of_int (Z.to_int n).

(** [s.padStart(2, "0")]. *)
Definition padStart2 (s : string) : string :=
  match String.length s with
  | O => "00"
  | S O => "0" +:+ s
  | _ => s
  end.

(** ** [utils/storage.ts] *)

Definition DEFAULT_SETTINGS : UserSettings := mkUserSettings true false 25 5 true.
Definition DEFAULT_STATS : Stats := mkStats 0 0 0 0 0.
Definition DEFAULT_WEEKLY_SCHEDULE : WeeklySchedule := mkWeeklySchedule false [].

Definition getBlockedSites : M (list BlockedSite) :=
  result <- storage_get blockedSites ;; ret (default [] result).

Definition getSettings : M UserSettings :=
  result <- storage_get settings ;; ret (default DEFAULT_SETTINGS result).

Definition getStats : M Stats :=
  result <- storage_get stats ;; ret (default DEFAULT_STATS result).

(** [{ ...current, ...stats }]. *)
Definition merge_stats (current : Stats) (u : PartialStats) : Stats :=
  mkStats (default (totalFocusTime current) (upd_totalFocusTime u))
          (default (totalBlocks current) (upd_totalBlocks u))
          (default (currentStreak current) (upd_currentStreak u))
          (default (longestStreak current) (upd_longestStreak u))
          (default (sessionsCompleted current) (upd_sessionsCompleted u)).

Definition updateStats (u : PartialStats) : M unit :=
  current <- getStats ;;
  let updated := merge_stats current u in
  storage_update (with_stats (Some updated)).

Definition getFocusSessions : M (list FocusSession) :=
  result <- storage_get focusSessions ;; ret (default [] result).

(** [sessions.findIndex(pred)]; [None] stands for [-1]. *)
Fixpoint findIndex {A} (pred : A -> bool) (l : list A) : option nat :=
  match l with
  | [] => None
  | x :: l' => if pred x then Some O else S <$> findIndex pred l'
  end.

Definition saveFocusSession (session : FocusSession) : M unit :=
  sessions <- getFocusSessions ;;
  let index := findIndex (fun s => String.eqb (session_id s) (session_id session)) sessions in
  let sessions' :=
    match index with
    | Some i => <[i := session]> sessions
    | None => (sessions ++ [session])%list
    end in
  storage_update (with_focusSessions (Some sessions')).

Definition getWeeklySchedule : M WeeklySchedule :=
  result <- storage_get weeklySchedule ;; ret (default DEFAULT_WEEKLY_SCHEDULE result).

Section Engine.
Context {host : Host}.

(** The clock text [HH:MM] of the instant [now]. *)
Definition currentTime (now : Z) : string :=
  padStart2 (toString (getHours now)) +:+ ":" +:+ padStart2 (toString (getMinutes now)).

(** [isWithinSchedule(schedule)], with [now] the value of its [new Date()]. *)
Definition isWithinSchedule (now : Z) (schedule : WeeklySchedule) : bool :=
  if negb (schedule_enabled schedule) || (length (schedule_slots schedule) =? 0)%nat
  then true
  else
    let currentDay := getDay now in
    existsb (fun slot =>
               if negb (slot_enabled slot) || negb (slot_day slot =? currentDay)
               then false
               else JsString.str_le (slot_startTime slot) (currentTime now)
                    && JsString.str_le (currentTime now) (slot_endTime slot))
            (schedule_slots schedule).

(** ** URL blocking ([background/index.ts]) *)

Definition extractDomain (url : string) : string :=
  match url_hostname url with
  | Some hostname => JsString.strip_www (JsString.toLowerCase hostname)
  | None => ""
  end.

(** [breakUntil && Date.now() < breakUntil]: a missing entry and the
    number 0 are falsy. *)
Definition break_in_force (breakUntil : option Z) (now : Z) : bool :=
  match breakUntil with
  | Some t => negb (t =? 0) && (now <? t)
  | None => false
  end.

(** [breakUntil && Date.now() >= breakUntil]. *)
Definition break_expired (breakUntil : option Z) (now : Z) : bool :=
  match breakUntil with
  | Some t => negb (t =? 0) && (t <=? now)
  | None => false
  end.

Definition isUrlBlocked (url : string) : M bool :=
  let domain := extractDomain url in
  if String.eqb domain "" then ret false else
  if JsString.startsWith url extension_root then ret false else
  settings' <- getSettings ;;
  weeklySchedule' <- getWeeklySchedule ;;
  breakResult <- storage_get temporaryBreaks ;;
  blockedSites' <- getBlockedSites ;;
  if negb (settings_enabled settings') then ret false else
  now <- date_now ;;
  if schedule_enabled weeklySchedule' && negb (isWithinSchedule now weeklySchedule')
  then ret false else
  let breaks := default ∅ breakResult in
  let breakUntil := breaks !! domain in
  if break_in_force breakUntil now then ret false else
  (if break_expired breakUntil now
   then storage_update (with_temporaryBreaks (Some (delete domain breaks)))
   else ret tt) ;;;
  ret (existsb (fun site => domainMatchesPattern domain (site_domain site)) blockedSites').

(** [site.blockCount++]. *)
Definition bump (site : BlockedSite) : BlockedSite :=
  mkBlockedSite (site_id site) (site_domain site) (site_category site)
                (site_createdAt site) (site_blockCount site + 1).

(** The [for ... of] loop of [incrementBlockCount]: the list after the
    first matching site was bumped, [None] when the loop ends without a
    match. *)
Fixpoint bump_first_match (domain : string) (sites : list BlockedSite)
  : option (list BlockedSite) :=
  match sites with
  | [] => None
  | site :: rest =>
      if domainMatchesPattern domain (site_domain site)
      then Some (bump site :: rest)
      else cons site <$> bump_first_match domain rest
  end.

Definition incrementBlockCount (url : string) : M unit :=
  let domain := extractDomain url in
  blockedSites' <- getBlockedSites ;;
  stats' <- getStats ;;
  match bump_first_match domain blockedSites' with
  | Some sites =>
      storage_update (with_blockedSites (Some sites)) ;;;
      updateStats (mkPartialStats None (Some (totalBlocks stats' + 1)) None None None)
  | None => ret tt
  end.

(** The verdict of [chrome.webNavigation.onBeforeNavigate] on a main-frame
    navigation: [true] when the tab is redirected to the blocked page. *)
Definition onBeforeNavigate (url : string) : M bool :=
  shouldBlock <- isUrlBlocked url ;;
  if shouldBlock then incrementBlockCount url ;;; ret true else ret false.

End Engine.

(** ** Sessions and Pomodoro mode ([utils/timer.ts]) *)

Definition DEFAULT_POMODORO_STATE : PomodoroState :=
  mkPomodoroState false 25 5 15 4 1 false 0.

Definition getPomodoroState : M PomodoroState :=
  result <- storage_get pomodoroState ;; ret (default DEFAULT_POMODORO_STATE result).

(** [{ ...current, ...state }]. *)
Definition merge_pomodoro (current : PomodoroState) (u : PartialPomodoroState)
  : PomodoroState :=
  mkPomodoroState
    (default (pomodoro_enabled current) (upd_enabled u))
    (default (workDuration current) (upd_workDuration u))
    (default (breakDuration current) (upd_breakDuration u))
    (default (longBreakDuration current) (upd_longBreakDuration u))
    (default (sessionsUntilLongBreak current) (upd_sessionsUntilLongBreak u))
    (default (currentCycle current) (upd_currentCycle u))
    (default (isOnBreak current) (upd_isOnBreak u))
    (default (totalCyclesCompleted current) (upd_totalCyclesCompleted u)).

Definition updatePomodoroState (u : PartialPomodoroState) : M PomodoroState :=
  current <- getPomodoroState ;;
  let updated := merge_pomodoro current u in
  storage_update (with_pomodoroState (Some updated)) ;;;
  ret updated.

Definition getCurrentSession : M (option FocusSession) :=
  storage_get currentSession.

(** [chrome.storage.local.remove([CURRENT_SESSION_KEY, PAUSED_SESSION_KEY])]. *)
Definition remove_current_and_paused : M unit :=
  storage_update (fun s => with_pausedSession None (with_currentSession None s)).

Definition startFocusSession (durationMinutes : Z) (type : SessionType)
  : M FocusSession :=
  existingSession <- getCurrentSession ;;
  (match existingSession with
   | Some _ => remove_current_and_paused ;;; alarms_clear
   | None => ret tt
   end) ;;;
  id <- generateId ;;
  startTime <- date_now ;;
  let session := mkFocusSession id startTime None durationMinutes false type in
  alarms_create (durationMinutes * 60) ;;;
  storage_update (with_currentSession (Some session)) ;;;
  saveFocusSession session ;;;
  ret session.

(** [Math.max(0, Math.round(remainingMs / 1000))] of [getTimeRemaining]. *)
Definition remaining_by_clock (session : FocusSession) (now : Z) : Z :=
  let elapsed := now - session_startTime session in
  let totalMs := session_duration session * 60 * 1000 in
  let remainingMs := totalMs - elapsed in
  Z.max 0 (round_div remainingMs 1000).

Definition getTimeRemaining : M Z :=
  session <- getCurrentSession ;;
  match session with
  | None => ret 0
  | Some session =>
      pausedData <- storage_get pausedSession ;;
      match pausedData with
      | Some paused => ret (remainingSeconds paused)
      | None => now <- date_now ;; ret (remaining_by_clock session now)
      end
  end.

Definition pauseSession : M unit :=
  session <- getCurrentSession ;;
  match session with
  | None => throw NoActiveSession
  | Some _ =>
      remaining <- getTimeRemaining ;;
      if remaining <=? 0 then throw SessionAlreadyEnded else
      alarms_clear ;;;
      now <- date_now ;;
      storage_update (with_pausedSession (Some (mkPausedSession now remaining)))
  end.

Definition resumeSession : M unit :=
  session <- getCurrentSession ;;
  match session with
  | None => throw NoSessionToResume
  | Some session =>
      pausedData <- storage_get pausedSession ;;
      match pausedData with
      | None => throw NotPaused
      | Some paused =>
          (* delayInMinutes = remainingSeconds / 60 *)
          alarms_create (remainingSeconds paused) ;;;
          now <- date_now ;;
          let pauseDuration := now - pausedAt paused in
          let updatedSession :=
            mkFocusSession (session_id session)
                           (session_startTime session + pauseDuration)
                           (session_endTime session) (session_duration session)
                           (session_completed session) (session_type session) in
          storage_update (with_currentSession (Some updatedSession)) ;;;
          storage_update (with_pausedSession None)
      end
  end.

Section Timer.
Context {host : Host}.

(** The streak after a completion: [lastSessionDate] is [None] for the
    source's [null]. *)
Definition next_streak (lastSessionDate : option Z) (today yesterday : Z)
           (currentStreak' : Z) : Z :=
  if bool_decide (lastSessionDate = Some today) then currentStreak'
  else if bool_decide (lastSessionDate = Some yesterday) then currentStreak' + 1
  else 1.

Definition endFocusSession (sessionId : string) (completed : bool) : M unit :=
  session <- getCurrentSession ;;
  match session with
  | None => throw SessionNotFound
  | Some session =>
      if negb (String.eqb (session_id session) sessionId) then throw SessionNotFound else
      endTime <- date_now ;;
      let actualDurationMinutes := round_div (endTime - session_startTime session) 60000 in
      let updatedSession :=
        mkFocusSession (session_id session) (session_startTime session)
                       (Some endTime) (session_duration session)
                       completed (session_type session) in
      saveFocusSession updatedSession ;;;
      alarms_clear ;;;
      remove_current_and_paused ;;;
      if completed then
        stats' <- getStats ;;
        now <- date_now ;;
        let today := toDateString now in
        let lastSessionDate :=
          if 0 <? sessionsCompleted stats'
          then Some (toDateString (session_startTime session))
          else None in
        let yesterday := toDateString (now - 86400000) in
        let newStreak := next_streak lastSessionDate today yesterday (currentStreak stats') in
        updateStats (mkPartialStats
                       (Some (totalFocusTime stats' + actualDurationMinutes))
                       None
                       (Some newStreak)
                       (Some (Z.max (longestStreak stats') newStreak))
                       (Some (sessionsCompleted stats' + 1)))
      else ret tt
  end.

Definition startPomodoroMode (workDuration' breakDuration' longBreakDuration' : Z)
  : M (FocusSession * PomodoroState) :=
  pomodoroState' <- updatePomodoroState
    (mkPartialPomodoroState (Some true) (Some workDuration') (Some breakDuration')
                            (Some longBreakDuration') None (Some 1) (Some false) (Some 0)) ;;
  session <- startFocusSession workDuration' Focus ;;
  ret (session, pomodoroState').

Definition stopPomodoroMode : M unit :=
  session <- getCurrentSession ;;
  (match session with
   | Some session => endFocusSession (session_id session) false
   | None => ret tt
   end) ;;;
  updatePomodoroState
    (mkPartialPomodoroState (Some false) None None None None None None None) ;;;
  ret tt.

(** The result of [handlePomodoroSessionEnd]; [None] is the source's
    [null]. *)
Record PomodoroStep := mkPomodoroStep {
  nextSession : FocusSession;
  step_pomodoroState : PomodoroState;
  message : string
}.

Definition handlePomodoroSessionEnd : M (option PomodoroStep) :=
  pomodoroState' <- getPomodoroState ;;
  if negb (pomodoro_enabled pomodoroState') then ret None else
  let '(nextDuration, nextType, message', newState) :=
    if isOnBreak pomodoroState' then
      (workDuration pomodoroState', Focus,
       "Break over! Starting work session " +:+ toString (currentCycle pomodoroState'),
       mkPartialPomodoroState None None None None None None (Some false) None)
    else
      let cyclesCompleted := totalCyclesCompleted pomodoroState' + 1 in
      let isLongBreak := rem_is_zero cyclesCompleted (sessionsUntilLongBreak pomodoroState') in
      ((if isLongBreak then longBreakDuration pomodoroState'
        else breakDuration pomodoroState'),
       Break,
       (if isLongBreak
        then "Great work! You've completed " +:+ toString cyclesCompleted
             +:+ " sessions. Enjoy a " +:+ toString (longBreakDuration pomodoroState')
             +:+ " minute break!"
        else "Session " +:+ toString (currentCycle pomodoroState')
             +:+ " complete! Take a " +:+ toString (breakDuration pomodoroState')
             +:+ " minute break."),
       mkPartialPomodoroState None None None None None
                              (Some (currentCycle pomodoroState' + 1))
                              (Some true) (Some cyclesCompleted)) in
  updatedState <- updatePomodoroState newState ;;
  nextSession' <- startFocusSession nextDuration nextType ;;
  ret (Some (mkPomodoroStep nextSession' updatedState message')).

(** ** Alarm, start-up and message handlers ([background/index.ts]) *)

(** [try { ... } catch (error) { console.error(...) }]. *)
Definition try_catch (c : M unit) : M unit :=
  fun now w =>
    match c now w with
    | (inl _, w') => (inr tt, w')
    | r => r
    end.

(** The listener of [chrome.alarms.onAlarm] for the alarm
    ["flowblock-session-end"]. *)
Definition onAlarm : M unit :=
  try_catch (
    session <- getCurrentSession ;;
    pomodoroState' <- getPomodoroState ;;
    match session with
    | None => ret tt
    | Some session =>
        endFocusSession (session_id session) true ;;;
        settings' <- getSettings ;;
        if pomodoro_enabled pomodoroState' then
          result <- handlePomodoroSessionEnd ;;
          match result with
          | Some result =>
              if notificationsEnabled settings' then
                notifications_create
                  (if isOnBreak (step_pomodoroState result) then BreakTime else FocusTime)
                  (message result)
              else ret tt
          | None => ret tt
          end
        else
          if notificationsEnabled settings' then
            notifications_create FocusSessionComplete
              ("Great work! You stayed focused for " +:+ toString (session_duration session)
               +:+ " minutes. Time for a break!")
          else ret tt
    end).

(** The listener of [chrome.runtime.onStartup]. *)
Definition onStartup : M unit :=
  try_catch (
    session <- getCurrentSession ;;
    match session with
    | None => ret tt
    | Some session =>
        now <- date_now ;;
        let elapsed := now - session_startTime session in
        let totalMs := session_duration session * 60 * 1000 in
        if totalMs <=? elapsed then
          endFocusSession (session_id session) true ;;;
          settings' <- getSettings ;;
          if notificationsEnabled settings' then
            notifications_create FocusSessionCompleted
              "Your focus session completed while you were away. Great work!"
          else ret tt
        else ret tt
    end).

(** The session and Pomodoro commands of [handleMessage].  The commands on
    sites, settings and the schedule are outside this development;
    [MsgUnknown] is a [type] that no [case] of the [switch] names. *)
Inductive Message :=
  | MsgStartSession (duration : Z)
  | MsgEndSession (sessionId : string) (completed : bool)
  | MsgGetTimeRemaining
  | MsgStartPomodoro (workDuration' breakDuration' longBreakDuration' : option Z)
  | MsgStopPomodoro
  | MsgGetPomodoroState
  | MsgSkipToNext
  | MsgUnknown (type : string).

Inductive Response :=
  | RespSession (session : FocusSession)
  | RespSuccess
  | RespRemaining (remaining : Z)
  | RespPomodoro (session : FocusSession) (state : PomodoroState)
  | RespPomodoroState (state : PomodoroState)
  | RespNext (result : option PomodoroStep)
  | RespError (error : string).

Definition handleMessage (msg : Message) : M Response :=
  match msg with
  | MsgStartSession duration =>
      session <- startFocusSession duration Focus ;; ret (RespSession session)
  | MsgEndSession sessionId completed =>
      endFocusSession sessionId completed ;;; ret RespSuccess
  | MsgGetTimeRemaining =>
      session <- getCurrentSession ;;
      match session with
      | None => ret (RespRemaining 0)
      | Some session =>
          now <- date_now ;;
          let elapsed := now - session_startTime session in
          let totalMs := session_duration session * 60 * 1000 in
          let remainingMs := Z.max 0 (totalMs - elapsed) in
          ret (RespRemaining (round_div remainingMs 1000))
      end
  | MsgStartPomodoro w b l =>
      r <- startPomodoroMode (default 25 w) (default 5 b) (default 15 l) ;;
      ret (RespPomodoro (fst r) (snd r))
  | MsgStopPomodoro => stopPomodoroMode ;;; ret RespSuccess
  | MsgGetPomodoroState =>
      pomodoroState' <- getPomodoroState ;; ret (RespPomodoroState pomodoroState')
  | MsgSkipToNext =>
      session <- getCurrentSession ;;
      pomodoroState' <- getPomodoroState ;;
      match session with
      | Some session =>
          if pomodoro_enabled pomodoroState' then
            endFocusSession (session_id session) false ;;;
            result <- handlePomodoroSessionEnd ;;
            ret (RespNext result)
          else ret (RespError "No active Pomodoro session")
      | None => ret (RespError "No active Pomodoro session")
      end
  | MsgUnknown type => throw (UnknownOperation type)
  end.

(** The listener of [chrome.runtime.onMessage]: a thrown error is sent
    back as [{ error: error.message }]. *)
Definition onMessage (msg : Message) : Z -> World -> Response * World :=
  fun now w =>
    match handleMessage msg now w with
    | (inr response, w') => (response, w')
    | (inl e, w') => (RespError (error_message e), w')
    end.

End Timer.

(** ** A sample host

    Used for the worked scenarios: UTC calendar arithmetic, and the host of
    a URL of the shape [scheme://host[:port][/path]]. *)

Fixpoint after_scheme (s : string) : option string :=
  match s with
  | EmptyString => None
  | String _ s' =>
      if JsString.startsWith s "://" then Some (JsString.slice 3 s) else after_scheme s'
  end.

Fixpoint take_host (s : string) : string :=
  match s with
  | EmptyString => EmptyString
  | String c s' =>
      if bool_decide (c ∈ ["/"; "?"; "#"; ":"]%char) then EmptyString
      else String c (take_host s')
  end.

Definition utc_host : Host := {|
  url_hostname url := take_host <$> after_scheme url;
  extension_root := "chrome-extension://flowblockextension/";
  toDateString t := t / 86400000;
  getDay t := (t / 86400000 + 4) mod 7;
  getHours t := (t / 3600000) mod 24;
  getMinutes t := (t / 60000) mod 60
|}.

(** A world with an empty store, no alarm, and identifiers ["s0"], ["s1"], ... *)
Definition fresh_world : World :=
  mkWorld empty_store None [] (fun n => "s" +:+ toString (Z.of_nat n)) O.

Definition minutes (n : Z) : Z := n * 60000.
Definition days (n : Z) : Z := n * 86400000.

(** ** Predicates used to state the properties *)

(** A domain is covered by a base name when it is that name or one of its
    subdomains: the match is at a label boundary. *)
Definition covered_by (domain base : string) : Prop :=
  domain = base \/ exists pre, domain = pre +:+ "." +:+ base.

Section SpecPredicates.
Context {host : Host}.

(** A slot that activates blocking at [now]. *)
Definition slot_active (now : Z) (slot : ScheduleSlot) : Prop :=
  slot_enabled slot = true
  /\ slot_day slot = getDay now
  /\ String.leb (slot_startTime slot) (currentTime now) = true
  /\ String.leb (currentTime now) (slot_endTime slot) = true.

(** The conditions of a Deny verdict, in the words of the specification:
    the domain parses, blocking is enabled, the schedule is active, no
    unexpired break is held for the domain, and some entry of the
    blocklist matches. *)
Definition deny_conditions (url : string) (now : Z) (s : Store) : Prop :=
  extractDomain url <> ""
  /\ settings_enabled (default DEFAULT_SETTINGS (settings s)) = true
  /\ isWithinSchedule now (default DEFAULT_WEEKLY_SCHEDULE (weeklySchedule s)) = true
  /\ ~ (exists expiry, default ∅ (temporaryBreaks s) !! extractDomain url = Some expiry
                       /\ now < expiry)
  /\ exists site, site ∈ default [] (blockedSites s)
                  /\ domainMatchesPattern (extractDomain url) (site_domain site) = true.

(** The stats after a completed session, whatever its type. *)
Definition stats_after (session : FocusSession) (now : Z) (st : Stats) : Stats :=
  let m := round_div (now - session_startTime session) 60000 in
  let lastDate :=
    if 0 <? sessionsCompleted st
    then Some (toDateString (session_startTime session)) else None in
  let streak :=
    next_streak lastDate (toDateString now) (toDateString (now - 86400000))
                (currentStreak st) in
  mkStats (totalFocusTime st + m) (totalBlocks st) streak
          (Z.max (longestStreak st) streak) (sessionsCompleted st + 1).

End SpecPredicates.

(** ** Worlds of the worked scenarios *)

(** Scenario A: the blocklist holds [facebook.com]; blocking is enabled, no
    schedule and no break are set. *)
Definition facebook_world : World :=
  with_store (with_blockedSites (Some [mkBlockedSite "1" "facebook.com" None 0 0]))
             fresh_world.

(** A blocklist that names the host of the extension's own pages. *)
Definition extension_listed_world : World :=
  with_store (with_blockedSites (Some [mkBlockedSite "1" "flowblockextension" None 0 0]))
             fresh_world.

(** An exact entry and a wildcard entry that both cover [m.facebook.com],
    after an entry that does not. *)
Definition overlapping_world : World :=
  with_store (with_blockedSites
                (Some [mkBlockedSite "1" "twitter.com" None 0 3;
                       mkBlockedSite "2" "facebook.com" (Some "Social Media") 5 7;
                       mkBlockedSite "3" "*.facebook.com" None 6 2]))
             fresh_world.

(** The world after a computation. *)
Definition exec {A} (c : M A) (now : Z) (w : World) : World := snd (c now w).

(** A 25 minute session started at [start], with [pauseSession] called one
    minute later. *)
Definition paused_world : World :=
  exec pauseSession (minutes 1) (exec (startFocusSession 25 Focus) 0 fresh_world).

Definition hours (n : Z) : Z := n * 3600000.

(** A 25 minute focus session started at [start] and ended, as completed,
    at [stop], on the sample host. *)
Definition complete_session (start stop : Z) (w : World) : World :=
  match startFocusSession 25 Focus start w with
  | (inr session, w1) => exec (@endFocusSession utc_host (session_id session) true) stop w1
  | (inl _, w1) => w1
  end.

(** Pomodoro mode (25/5/15) started at time 0, after the alarm of the first
    focus session: the first short break is running. *)
Definition first_break_world : World :=
  exec (@onAlarm utc_host) (minutes 25)
       (exec (startPomodoroMode 25 5 15) 0 fresh_world).

(** The alarm fired at each of the [times], in turn. *)
Fixpoint alarms (times : list Z) (w : World) : World :=
  match times with
  | [] => w
  | t :: times' => alarms times' (exec (@onAlarm utc_host) t w)
  end.

(** Scenario C: Pomodoro mode (25/5/15, long break every 4) started at time
    0 and driven by its alarms until the fourth focus session is running. *)
Definition fourth_focus_world : World :=
  alarms [minutes 25; minutes 30; minutes 55; minutes 60; minutes 85; minutes 90]
         (exec (startPomodoroMode 25 5 15) 0 fresh_world).

(** The current session ended as completed, the first step of the alarm
    handler. *)
Definition end_current (now : Z) (w : World) : World :=
  match currentSession (store w) with
  | Some session => exec (@endFocusSession utc_host (session_id session) true) now w
  | None => w
  end.

(** ** The paused record and the current session *)

(** A paused-session record exists only while a current-session record
    exists. *)
Definition paused_implies_current (w : World) : Prop :=
  is_Some (pausedSession (store w)) -> is_Some (currentSession (store w)).

(** No session is current and no paused record is kept. *)
Definition idle (w : World) : Prop :=
  currentSession (store w) = None /\ pausedSession (store w) = None.

(** A computation keeps the invariant, whether it returns or throws. *)
Definition preserves {A} (c : M A) : Prop :=
  forall now w, paused_implies_current w -> paused_implies_current (snd (c now w)).

(** The ways into the service worker: the four session operations of
    [utils/timer.ts] and the listeners of [background/index.ts]. *)
Inductive EntryPoint :=
  | CallStart (durationMinutes : Z) (type : SessionType)
  | CallEnd (sessionId : string) (completed : bool)
  | CallPause
  | CallResume
  | OnMessage (msg : Message)
  | OnAlarm
  | OnStartup
  | OnNavigate (url : string).

Section Traces.
Context {host : Host}.

Definition run_entry (e : EntryPoint) (now : Z) (w : World) : World :=
  match e with
  | CallStart d type => exec (startFocusSession d type) now w
  | CallEnd sessionId completed => exec (endFocusSession sessionId completed) now w
  | CallPause => exec pauseSession now w
  | CallResume => exec resumeSession now w
  | OnMessage msg => snd (onMessage msg now w)
  | OnAlarm => exec onAlarm now w
  | OnStartup => exec onStartup now w
  | OnNavigate url => exec (onBeforeNavigate url) now w
  end.

(** Entry points run one after the other, each at its own instant. *)
Fixpoint run_trace (trace : list (EntryPoint * Z)) (w : World) : World :=
  match trace with
  | [] => w
  | (e, now) :: trace' => run_trace trace' (run_entry e now w)
  end.

End Traces.

(** * Further operations

    The rest of [utils/storage.ts], the analytics of [utils/analytics.ts],
    the remaining commands of [handleMessage] and the break button of the
    blocked page. *)

(** ** Blocklist and settings ([utils/storage.ts]) *)

(** [generateId()] of [utils/storage.ts], and the same template in
    [addScheduleSlot]: the clock, a dash, and a random suffix taken from the
    supply of identifiers. *)
Definition storage_generateId : M string :=
  now <- date_now ;;
  suffix <- generateId ;;
  ret (toString now +:+ "-" +:+ suffix).

(** [s.replace(/^(https?:\/\/)?/, "")]. *)
Definition strip_scheme (s : string) : string :=
  if JsString.startsWith s "http://" then JsString.slice 7 s
  else if JsString.startsWith s "https://" then JsString.slice 8 s
  else s.

(** [domain.toLowerCase().replace(/^(https?:\/\/)?(www\.)?/, "")]. *)
Definition normalize_site_domain (domain : string) : string :=
  JsString.strip_www (strip_scheme (JsString.toLowerCase domain)).

Definition addBlockedSite (domain : string) (category : option string) : M BlockedSite :=
  sites <- getBlockedSites ;;
  id <- storage_generateId ;;
  createdAt <- date_now ;;
  let newSite := mkBlockedSite id (normalize_site_domain domain) category createdAt 0 in
  storage_update (with_blockedSites (Some (sites ++ [newSite])%list)) ;;;
  ret newSite.

Definition removeBlockedSite (id : string) : M unit :=
  sites <- getBlockedSites ;;
  let filtered := filter (fun site => site_id site <> id) sites in
  storage_update (with_blockedSites (Some filtered)).

(** [Partial<UserSettings>]. *)
Record PartialSettings := mkPartialSettings {
  upd_settings_enabled : option bool;
  upd_strictMode : option bool;
  upd_defaultSessionLength : option Z;
  upd_breakLength : option Z;
  upd_notificationsEnabled : option bool
}.

Definition with_settings (v : option UserSettings) (s : Store) : Store :=
  mkStore (blockedSites s) v (stats s) (focusSessions s) (currentSession s)
          (pausedSession s) (pomodoroState s) (weeklySchedule s) (temporaryBreaks s).
Definition with_weeklySchedule (v : option WeeklySchedule) (s : Store) : Store :=
  mkStore (blockedSites s) (settings s) (stats s) (focusSessions s) (currentSession s)
          (pausedSession s) (pomodoroState s) v (temporaryBreaks s).

Definition merge_settings (current : UserSettings) (u : PartialSettings) : UserSettings :=
  mkUserSettings (default (settings_enabled current) (upd_settings_enabled u))
                 (default (strictMode current) (upd_strictMode u))
                 (default (defaultSessionLength current) (upd_defaultSessionLength u))
                 (default (breakLength current) (upd_breakLength u))
                 (default (notificationsEnabled current) (upd_notificationsEnabled u)).

Definition updateSettings (u : PartialSettings) : M unit :=
  current <- getSettings ;;
  let updated := merge_settings current u in
  storage_update (with_settings (Some updated)).

(** ** The weekly schedule ([utils/storage.ts]) *)

(** [Partial<WeeklySchedule>]. *)
Record PartialWeeklySchedule := mkPartialWeeklySchedule {
  upd_schedule_enabled : option bool;
  upd_schedule_slots : option (list ScheduleSlot)
}.

Definition updateWeeklySchedule (u : PartialWeeklySchedule) : M WeeklySchedule :=
  current <- getWeeklySchedule ;;
  let updated :=
    mkWeeklySchedule (default (schedule_enabled current) (upd_schedule_enabled u))
                     (default (schedule_slots current) (upd_schedule_slots u)) in
  storage_update (with_weeklySchedule (Some updated)) ;;;
  ret updated.

(** [addScheduleSlot(slot)] for a slot without [id].  The key is written
    by the call, so every later read takes the slots from the store, for as
    long as the key is there.  (On an absent key the slot is pushed into the
    array of [DEFAULT_WEEKLY_SCHEDULE] itself, which is read again only when
    the key is absent.) *)
Definition addScheduleSlot (day : Z) (startTime endTime : string) (enabled : bool)
  : M ScheduleSlot :=
  schedule <- getWeeklySchedule ;;
  id <- storage_generateId ;;
  let newSlot := mkScheduleSlot id day startTime endTime enabled in
  let schedule' :=
    mkWeeklySchedule (schedule_enabled schedule) (schedule_slots schedule ++ [newSlot])%list in
  storage_update (with_weeklySchedule (Some schedule')) ;;;
  ret newSlot.

Definition removeScheduleSlot (slotId : string) : M unit :=
  schedule <- getWeeklySchedule ;;
  let schedule' :=
    mkWeeklySchedule (schedule_enabled schedule)
                     (filter (fun s => slot_id s <> slotId) (schedule_slots schedule)) in
  storage_update (with_weeklySchedule (Some schedule')).

(** [slot.enabled = !slot.enabled] on the first slot that [find] returns. *)
Fixpoint toggle_first (slotId : string) (slots : list ScheduleSlot)
  : option (list ScheduleSlot) :=
  match slots with
  | [] => None
  | slot :: rest =>
      if String.eqb (slot_id slot) slotId
      then Some (mkScheduleSlot (slot_id slot) (slot_day slot) (slot_startTime slot)
                                (slot_endTime slot) (negb (slot_enabled slot)) :: rest)
      else cons slot <$> toggle_first slotId rest
  end.

Definition toggleScheduleSlot (slotId : string) : M unit :=
  schedule <- getWeeklySchedule ;;
  match toggle_first slotId (schedule_slots schedule) with
  | Some slots =>
      storage_update
        (with_weeklySchedule (Some (mkWeeklySchedule (schedule_enabled schedule) slots)))
  | None => ret tt
  end.

(** ** Analytics ([utils/analytics.ts]) *)

Definition session_is_focus (session : FocusSession) : bool :=
  match session_type session with Focus => true | Break => false end.

Definition getWeeklyFocusSessions : M (list FocusSession) :=
  sessions <- getFocusSessions ;;
  now <- date_now ;;
  let oneWeekAgo := now - 7 * 24 * 60 * 60 * 1000 in
  ret (filter (fun session =>
                 Is_true ((oneWeekAgo <? session_startTime session)
                          && session_is_focus session
                          && session_completed session))
              sessions).

Definition getWeeklyTotalFocus : M Z :=
  sessions <- getWeeklyFocusSessions ;;
  ret (fold_left (fun total session => total + session_duration session) sessions 0).

(** [a.sort((a, b) => b.blockCount - a.blockCount)]: the sort is stable, so
    it is the insertion of each site before the first site that does not
    have more blocks. *)
Fixpoint insert_by_blockCount (site : BlockedSite) (sorted : list BlockedSite)
  : list BlockedSite :=
  match sorted with
  | [] => [site]
  | other :: rest =>
      if site_blockCount site <? site_blockCount other
      then other :: insert_by_blockCount site rest
      else site :: sorted
  end.

Definition sort_by_blockCount (sites : list BlockedSite) : list BlockedSite :=
  foldr insert_by_blockCount [] sites.

(** [a.slice(0, limit)] for an integer [limit]: a negative [limit] counts
    from the end. *)
Definition slice_to {A} (limit : Z) (l : list A) : list A :=
  if 0 <=? limit then take (Z.to_nat limit) l
  else take (length l - Z.to_nat (- limit)) l.

Definition getTopBlockedSites (limit : Z) : M (list BlockedSite) :=
  sites <- getBlockedSites ;;
  ret (slice_to limit (sort_by_blockCount sites)).

Definition dayNames : list string := ["Sun"; "Mon"; "Tue"; "Wed"; "Thu"; "Fri"; "Sat"].

Section Analytics.
Context {host : Host}.

(** [dailyTotals[dayOfWeek] += session.duration]. *)
Definition add_to_day (dailyTotals : list Z) (session : FocusSession) : list Z :=
  let dayOfWeek := getDay (session_startTime session) in
  if 0 <=? dayOfWeek
  then alter (fun t => t + session_duration session) (Z.to_nat dayOfWeek) dailyTotals
  else dailyTotals.

Definition getDailyFocusTime : M (list (string * Z)) :=
  sessions <- getWeeklyFocusSessions ;;
  let dailyTotals := fold_left add_to_day sessions [0; 0; 0; 0; 0; 0; 0] in
  ret (zip dayNames dailyTotals).

End Analytics.

(** ** The break button of the blocked page ([blocked.js]) *)

(** [s.replace("www.", "")]: the first occurrence, wherever it is. *)
Fixpoint remove_first_www (s : string) : string :=
  match s with
  | EmptyString => EmptyString
  | String c s' =>
      if JsString.startsWith s "www." then JsString.slice 4 s
      else String c (remove_first_www s')
  end.

Section BlockedPage.
Context {host : Host}.

(** The domain shown on the blocked page, from its [url] query parameter. *)
Definition blockedDomain (blockedUrl : option string) : string :=
  match blockedUrl with
  | None => "this site"
  | Some "" => "this site"
  | Some url =>
      match url_hostname url with
      | Some hostname => remove_first_www hostname
      | None => url
      end
  end.

(** [breaks[key] = value] on a plain object holding numbers: the key
    ["__proto__"] names the prototype, and assigning a number to it stores
    nothing; every other key becomes an own property. *)
Definition assign_break (key : string) (value : Z) (breaks : gmap string Z)
  : gmap string Z :=
  if String.eqb key "__proto__" then breaks else <[key := value]> breaks.

(** The [click] listener of [breakBtn]. *)
Definition onBreakButton (blockedUrl : option string) : M unit :=
  now <- date_now ;;
  let breakUntil := now + 5 * 60 * 1000 in
  result <- storage_get temporaryBreaks ;;
  let breaks := default ∅ result in
  storage_update
    (with_temporaryBreaks
       (Some (assign_break (blockedDomain blockedUrl) breakUntil breaks))).

End BlockedPage.

(** ** The other commands of [handleMessage] *)

Inductive SettingsMessage :=
  | MsgGetStatus
  | MsgToggleBlocking
  | MsgAddSite (domain : string) (category : option string)
  | MsgRemoveSite (id : string)
  | MsgUpdateSettings (u : PartialSettings)
  | MsgUpdatePomodoroSettings (u : PartialPomodoroState)
  | MsgGetWeeklySchedule
  | MsgUpdateWeeklySchedule (enabled : option bool)
  | MsgAddScheduleSlot (day : Z) (startTime endTime : string)
  | MsgRemoveScheduleSlot (slotId : string)
  | MsgIsScheduleActive.

Inductive SettingsResponse :=
  | ReplyStatus (enabled : bool) (current : option FocusSession) (st : Stats)
                (sites : list BlockedSite) (settings' : UserSettings)
  | ReplyEnabled (enabled : bool)
  | ReplySite (site : BlockedSite)
  | ReplySuccess
  | ReplyPomodoroState (state : PomodoroState)
  | ReplyWeeklySchedule (schedule : WeeklySchedule)
  | ReplySlot (slot : ScheduleSlot)
  | ReplyScheduleActive (active scheduleEnabled : bool).

Section SettingsCommands.
Context {host : Host}.

Definition handleSettingsMessage (msg : SettingsMessage) : M SettingsResponse :=
  match msg with
  | MsgGetStatus =>
      settings' <- getSettings ;;
      current <- getCurrentSession ;;
      st <- getStats ;;
      sites <- getBlockedSites ;;
      ret (ReplyStatus (settings_enabled settings') current st sites settings')
  | MsgToggleBlocking =>
      settings' <- getSettings ;;
      updateSettings (mkPartialSettings (Some (negb (settings_enabled settings')))
                                        None None None None) ;;;
      ret (ReplyEnabled (negb (settings_enabled settings')))
  | MsgAddSite domain category =>
      site <- addBlockedSite domain category ;; ret (ReplySite site)
  | MsgRemoveSite id => removeBlockedSite id ;;; ret ReplySuccess
  | MsgUpdateSettings u => updateSettings u ;;; ret ReplySuccess
  | MsgUpdatePomodoroSettings u =>
      updated <- updatePomodoroState u ;; ret (ReplyPomodoroState updated)
  | MsgGetWeeklySchedule =>
      schedule <- getWeeklySchedule ;; ret (ReplyWeeklySchedule schedule)
  | MsgUpdateWeeklySchedule enabled =>
      updated <- updateWeeklySchedule (mkPartialWeeklySchedule enabled None) ;;
      ret (ReplyWeeklySchedule updated)
  | MsgAddScheduleSlot day startTime endTime =>
      slot <- addScheduleSlot day startTime endTime true ;; ret (ReplySlot slot)
  | MsgRemoveScheduleSlot slotId => removeScheduleSlot slotId ;;; ret ReplySuccess
  | MsgIsScheduleActive =>
      schedule <- getWeeklySchedule ;;
      now <- date_now ;;
      ret (ReplyScheduleActive (isWithinSchedule now schedule) (schedule_enabled schedule))
  end.

(** [resetAllData] of the options page: [chrome.storage.local.clear()].
    Every key is removed; the alarm is not part of the store and stays. *)
Definition resetAllData : M unit := storage_update (fun _ => empty_store).

(** Everything that writes the store or the alarm: an entry point of the
    service worker, one of the other commands, a click on the break button,
    a toggled slot, and the options page's Reset All Data.  The constants of
    the worker's modules are taken as they are loaded.  This matters for one
    sequence only: a slot added to an absent schedule, then a reset, then a
    read of the schedule by the same worker instance, which still finds the
    slot in the array of [DEFAULT_WEEKLY_SCHEDULE].  The properties stated
    over sequences of events are kept by every step from every state,
    whatever schedule the state holds. *)
Inductive Event :=
  | Core (e : EntryPoint)
  | Command (msg : SettingsMessage)
  | BreakButton (blockedUrl : option string)
  | ToggleSlot (slotId : string)
  | ResetAllData.

Definition run_event (ev : Event) (now : Z) (w : World) : World :=
  match ev with
  | Core e => run_entry e now w
  | Command msg => exec (handleSettingsMessage msg) now w
  | BreakButton blockedUrl => exec (onBreakButton blockedUrl) now w
  | ToggleSlot slotId => exec (toggleScheduleSlot slotId) now w
  | ResetAllData => exec resetAllData now w
  end.

Fixpoint run_events (events : list (Event * Z)) (w : World) : World :=
  match events with
  | [] => w
  | (ev, now) :: events' => run_events events' (run_event ev now w)
  end.

End SettingsCommands.

(** ** Predicates of the further properties *)

(** The views that the accessors give of the store. *)
Definition stats_of (w : World) : Stats := default DEFAULT_STATS (stats (store w)).
Definition sites_of (w : World) : list BlockedSite := default [] (blockedSites (store w)).
Definition history_of (w : World) : list FocusSession :=
  default [] (focusSessions (store w)).
Definition schedule_of (w : World) : WeeklySchedule :=
  default DEFAULT_WEEKLY_SCHEDULE (weeklySchedule (store w)).
Definition settings_of (w : World) : UserSettings :=
  default DEFAULT_SETTINGS (settings (store w)).
Definition breaks_of (w : World) : gmap string Z :=
  default ∅ (temporaryBreaks (store w)).

(** The history after [saveFocusSession(session)]. *)
Definition saved (session : FocusSession) (sessions : list FocusSession)
  : list FocusSession :=
  match findIndex (fun s => String.eqb (session_id s) (session_id session)) sessions with
  | Some i => <[i := session]> sessions
  | None => (sessions ++ [session])%list
  end.

(** A computation keeps a property of the world, whether it returns or
    throws. *)
Definition keeps {A} (P : World -> Prop) (c : M A) : Prop :=
  forall now w, P w -> P (snd (c now w)).

(** A pending wake-up belongs to a current session that is not paused. *)
Definition alarm_has_running_session (w : World) : Prop :=
  is_Some (alarm w) ->
  is_Some (currentSession (store w)) /\ pausedSession (store w) = None.

Definition session_records_consistent (w : World) : Prop :=
  paused_implies_current w /\ alarm_has_running_session w.

(** The current session has an entry in the history. *)
Definition current_in_history (w : World) : Prop :=
  forall session, currentSession (store w) = Some session ->
                  exists entry, entry ∈ history_of w
                                /\ session_id entry = session_id session.

(** No counter of the stats is lower in [after] than in [before]. *)
Definition counters_grow (before after : Stats) : Prop :=
  totalBlocks before <= totalBlocks after
  /\ sessionsCompleted before <= sessionsCompleted after
  /\ longestStreak before <= longestStreak after.

Definition total_blockCount (sites : list BlockedSite) : Z :=
  foldr (fun site total => site_blockCount site + total) 0 sites.

(** The per-site counters are not negative and add up to at most
    [totalBlocks]. *)
Definition block_counts_consistent (w : World) : Prop :=
  Forall (fun site => 0 <= site_blockCount site) (sites_of w)
  /\ total_blockCount (sites_of w) <= totalBlocks (stats_of w).

(** Sites in the order of [getTopBlockedSites]: most blocked first. *)
Definition more_blocked (a b : BlockedSite) : Prop :=
  site_blockCount b <= site_blockCount a.

(** The history of [w] still has an entry for every identifier of [old],
    and is not shorter. *)
Definition history_retains (old : list FocusSession) (w : World) : Prop :=
  (forall entry, entry ∈ old ->
                 exists entry', entry' ∈ history_of w
                                /\ session_id entry' = session_id entry)
  /\ (length old <= length (history_of w))%nat.

(** The Pomodoro record as [getPomodoroState] gives it. *)
Definition pomodoro_of (w : World) : PomodoroState :=
  default DEFAULT_POMODORO_STATE (pomodoroState (store w)).

(** The counters of [w] are not below those of [before]. *)
Definition counters_not_below (before : Stats) (w : World) : Prop :=
  counters_grow before (stats_of w).

Definition streak_within_longest (w : World) : Prop :=
  currentStreak (stats_of w) <= longestStreak (stats_of w).

(** The checks of [isUrlBlocked] that come before the blocklist: the
    domain parsed, the URL is not a page of the extension, blocking is
    enabled, the schedule is active and no break is in force. *)
Definition reaches_blocklist `{host : Host} (url : string) (now : Z) (w : World) : bool :=
  negb (String.eqb (extractDomain url) "")
  && negb (JsString.startsWith url extension_root)
  && settings_enabled (settings_of w)
  && isWithinSchedule now (schedule_of w)
  && negb (break_in_force (breaks_of w !! extractDomain url) now).

(** The minutes of a list of daily totals, added up. *)
Definition sum_minutes (daily : list (string * Z)) : Z :=
  foldr (fun entry total => snd entry + total) 0 daily.

(** The sum of a list of integers. *)
Definition sum_Z (l : list Z) : Z := foldr Z.add 0 l.

(** The nominal minutes of a list of sessions, as [reduce] adds them. *)
Definition total_duration (sessions : list FocusSession) : Z :=
  fold_left (fun total session => total + session_duration session) sessions 0.

(** The test of [getWeeklyFocusSessions] for a query at [now]. *)
Definition counts_this_week (now : Z) (session : FocusSession) : bool :=
  (now - 7 * 24 * 60 * 60 * 1000 <? session_startTime session)
  && session_is_focus session && session_completed session.

(** ** The words of the specification, for the matcher and the schedule *)

(** Lower-casing, letter by letter: the 26 capital letters go to their
    small letters, every other character stays. *)
Definition lower_letter (c : ascii) : ascii :=
  match c with
  | "A" => "a" | "B" => "b" | "C" => "c" | "D" => "d" | "E" => "e" | "F" => "f"
  | "G" => "g" | "H" => "h" | "I" => "i" | "J" => "j" | "K" => "k" | "L" => "l"
  | "M" => "m" | "N" => "n" | "O" => "o" | "P" => "p" | "Q" => "q" | "R" => "r"
  | "S" => "s" | "T" => "t" | "U" => "u" | "V" => "v" | "W" => "w" | "X" => "x"
  | "Y" => "y" | "Z" => "z" | _ => c
  end%char.

Inductive lower_cased : string -> string -> Prop :=
  | lower_cased_nil : lower_cased "" ""
  | lower_cased_cons (c : ascii) (s t : string) :
      lower_cased s t -> lower_cased (String c s) (String (lower_letter c) t).

(** [q] is [p] without one leading ["www."], or [p] itself when [p] does
    not begin with ["www."]. *)
Definition www_stripped (p q : string) : Prop :=
  p = "www." +:+ q \/ ((forall r, p <> "www." +:+ r) /\ q = p).

(** Zero-padded [HH:MM]: two decimal digits, a colon, two decimal digits. *)
Definition digit_char (n : Z) : ascii :=
  match n with
  | 0 => "0" | 1 => "1" | 2 => "2" | 3 => "3" | 4 => "4"
  | 5 => "5" | 6 => "6" | 7 => "7" | 8 => "8" | 9 => "9" | _ => "?"
  end%char.

Definition two_digits (n : Z) : string :=
  String (digit_char (n / 10)) (String (digit_char (n mod 10)) EmptyString).

Definition clock_text (hours minutes : Z) : string :=
  two_digits hours +:+ ":" +:+ two_digits minutes.

(** [q] is [ms / 1000] rounded to the nearest integer, halves up. *)
Definition nearest_second (ms q : Z) : Prop :=
  1000 * q - 500 <= ms < 1000 * q + 500.

Section SpecWords.
Context {host : Host}.

(** An enabled slot for the weekday of [now] whose window holds the
    zero-padded clock text of [now], bounds included, in the lexicographic
    order of strings. *)
Definition slot_in_force (now : Z) (slot : ScheduleSlot) : Prop :=
  slot_enabled slot = true
  /\ slot_day slot = getDay now
  /\ String.leb (slot_startTime slot) (clock_text (getHours now) (getMinutes now)) = true
  /\ String.leb (clock_text (getHours now) (getMinutes now)) (slot_endTime slot) = true.

End SpecWords.

(** Scenario of a stale flag: Pomodoro mode (25/5/15) is started at time 0,
    the first break starts with the alarm at 25 minutes, the browser is
    restarted at 31 minutes, when the break has elapsed, and a plain focus
    session of 25 minutes is then started from the popup at 32 minutes. *)
Definition stale_flag_world : World :=
  snd (@onMessage utc_host (MsgStartSession 25) (minutes 32)
         (exec (@onStartup utc_host) (minutes 31) first_break_world)).

(** Events other than Reset All Data. *)
Definition without_reset (events : list (Event * Z)) : Prop :=
  Forall (fun step => fst step <> ResetAllData) events.

(** Events other than a call of [pauseSession], which the timer module
    exports and no listener, command or page calls. *)
Definition without_pause (events : list (Event * Z)) : Prop :=
  Forall (fun step => fst step <> Core CallPause) events.

(** No paused record. *)
Definition not_paused (w : World) : Prop := pausedSession (store w) = None.

(** * Verification *)

(** *** Facts about the string primitives *)

Lemma string_app_cons (c : ascii) (a b : string) :
  String c a +:+ b = String c (a +:+ b).
Proof. reflexivity. Qed.

Lemma string_app_nil (b : string) : "" +:+ b = b.
Proof. reflexivity. Qed.

Lemma slice_app (pre s : string) :
  JsString.slice (String.length pre) (pre +:+ s) = s.
Proof.
  induction pre as [|c pre IH]; [reflexivity|].
  rewrite string_app_cons. simpl. exact IH.
Qed.

Lemma slice_split (n : nat) (s : string) :
  (n <= String.length s)%nat ->
  exists pre, s = pre +:+ JsString.slice n s /\ String.length pre = n.
Proof.
  revert s. induction n as [|n IH]; intros s Hn.
  - exists "". split; reflexivity.
  - destruct s as [|c s]; simpl in Hn; [lia|].
    destruct (IH s) as (pre & Heq & Hlen); [lia|].
    exists (String c pre). rewrite string_app_cons. simpl.
    split; [f_equal; exact Heq | f_equal; exact Hlen].
Qed.

Lemma string_length_app (a b : string) :
  String.length (a +:+ b) = (String.length a + String.length b)%nat.
Proof.
  induction a as [|c a IH]; [reflexivity|].
  rewrite string_app_cons. simpl. now rewrite IH.
Qed.

Lemma startsWith_spec (s p : string) :
  JsString.startsWith s p = true <-> exists rest, s = p +:+ rest.
Proof.
  revert s. induction p as [|a p IH]; intros s.
  - split; [intros _; exists s; reflexivity | intros _; now destruct s].
  - destruct s as [|b s]; simpl.
    + split; [discriminate | intros (rest & Hr); discriminate].
    + destruct (ascii_dec a b) as [->|Hne].
      * split.
        -- intros H. apply IH in H as (rest & ->). now exists rest.
        -- intros (rest & Hr). rewrite string_app_cons in Hr.
           apply IH. exists rest. congruence.
      * split; [discriminate|]. intros (rest & Hr).
        rewrite string_app_cons in Hr. congruence.
Qed.

Lemma endsWith_spec (s suf : string) :
  JsString.endsWith s suf = true <-> exists pre, s = pre +:+ suf.
Proof.
  unfold JsString.endsWith. split.
  - destruct (Nat.leb_spec (String.length suf) (String.length s)) as [Hle|Hlt];
      [|discriminate].
    intros Heq. apply String.eqb_eq in Heq.
    destruct (slice_split (String.length s - String.length suf) s) as (pre & Hs & _);
      [lia|].
    exists pre. now rewrite Heq in Hs.
  - intros (pre & ->). rewrite string_length_app.
    destruct (Nat.leb_spec (String.length suf) (String.length pre + String.length suf))
      as [_|Hlt]; [|lia].
    replace (String.length pre + String.length suf - String.length suf)%nat
      with (String.length pre) by lia.
    rewrite slice_app. apply String.eqb_refl.
Qed.

Lemma covers_spec (domain base : string) :
  String.eqb domain base || JsString.endsWith domain ("." +:+ base) = true
  <-> covered_by domain base.
Proof.
  unfold covered_by. rewrite orb_true_iff, String.eqb_eq, endsWith_spec.
  reflexivity.
Qed.

(** The lower-casing of the code is the letter table. *)
Lemma lower_ascii_letter (c : ascii) : JsString.lower_ascii c = lower_letter c.
Proof. destruct c as [[] [] [] [] [] [] [] []]; reflexivity. Qed.

Lemma lower_cased_spec (p q : string) :
  lower_cased p q <-> q = JsString.toLowerCase p.
Proof.
  split.
  - intros H. induction H as [|c s t _ IH]; [reflexivity|].
    simpl. now rewrite lower_ascii_letter, IH.
  - intros ->. induction p as [|c p IH]; simpl; [constructor|].
    rewrite lower_ascii_letter. now constructor.
Qed.

Lemma www_stripped_spec (p q : string) :
  www_stripped p q <-> q = JsString.strip_www p.
Proof.
  unfold www_stripped, JsString.strip_www. split.
  - intros [-> | [Hnot ->]].
    + assert (Hs : JsString.startsWith ("www." +:+ q) "www." = true)
        by (apply startsWith_spec; now exists q).
      rewrite Hs. symmetry. exact (slice_app "www." q).
    + destruct (JsString.startsWith p "www.") eqn:Hs; [|reflexivity].
      apply startsWith_spec in Hs as (rest & Hrest). now destruct (Hnot rest).
  - intros ->. destruct (JsString.startsWith p "www.") eqn:Hs.
    + left. apply startsWith_spec in Hs as (rest & ->).
      exact (f_equal (String.append "www.") (eq_sym (slice_app "www." rest))).
    + right. split; [|reflexivity]. intros r Hr.
      assert (Ht : JsString.startsWith p "www." = true)
        by (apply startsWith_spec; now exists r).
      congruence.
Qed.

Lemma domainMatchesPattern_normalised (d p lowered np : string) :
  lower_cased p lowered -> www_stripped lowered np ->
  (forall base, np = "*." +:+ base ->
                (domainMatchesPattern d p = true <-> covered_by d base))
  /\ ((forall base, np <> "*." +:+ base) ->
      (domainMatchesPattern d p = true <-> covered_by d np)).
Proof.
  intros Hlow Hstrip.
  apply lower_cased_spec in Hlow. apply www_stripped_spec in Hstrip.
  unfold domainMatchesPattern. rewrite <- Hlow, <- Hstrip. split.
  - intros base ->.
    assert (Hs : JsString.startsWith ("*." +:+ base) "*." = true)
      by (apply startsWith_spec; now exists base).
    rewrite Hs. change (JsString.slice 2 ("*." +:+ base)) with base.
    apply covers_spec.
  - intros Hplain. destruct (JsString.startsWith np "*.") eqn:Hs.
    + apply startsWith_spec in Hs as (rest & Hrest). now destruct (Hplain rest).
    + apply covers_spec.
Qed.

(** C6. [matches(d, p)].  Every pattern [p] has one lower-cased form
    (capital letters replaced by small ones, letter by letter) and that form
    has one form stripped of a leading ["www."]; call it [np].  When [np]
    is ["*."] followed by [base], the pattern matches exactly the domains
    equal to [base] or ending with ["."] followed by [base]; when [np] does
    not begin with ["*."], it matches exactly the domains equal to [np] or
    ending with ["."] followed by [np].  So ["*.x.com"] matches ["x.com"]
    and the domains ending with [".x.com"], ["x.com.evil.com"] is not
    matched by ["x.com"], the pattern ["WWW.Facebook.COM"] matches
    ["m.facebook.com"], and only the pattern is normalised, not the domain.
    The matcher is a total pure function of its two arguments, so it reads
    and writes no state. *)
Theorem domainMatchesPattern_spec :
  (forall p : string,
      exists lowered np, lower_cased p lowered /\ www_stripped lowered np)
  /\ (forall d p lowered np : string,
         lower_cased p lowered -> www_stripped lowered np ->
         (forall base, np = "*." +:+ base ->
                       (domainMatchesPattern d p = true <-> covered_by d base))
         /\ ((forall base, np <> "*." +:+ base) ->
             (domainMatchesPattern d p = true <-> covered_by d np)))
  /\ (forall d : string,
        domainMatchesPattern d "*.x.com" = true <->
        d = "x.com" \/ exists pre, d = pre +:+ ".x.com")
  /\ domainMatchesPattern "x.com.evil.com" "x.com" = false
  /\ domainMatchesPattern "m.facebook.com" "WWW.Facebook.COM" = true
  /\ domainMatchesPattern "facebook.com" "www.facebook.com" = true
  /\ domainMatchesPattern "wwwfacebook.com" "www.facebook.com" = false
  /\ domainMatchesPattern "FACEBOOK.COM" "facebook.com" = false.
Proof.
  split; [|split; [|split]].
  - intros p. exists (JsString.toLowerCase p),
      (JsString.strip_www (JsString.toLowerCase p)).
    split; [now apply lower_cased_spec | now apply www_stripped_spec].
  - exact domainMatchesPattern_normalised.
  - intros d.
    destruct (domainMatchesPattern_normalised d "*.x.com" "*.x.com" "*.x.com")
      as [Hwild _].
    + now apply lower_cased_spec.
    + now apply www_stripped_spec.
    + exact (Hwild "x.com" eq_refl).
  - repeat split; reflexivity.
Qed.

Lemma domainMatchesPattern_spec_witness :
  (lower_cased "WWW.Example.com" "www.example.com"
   /\ www_stripped "www.example.com" "example.com"
   /\ (forall base, "example.com" <> "*." +:+ base))
  /\ domainMatchesPattern "m.example.com" "WWW.Example.com" = true
  /\ domainMatchesPattern "example.com" "WWW.Example.com" = true
  /\ domainMatchesPattern "example.com.evil.com" "WWW.Example.com" = false
  /\ (lower_cased "*.X.com" "*.x.com" /\ www_stripped "*.x.com" "*.x.com")
  /\ domainMatchesPattern "a.x.com" "*.X.com" = true
  /\ domainMatchesPattern "ax.com" "*.X.com" = false.
Proof.
  assert (Hlow : lower_cased "WWW.Example.com" "www.example.com")
    by (now apply lower_cased_spec).
  assert (Hstrip : www_stripped "www.example.com" "example.com") by (now left).
  assert (Hplain : forall base, "example.com" <> "*." +:+ base)
    by (intros base; discriminate).
  assert (Hlow' : lower_cased "*.X.com" "*.x.com") by (now apply lower_cased_spec).
  assert (Hstrip' : www_stripped "*.x.com" "*.x.com")
    by (right; split; [intros r; discriminate | reflexivity]).
  destruct domainMatchesPattern_spec as (_ & Hspec & _).
  split; [repeat split; assumption|].
  split.
  { destruct (Hspec "m.example.com" _ _ _ Hlow Hstrip) as [_ Hiff].
    apply (Hiff Hplain). right. now exists "m". }
  split.
  { destruct (Hspec "example.com" _ _ _ Hlow Hstrip) as [_ Hiff].
    apply (Hiff Hplain). now left. }
  split.
  { destruct (Hspec "example.com.evil.com" _ _ _ Hlow Hstrip) as [_ Hiff].
    apply not_true_is_false. intros Htrue. apply (Hiff Hplain) in Htrue.
    apply covers_spec in Htrue. discriminate Htrue. }
  split; [split; assumption|].
  split.
  { destruct (Hspec "a.x.com" _ _ _ Hlow' Hstrip') as [Hiff _].
    apply (Hiff "x.com" eq_refl). right. now exists "a". }
  destruct (Hspec "ax.com" _ _ _ Hlow' Hstrip') as [Hiff _].
  apply not_true_is_false. intros Htrue. apply (Hiff "x.com" eq_refl) in Htrue.
  apply covers_spec in Htrue. discriminate Htrue.
Defined.

(** ** The Schedule Evaluator *)

Section ScheduleFacts.
Context {host : Host}.

Lemma slot_test_spec (now : Z) (slot : ScheduleSlot) :
  (if negb (slot_enabled slot) || negb (slot_day slot =? getDay now)
   then false
   else JsString.str_le (slot_startTime slot) (currentTime now)
        && JsString.str_le (currentTime now) (slot_endTime slot)) = true
  <-> slot_active now slot.
Proof.
  unfold slot_active, JsString.str_le.
  destruct (slot_enabled slot); simpl.
  - destruct (Z.eqb_spec (slot_day slot) (getDay now)) as [Heq|Hne]; simpl.
    + rewrite andb_true_iff. tauto.
    + split; [discriminate | tauto].
  - split; [discriminate | intros [H _]; discriminate].
Qed.

(** The clock text of the code is the zero-padded [HH:MM] of the
    specification, for the hours and minutes that a date gives. *)
Lemma padStart2_two_digits (n : Z) :
  0 <= n < 100 -> padStart2 (toString n) = two_digits n.
Proof.
  intros Hn.
  assert (Hall : forallb (fun k => String.eqb (padStart2 (toString (Z.of_nat k)))
                                              (two_digits (Z.of_nat k)))
                         (List.seq 0 100) = true) by (vm_compute; reflexivity).
  rewrite forallb_forall in Hall.
  specialize (Hall (Z.to_nat n)). rewrite Z2Nat.id in Hall by lia.
  apply String.eqb_eq, Hall, in_seq. lia.
Qed.

Lemma currentTime_clock_text (now : Z) :
  0 <= getHours now < 24 -> 0 <= getMinutes now < 60 ->
  currentTime now = clock_text (getHours now) (getMinutes now).
Proof.
  intros Hh Hm. unfold currentTime, clock_text.
  now rewrite !padStart2_two_digits by lia.
Qed.

Lemma slot_in_force_active (now : Z) (slot : ScheduleSlot) :
  0 <= getHours now < 24 -> 0 <= getMinutes now < 60 ->
  slot_in_force now slot <-> slot_active now slot.
Proof.
  intros Hh Hm. unfold slot_in_force, slot_active.
  now rewrite (currentTime_clock_text now Hh Hm).
Qed.

(** C7. [isActive(schedule, now)]: a disabled schedule and a schedule
    without slots are active at every [now].  Otherwise, with the hours of
    [now] in 0..23 and its minutes in 0..59 as a date gives them, the
    schedule is active exactly when some enabled slot is for the weekday of
    [now] and has [startTime <= HH:MM <= endTime], where [HH:MM] is the
    clock text of [now] with two decimal digits for the hours and two for
    the minutes and the comparison is the inclusive lexicographic order of
    strings; and it is inactive when no slot is such. *)
Theorem isWithinSchedule_spec (now : Z) (schedule : WeeklySchedule) :
  (schedule_enabled schedule = false \/ schedule_slots schedule = [] ->
   isWithinSchedule now schedule = true)
  /\ (schedule_enabled schedule = true -> schedule_slots schedule <> [] ->
      0 <= getHours now < 24 -> 0 <= getMinutes now < 60 ->
      (isWithinSchedule now schedule = true <->
       exists slot, slot ∈ schedule_slots schedule /\ slot_in_force now slot)
      /\ ((forall slot, slot ∈ schedule_slots schedule -> ~ slot_in_force now slot) ->
          isWithinSchedule now schedule = false)).
Proof.
  unfold isWithinSchedule. split.
  - intros [-> | ->]; [reflexivity|]. simpl. now rewrite orb_true_r.
  - intros -> Hne Hh Hm.
    destruct (schedule_slots schedule) as [|slot0 slots] eqn:Hslots; [congruence|].
    change (negb true || (length (slot0 :: slots) =? 0)%nat) with false.
    cbv iota.
    assert (Hiff : existsb
      (fun slot => if negb (slot_enabled slot) || negb (slot_day slot =? getDay now)
                   then false
                   else JsString.str_le (slot_startTime slot) (currentTime now)
                        && JsString.str_le (currentTime now) (slot_endTime slot))
      (slot0 :: slots) = true
      <-> exists slot, slot ∈ slot0 :: slots /\ slot_in_force now slot).
    { rewrite existsb_exists. split; intros (slot & Hin & Hact); exists slot.
      - split; [now apply list_elem_of_In|].
        now apply (slot_in_force_active now slot Hh Hm), slot_test_spec.
      - split; [now apply list_elem_of_In|].
        now apply slot_test_spec, (slot_in_force_active now slot Hh Hm). }
    split; [exact Hiff|].
    intros Hnone. apply not_true_is_false. intros Htrue.
    apply Hiff in Htrue as (slot & Hin & Hact). exact (Hnone slot Hin Hact).
Qed.

End ScheduleFacts.

Lemma isWithinSchedule_spec_witness :
  let slot := mkScheduleSlot "a" 4 "09:00" "17:00" true in
  let schedule := mkWeeklySchedule true [slot] in
  let at_0905 := 9 * 3600000 + 5 * 60000 in
  let at_1700 := 17 * 3600000 in
  let at_1701 := 17 * 3600000 + 60000 in
  (schedule_enabled schedule = true /\ schedule_slots schedule <> []
   /\ 0 <= @getHours utc_host at_0905 < 24 /\ 0 <= @getMinutes utc_host at_0905 < 60)
  /\ (@getDay utc_host at_0905 = 4
      /\ clock_text (@getHours utc_host at_0905) (@getMinutes utc_host at_0905) = "09:05"
      /\ @currentTime utc_host at_0905 = "09:05"
      /\ @slot_in_force utc_host at_0905 slot)
  /\ @isWithinSchedule utc_host at_0905 schedule = true
  /\ (clock_text (@getHours utc_host at_1700) (@getMinutes utc_host at_1700) = "17:00"
      /\ @isWithinSchedule utc_host at_1700 schedule = true)
  /\ (clock_text (@getHours utc_host at_1701) (@getMinutes utc_host at_1701) = "17:01"
      /\ @isWithinSchedule utc_host at_1701 schedule = false)
  /\ @isWithinSchedule utc_host at_0905 (mkWeeklySchedule false [slot]) = true
  /\ @isWithinSchedule utc_host at_1701 (mkWeeklySchedule true []) = true.
Proof.
  intros slot schedule at_0905 at_1700 at_1701.
  assert (Hen : schedule_enabled schedule = true) by reflexivity.
  assert (Hne : schedule_slots schedule <> []) by discriminate.
  assert (Hrange : forall now, 0 <= now ->
                     0 <= @getHours utc_host now < 24
                     /\ 0 <= @getMinutes utc_host now < 60).
  { intros now Hnow. simpl. split.
    - apply Z.mod_pos_bound. lia.
    - apply Z.mod_pos_bound. lia. }
  assert (Hin : slot ∈ schedule_slots schedule) by (apply list_elem_of_here).
  assert (Hforce : forall now, @getDay utc_host now = 4 ->
                     String.leb "09:00" (clock_text (@getHours utc_host now)
                                                    (@getMinutes utc_host now)) = true ->
                     String.leb (clock_text (@getHours utc_host now)
                                            (@getMinutes utc_host now)) "17:00" = true ->
                     @slot_in_force utc_host now slot).
  { intros now Hday Hlo Hhi. repeat split; [now rewrite Hday | exact Hlo | exact Hhi]. }
  destruct (Hrange at_0905 ltac:(vm_compute; discriminate)) as [Hh1 Hm1].
  destruct (Hrange at_1700 ltac:(vm_compute; discriminate)) as [Hh2 Hm2].
  destruct (Hrange at_1701 ltac:(vm_compute; discriminate)) as [Hh3 Hm3].
  destruct (@isWithinSchedule_spec utc_host at_0905 schedule) as [_ Hon1].
  destruct (Hon1 Hen Hne Hh1 Hm1) as [Hiff1 _].
  destruct (@isWithinSchedule_spec utc_host at_1700 schedule) as [_ Hon2].
  destruct (Hon2 Hen Hne Hh2 Hm2) as [Hiff2 _].
  destruct (@isWithinSchedule_spec utc_host at_1701 schedule) as [_ Hon3].
  destruct (Hon3 Hen Hne Hh3 Hm3) as [_ Hnone3].
  destruct (@isWithinSchedule_spec utc_host at_0905 (mkWeeklySchedule false [slot]))
    as [Hoff _].
  destruct (@isWithinSchedule_spec utc_host at_1701 (mkWeeklySchedule true []))
    as [Hempty _].
  assert (Hf1 : @slot_in_force utc_host at_0905 slot)
    by (apply Hforce; vm_compute; reflexivity).
  assert (Hf2 : @slot_in_force utc_host at_1700 slot)
    by (apply Hforce; vm_compute; reflexivity).
  split; [repeat split; solve [assumption | apply Hh1 | apply Hm1]|].
  split; [repeat split; solve [vm_compute; reflexivity | apply Hf1]|].
  split; [apply Hiff1; exists slot; split; assumption|].
  split; [split; [vm_compute; reflexivity | apply Hiff2; exists slot; split; assumption]|].
  split.
  { split; [vm_compute; reflexivity|]. apply Hnone3.
    intros other Hother (_ & _ & _ & Hhi).
    apply list_elem_of_singleton in Hother. subst other.
    vm_compute in Hhi. discriminate Hhi. }
  split; [apply Hoff; now left | apply Hempty; now right].
Defined.

(** The clock text is zero-padded: 09:05 on a Thursday, on the sample host. *)
Example currentTime_padded :
  @currentTime utc_host (9 * 3600000 + 5 * 60000) = "09:05"
  /\ @getDay utc_host (9 * 3600000 + 5 * 60000) = 4.
Proof. split; reflexivity. Qed.

(** A Thursday 09:00-17:00 slot: active at 09:05 and at 17:00 sharp, not at
    17:01, and not on Friday. *)
Example isWithinSchedule_window :
  let schedule := mkWeeklySchedule true [mkScheduleSlot "a" 4 "09:00" "17:00" true] in
  @isWithinSchedule utc_host (9 * 3600000 + 5 * 60000) schedule = true
  /\ @isWithinSchedule utc_host (17 * 3600000) schedule = true
  /\ @isWithinSchedule utc_host (17 * 3600000 + 60000) schedule = false
  /\ @isWithinSchedule utc_host (days 1 + 10 * 3600000) schedule = false.
Proof. repeat split; vm_compute; reflexivity. Qed.

(** ** The Blocking Decision Engine *)

Lemma existsb_elem_of {A} (f : A -> bool) (l : list A) :
  existsb f l = true <-> exists x, x ∈ l /\ f x = true.
Proof.
  rewrite existsb_exists.
  split; intros (x & Hin & Hx); exists x; (split; [now apply list_elem_of_In | exact Hx]).
Qed.

Section DecisionFacts.
Context {host : Host}.

Lemma break_in_force_spec (breakUntil : option Z) (now : Z) :
  0 <= now ->
  break_in_force breakUntil now = true <->
  exists expiry, breakUntil = Some expiry /\ now < expiry.
Proof.
  intros Hnow. destruct breakUntil as [t|]; simpl.
  - rewrite andb_true_iff, negb_true_iff, Z.eqb_neq, Z.ltb_lt. split.
    + intros [_ Hlt]. now exists t.
    + intros (t' & [= <-] & Hlt). split; [lia | exact Hlt].
  - split; [discriminate | intros (t & [=] & _)].
Qed.

(** The schedule test of [isUrlBlocked] is the Schedule Evaluator's
    verdict: the guard [weeklySchedule.enabled &&] changes nothing. *)
Lemma schedule_guard (now : Z) (schedule : WeeklySchedule) :
  schedule_enabled schedule && negb (isWithinSchedule now schedule)
  = negb (isWithinSchedule now schedule).
Proof.
  unfold isWithinSchedule. destruct (schedule_enabled schedule); reflexivity.
Qed.

(** What a navigation check writes: nothing, except that an expired break
    of the domain is deleted when the check reaches the break test. *)
Lemma isUrlBlocked_effect (url : string) (now : Z) (w : World) :
  exists verdict, 
    isUrlBlocked url now w = (inr verdict, w)
    \/ isUrlBlocked url now w
       = (inr verdict,
          with_store (with_temporaryBreaks
                        (Some (delete (extractDomain url)
                                      (default ∅ (temporaryBreaks (store w)))))) w).
Proof.
  unfold isUrlBlocked.
  destruct (String.eqb (extractDomain url) ""); [exists false; now left|].
  destruct (JsString.startsWith url extension_root); [exists false; now left|].
  unfold bind, getSettings, getWeeklySchedule, getBlockedSites, storage_get,
    storage_update, date_now, ret. simpl.
  destruct (negb _); [exists false; now left|].
  destruct (_ && _); [exists false; now left|].
  destruct (break_in_force _ _); [exists false; now left|].
  destruct (break_expired _ _); eexists; [right | left]; reflexivity.
Qed.

(** The order of the checks shows in the one write of a navigation check:
    the expired break of the domain is deleted exactly when the domain
    parsed, the URL is not a page of the extension, blocking is enabled and
    the schedule is active, that is, when the check got as far as the break
    test. *)
Lemma isUrlBlocked_cleanup (url : string) (now : Z) (w : World) :
  let breaks := default ∅ (temporaryBreaks (store w)) in
  snd (isUrlBlocked url now w)
  = if negb (String.eqb (extractDomain url) "")
       && negb (JsString.startsWith url extension_root)
       && settings_enabled (default DEFAULT_SETTINGS (settings (store w)))
       && isWithinSchedule now (default DEFAULT_WEEKLY_SCHEDULE (weeklySchedule (store w)))
       && break_expired (breaks !! extractDomain url) now
    then with_store (with_temporaryBreaks (Some (delete (extractDomain url) breaks))) w
    else w.
Proof.
  unfold isUrlBlocked.
  destruct (String.eqb (extractDomain url) ""); [reflexivity|].
  destruct (JsString.startsWith url extension_root); [reflexivity|].
  unfold bind, getSettings, getWeeklySchedule, getBlockedSites, storage_get,
    storage_update, date_now, ret. simpl.
  destruct (settings_enabled _); [|reflexivity]. simpl.
  rewrite schedule_guard.
  destruct (isWithinSchedule now _); [|reflexivity]. simpl.
  destruct (default ∅ (temporaryBreaks (store w)) !! extractDomain url) as [t|];
    [|reflexivity].
  unfold break_in_force, break_expired.
  destruct (Z.eqb_spec t 0); simpl; [reflexivity|].
  destruct (Z.ltb_spec now t), (Z.leb_spec t now); try lia; reflexivity.
Qed.

(** C1, as the code has it.  A navigation check never throws, and for
    [0 <= now] its verdict is Deny exactly when the URL is not a page of
    the extension itself and the five conditions hold: the domain parses,
    blocking is enabled, the schedule is active, no unexpired break is held
    for the domain, some blocklist entry matches.  Every other case is
    Allow. *)
Theorem isUrlBlocked_spec (url : string) (now : Z) (w : World) :
  0 <= now ->
  exists verdict w',
    isUrlBlocked url now w = (inr verdict, w')
    /\ (verdict = true <->
        JsString.startsWith url extension_root = false
        /\ deny_conditions url now (store w)).
Proof.
  intros Hnow. unfold isUrlBlocked, deny_conditions.
  destruct (String.eqb_spec (extractDomain url) "") as [Hd|Hd].
  { exists false, w. split; [reflexivity|].
    split; [discriminate | intros (_ & Hc & _); contradiction]. }
  destruct (JsString.startsWith url extension_root) eqn:Hext.
  { exists false, w. split; [reflexivity|].
    split; [discriminate | intros (Hc & _); discriminate]. }
  unfold bind, getSettings, getWeeklySchedule, getBlockedSites, storage_get,
    storage_update, date_now, ret. simpl.
  destruct (settings_enabled (default DEFAULT_SETTINGS (settings (store w)))) eqn:Hen;
    simpl.
  2:{ exists false, w. split; [reflexivity|].
      split; [discriminate | intros (_ & _ & Hc & _); discriminate]. }
  rewrite schedule_guard.
  destruct (isWithinSchedule now _) eqn:Hsched; simpl.
  2:{ exists false, w. split; [reflexivity|].
      split; [discriminate | intros (_ & _ & _ & Hc & _); discriminate]. }
  destruct (break_in_force _ now) eqn:Hbreak.
  { exists false, w. split; [reflexivity|].
    split; [discriminate|]. intros (_ & _ & _ & _ & Hc & _).
    apply break_in_force_spec in Hbreak; [contradiction | exact Hnow]. }
  assert (Hno : ~ (exists expiry,
             default ∅ (temporaryBreaks (store w)) !! extractDomain url = Some expiry
             /\ now < expiry)).
  { intros Hex. apply break_in_force_spec in Hex; [congruence | exact Hnow]. }
  destruct (break_expired _ now); eexists; eexists; (split; [reflexivity|]);
    rewrite existsb_elem_of; tauto.
Qed.

End DecisionFacts.

(** On the sample host, a page of the extension is let through although its
    host is on the blocklist and every condition of a Deny verdict holds. *)
Lemma isUrlBlocked_extension_page_allowed :
  let url := "chrome-extension://flowblockextension/blocked.html" in
  @deny_conditions utc_host url 1000 (store extension_listed_world)
  /\ @isUrlBlocked utc_host url 1000 extension_listed_world
     = (inr false, extension_listed_world).
Proof.
  split; [|reflexivity].
  unfold deny_conditions. repeat split.
  - discriminate.
  - intros (expiry & Hlook & _). discriminate.
  - eexists. split; [apply list_elem_of_here | reflexivity].
Qed.

Lemma isUrlBlocked_spec_witness :
  0 <= 1000
  /\ exists verdict w',
       @isUrlBlocked utc_host "https://m.facebook.com/x" 1000 facebook_world
       = (inr verdict, w')
       /\ (verdict = true <->
           JsString.startsWith "https://m.facebook.com/x" (@extension_root utc_host) = false
           /\ @deny_conditions utc_host "https://m.facebook.com/x" 1000
                               (store facebook_world)).
Proof.
  split; [lia|].
  apply (@isUrlBlocked_spec utc_host "https://m.facebook.com/x" 1000 facebook_world).
  lia.
Defined.

(** Scenario A: [m.facebook.com] is denied.  Scenario B: a break held for the
    navigated domain and expiring in five minutes turns the verdict to
    Allow; the break is looked up under the navigated domain itself. *)
Example scenario_A_deny :
  fst (@isUrlBlocked utc_host "https://m.facebook.com/x" 1000 facebook_world) = inr true.
Proof. reflexivity. Qed.

Example scenario_B_allow :
  let w := with_store (with_temporaryBreaks
                         (Some {[ "m.facebook.com" := 1000 + minutes 5 ]}))
                      facebook_world in
  fst (@isUrlBlocked utc_host "https://m.facebook.com/x" 1000 w) = inr false
  /\ fst (@isUrlBlocked utc_host "https://m.facebook.com/x" (1000 + minutes 5) w)
     = inr true.
Proof. split; vm_compute; reflexivity. Qed.

(** A break is looked up under the navigated domain only: one granted for
    [facebook.com] does not exempt [m.facebook.com]. *)
Example break_is_per_domain :
  let w := with_store (with_temporaryBreaks
                         (Some {[ "facebook.com" := 1000 + minutes 5 ]}))
                      facebook_world in
  fst (@isUrlBlocked utc_host "https://m.facebook.com/x" 1000 w) = inr true
  /\ fst (@isUrlBlocked utc_host "https://www.facebook.com/x" 1000 w) = inr false.
Proof. split; vm_compute; reflexivity. Qed.

(** ** Recording a block *)

Section RecordBlockFacts.
Context {host : Host}.

Lemma bump_first_match_spec (domain : string) (sites : list BlockedSite) :
  existsb (fun site => domainMatchesPattern domain (site_domain site)) sites = true ->
  exists before site after,
    sites = (before ++ site :: after)%list
    /\ Forall (fun s => domainMatchesPattern domain (site_domain s) = false) before
    /\ domainMatchesPattern domain (site_domain site) = true
    /\ bump_first_match domain sites = Some (before ++ bump site :: after)%list.
Proof.
  induction sites as [|site sites IH]; simpl; [discriminate|].
  destruct (domainMatchesPattern domain (site_domain site)) eqn:Hm; simpl.
  - intros _. exists [], site, sites. repeat split; [constructor | exact Hm].
  - intros Hex. destruct (IH Hex) as (before & site' & after & -> & Hbefore & Hm' & ->).
    exists (site :: before), site', after. repeat split.
    + constructor; assumption.
    + exact Hm'.
Qed.

Lemma bump_first_match_none (domain : string) (sites : list BlockedSite) :
  existsb (fun site => domainMatchesPattern domain (site_domain site)) sites = false ->
  bump_first_match domain sites = None.
Proof.
  induction sites as [|site sites IH]; simpl; [reflexivity|].
  destruct (domainMatchesPattern domain (site_domain site)); simpl; [discriminate|].
  intros Hex. now rewrite IH.
Qed.

(** A Deny verdict was reached on a match, and the check left the
    blocklist and the stats as they were. *)
Lemma isUrlBlocked_deny_match (url : string) (now : Z) (w w1 : World) :
  isUrlBlocked url now w = (inr true, w1) ->
  existsb (fun site => domainMatchesPattern (extractDomain url) (site_domain site))
          (default [] (blockedSites (store w1))) = true
  /\ blockedSites (store w1) = blockedSites (store w)
  /\ stats (store w1) = stats (store w).
Proof.
  unfold isUrlBlocked.
  destruct (String.eqb (extractDomain url) ""); [discriminate|].
  destruct (JsString.startsWith url extension_root); [discriminate|].
  unfold bind, getSettings, getWeeklySchedule, getBlockedSites, storage_get,
    storage_update, date_now, ret. simpl.
  destruct (negb _); [discriminate|].
  destruct (_ && _); [discriminate|].
  destruct (break_in_force _ _); [discriminate|].
  destruct (break_expired _ _); intros [= Hm <-]; simpl; auto.
Qed.

(** C9. After a Deny verdict, [recordBlock] finds the first entry of the
    blocklist whose pattern matches the domain (no entry before it
    matches), adds 1 to the [blockCount] of that entry and 1 to
    [totalBlocks], and changes nothing else: the other entries, later
    matching ones included, the other fields of the entry and of the stats
    record, and the rest of the world stay as they were. *)
Theorem incrementBlockCount_spec (url : string) (now : Z) (w w1 : World) :
  isUrlBlocked url now w = (inr true, w1) ->
  exists before site after,
    default [] (blockedSites (store w1)) = (before ++ site :: after)%list
    /\ Forall (fun s => domainMatchesPattern (extractDomain url) (site_domain s) = false)
              before
    /\ domainMatchesPattern (extractDomain url) (site_domain site) = true
    /\ incrementBlockCount url now w1
       = (inr tt,
          with_store
            (fun s =>
               with_stats
                 (Some (let st := default DEFAULT_STATS (stats (store w1)) in
                        mkStats (totalFocusTime st) (totalBlocks st + 1)
                                (currentStreak st) (longestStreak st)
                                (sessionsCompleted st)))
                 (with_blockedSites
                    (Some (before
                           ++ mkBlockedSite (site_id site) (site_domain site)
                                            (site_category site) (site_createdAt site)
                                            (site_blockCount site + 1)
                           :: after)%list) s))
            w1).
Proof.
  intros Hdeny. apply isUrlBlocked_deny_match in Hdeny as (Hm & _ & _).
  destruct (bump_first_match_spec _ _ Hm) as (before & site & after & Hsites & Hb & Hs & Hbump).
  exists before, site, after. repeat split; try assumption.
  unfold incrementBlockCount, bind, getBlockedSites, getStats, updateStats,
    storage_get, storage_update, ret. simpl.
  rewrite Hbump. reflexivity.
Qed.

End RecordBlockFacts.

(** Scenario A, and a blocklist with two matching entries: only the first of
    them is counted. *)
Lemma incrementBlockCount_spec_witness :
  @isUrlBlocked utc_host "https://m.facebook.com/x" 1000 overlapping_world
  = (inr true, overlapping_world)
  /\ exists before site after,
      default [] (blockedSites (store overlapping_world)) = (before ++ site :: after)%list
      /\ Forall (fun s => domainMatchesPattern
                            (@extractDomain utc_host "https://m.facebook.com/x")
                            (site_domain s) = false) before
      /\ domainMatchesPattern (@extractDomain utc_host "https://m.facebook.com/x")
                              (site_domain site) = true
      /\ @incrementBlockCount utc_host "https://m.facebook.com/x" 1000 overlapping_world
         = (inr tt,
            with_store
              (fun s =>
                 with_stats
                   (Some (let st := default DEFAULT_STATS (stats (store overlapping_world)) in
                          mkStats (totalFocusTime st) (totalBlocks st + 1)
                                  (currentStreak st) (longestStreak st)
                                  (sessionsCompleted st)))
                   (with_blockedSites
                      (Some (before
                             ++ mkBlockedSite (site_id site) (site_domain site)
                                              (site_category site) (site_createdAt site)
                                              (site_blockCount site + 1)
                             :: after)%list) s))
              overlapping_world).
Proof.
  split; [reflexivity|].
  apply (@incrementBlockCount_spec utc_host "https://m.facebook.com/x" 1000
           overlapping_world overlapping_world).
  reflexivity.
Defined.

Example scenario_A_counts :
  store (snd (@onBeforeNavigate utc_host "https://m.facebook.com/x" 1000 facebook_world))
  = with_stats (Some (mkStats 0 1 0 0 0))
      (with_blockedSites (Some [mkBlockedSite "1" "facebook.com" None 0 1]) empty_store).
Proof. reflexivity. Qed.

Example first_match_only :
  blockedSites
    (store (snd (@onBeforeNavigate utc_host "https://m.facebook.com/x" 1000
                   overlapping_world)))
  = Some [mkBlockedSite "1" "twitter.com" None 0 3;
          mkBlockedSite "2" "facebook.com" (Some "Social Media") 5 8;
          mkBlockedSite "3" "*.facebook.com" None 6 2].
Proof. reflexivity. Qed.

(** ** Remaining time *)

Ltac unfold_m :=
  unfold getTimeRemaining, pauseSession, resumeSession, startFocusSession,
    saveFocusSession, remove_current_and_paused, getCurrentSession, getFocusSessions,
    getStats, updateStats, getSettings, getPomodoroState, updatePomodoroState,
    alarms_clear, alarms_create, notifications_create, generateId,
    bind, ret, throw, storage_get, storage_update, date_now in *.

Lemma round_div_max (x : Z) :
  round_div (Z.max 0 x) 1000 = Z.max 0 (round_div x 1000).
Proof.
  unfold round_div. destruct (Z.le_gt_cases 0 x) as [Hx|Hx].
  - rewrite Z.max_r by lia. rewrite Z.max_r; [reflexivity|].
    apply Z.div_pos; lia.
  - rewrite Z.max_l by lia. change ((2 * 0 + 1000) / (2 * 1000)) with 0.
    rewrite Z.max_l; [reflexivity|].
    assert ((2 * x + 1000) / (2 * 1000) < 1); [|lia].
    apply Z.div_lt_upper_bound; lia.
Qed.

(** [Math.round(ms / 1000)] is the nearest whole second, halves up. *)
Lemma round_div_nearest (a b : Z) :
  0 < b -> 2 * b * round_div a b - b <= 2 * a < 2 * b * round_div a b + b.
Proof.
  intros Hb. unfold round_div.
  pose proof (Z.div_mod (2 * a + b) (2 * b) ltac:(lia)) as Hdm.
  pose proof (Z.mod_pos_bound (2 * a + b) (2 * b) ltac:(lia)) as Hm.
  lia.
Qed.

(** The timer utility: the frozen value while a paused record exists,
    otherwise the wall-clock formula. *)
Lemma getTimeRemaining_spec (now : Z) (w : World) (session : FocusSession) :
  currentSession (store w) = Some session ->
  getTimeRemaining now w
  = (inr match pausedSession (store w) with
         | Some paused => remainingSeconds paused
         | None =>
             Z.max 0 (round_div (session_duration session * 60 * 1000
                                 - (now - session_startTime session)) 1000)
         end, w).
Proof.
  intros Hcur. unfold_m. rewrite Hcur.
  destruct (pausedSession (store w)); reflexivity.
Qed.

Lemma getTimeRemaining_idle (now : Z) (w : World) :
  currentSession (store w) = None -> getTimeRemaining now w = (inr 0, w).
Proof. intros Hcur. unfold_m. now rewrite Hcur. Qed.

Section RemainingFacts.
Context {host : Host}.

(** The [getTimeRemaining] command computes the wall-clock formula in
    every state with a current session: it does not read the paused
    record. *)
Lemma command_getTimeRemaining_spec (now : Z) (w : World) (session : FocusSession) :
  currentSession (store w) = Some session ->
  handleMessage MsgGetTimeRemaining now w
  = (inr (RespRemaining
            (Z.max 0 (round_div (session_duration session * 60 * 1000
                                 - (now - session_startTime session)) 1000))), w).
Proof.
  intros Hcur. unfold handleMessage. unfold_m. rewrite Hcur.
  now rewrite round_div_max.
Qed.

(** So the two agree while no paused record exists. *)
Lemma command_agrees_when_running (now : Z) (w : World) (session : FocusSession) :
  currentSession (store w) = Some session ->
  pausedSession (store w) = None ->
  exists seconds,
    getTimeRemaining now w = (inr seconds, w)
    /\ handleMessage MsgGetTimeRemaining now w = (inr (RespRemaining seconds), w).
Proof.
  intros Hcur Hp. eexists.
  rewrite (command_getTimeRemaining_spec _ _ _ Hcur),
    (getTimeRemaining_spec _ _ _ Hcur), Hp.
  split; reflexivity.
Qed.

End RemainingFacts.


(** ** Ending a session: stats and streak *)

Section EndSessionFacts.
Context {host : Host}.

Ltac unfold_end := unfold endFocusSession; unfold_m.

Lemma endFocusSession_completed (now : Z) (w : World) (session : FocusSession) :
  currentSession (store w) = Some session ->
  exists w',
    endFocusSession (session_id session) true now w = (inr tt, w')
    /\ stats (store w')
       = Some (stats_after session now (default DEFAULT_STATS (stats (store w))))
    /\ currentSession (store w') = None
    /\ pausedSession (store w') = None
    /\ alarm w' = None.
Proof.
  intros Hcur. unfold_end. rewrite Hcur. rewrite String.eqb_refl. simpl.
  eexists. split; [reflexivity|]. simpl. repeat split.
Qed.

Lemma endFocusSession_abandoned (now : Z) (w : World) (session : FocusSession) :
  currentSession (store w) = Some session ->
  exists w',
    endFocusSession (session_id session) false now w = (inr tt, w')
    /\ stats (store w') = stats (store w)
    /\ currentSession (store w') = None
    /\ pausedSession (store w') = None
    /\ alarm w' = None.
Proof.
  intros Hcur. unfold_end. rewrite Hcur. rewrite String.eqb_refl. simpl.
  eexists. split; [reflexivity|]. simpl. repeat split.
Qed.

(** The first half of C2: a completed session adds the minutes that really
    elapsed, not [session.duration], and one completed session. *)
Lemma endFocusSession_adds_elapsed (now : Z) (w w' : World) (session : FocusSession) :
  currentSession (store w) = Some session ->
  endFocusSession (session_id session) true now w = (inr tt, w') ->
  let before := default DEFAULT_STATS (stats (store w)) in
  let after := default DEFAULT_STATS (stats (store w')) in
  totalFocusTime after
  = totalFocusTime before + round_div (now - session_startTime session) 60000
  /\ sessionsCompleted after = sessionsCompleted before + 1
  /\ totalBlocks after = totalBlocks before.
Proof.
  intros Hcur Hend.
  destruct (endFocusSession_completed now w session Hcur) as (w2 & Hrun & Hstats & _).
  rewrite Hrun in Hend. injection Hend as <-. rewrite Hstats. simpl. auto.
Qed.

(** The rule of the streak, as [endFocusSession] computes it. *)
Lemma next_streak_rule (lastDate : option Z) (today yesterday streak : Z) :
  (lastDate = Some today -> next_streak lastDate today yesterday streak = streak)
  /\ (lastDate <> Some today -> lastDate = Some yesterday ->
      next_streak lastDate today yesterday streak = streak + 1)
  /\ (lastDate <> Some today -> lastDate <> Some yesterday ->
      next_streak lastDate today yesterday streak = 1).
Proof.
  unfold next_streak. repeat split; intros.
  - now rewrite bool_decide_eq_true_2.
  - rewrite bool_decide_eq_false_2 by assumption. now rewrite bool_decide_eq_true_2.
  - now rewrite !bool_decide_eq_false_2.
Qed.

(** A session begun and completed on the same calendar day never moves
    the streak once a session was completed before: the date compared with
    today is the date of the completing session's own start. *)
Lemma same_day_session_keeps_streak (now : Z) (w w' : World) (session : FocusSession) :
  currentSession (store w) = Some session ->
  0 < sessionsCompleted (default DEFAULT_STATS (stats (store w))) ->
  toDateString (session_startTime session) = toDateString now ->
  endFocusSession (session_id session) true now w = (inr tt, w') ->
  currentStreak (default DEFAULT_STATS (stats (store w')))
  = currentStreak (default DEFAULT_STATS (stats (store w))).
Proof.
  intros Hcur Hdone Hday Hend.
  destruct (endFocusSession_completed now w session Hcur) as (w2 & Hrun & Hstats & _).
  rewrite Hrun in Hend. injection Hend as <-. rewrite Hstats. simpl.
  destruct (Z.ltb_spec 0 (sessionsCompleted (default DEFAULT_STATS (stats (store w)))));
    [|lia].
  rewrite Hday. unfold next_streak. now rewrite bool_decide_eq_true_2.
Qed.

End EndSessionFacts.

(** Scenario E: nominal 25 minutes, ended after 24 and marked completed. *)
Example scenario_E :
  stats (store (complete_session (hours 10) (hours 10 + minutes 24) fresh_world))
  = Some (mkStats 24 0 1 1 1).
Proof. vm_compute. reflexivity. Qed.

(** C2, at a break session.  In Pomodoro mode the alarm ends every session
    with [completed = true]: after the first focus session the stats show 25
    minutes and one session; when the alarm of the 5 minute break that
    follows fires, the break is counted as focus time and as a completed
    session. *)
Theorem break_session_counts_in_stats :
  (session_type <$> currentSession (store first_break_world)) = Some Break
  /\ stats (store first_break_world) = Some (mkStats 25 0 1 1 1)
  /\ stats (store (exec (@onAlarm utc_host) (minutes 30) first_break_world))
     = Some (mkStats 30 0 1 1 2).
Proof. repeat split; vm_compute; reflexivity. Qed.

(** C3, on three days.  A focus session is completed on day 0, another on
    day 1, and after a skipped day a third on day 3, each begun and ended on
    its own day.  The streak is 1 after each of them and the longest streak
    stays 1.  Only a session that spans midnight raises the streak. *)
Theorem streak_not_raised_next_day :
  let day0 := complete_session (hours 10) (hours 10 + minutes 25) fresh_world in
  let day1 := complete_session (days 1 + hours 10) (days 1 + hours 10 + minutes 25) day0 in
  let day3 := complete_session (days 3 + hours 10) (days 3 + hours 10 + minutes 25) day1 in
  stats (store day0) = Some (mkStats 25 0 1 1 1)
  /\ stats (store day1) = Some (mkStats 50 0 1 1 2)
  /\ stats (store day3) = Some (mkStats 75 0 1 1 3).
Proof. repeat split; vm_compute; reflexivity. Qed.

Example streak_raised_across_midnight :
  let day0 := complete_session (hours 10) (hours 10 + minutes 25) fresh_world in
  let night := complete_session (hours 24 - minutes 10) (hours 24 + minutes 15) day0 in
  stats (store night) = Some (mkStats 50 0 2 2 2).
Proof. vm_compute. reflexivity. Qed.

(** ** The Pomodoro Cycle Controller *)

Lemma rem_is_zero_spec (a b : Z) :
  rem_is_zero a b = true <-> b <> 0 /\ a mod b = 0.
Proof.
  unfold rem_is_zero. destruct (Z.eqb_spec b 0) as [->|Hb].
  - split; [discriminate | intros [H _]; congruence].
  - rewrite Z.eqb_eq, Z.rem_divide, <- Z.mod_divide by assumption. tauto.
Qed.


(** Whatever the controller starts agrees with its flag: [isOnBreak] is set
    exactly when the session it has just started is a break. *)
Lemma handlePomodoroSessionEnd_flag_tracks_type (now : Z) (w w' : World)
      (step : PomodoroStep) :
  handlePomodoroSessionEnd now w = (inr (Some step), w') ->
  (isOnBreak (step_pomodoroState step) = true <-> session_type (nextSession step) = Break)
  /\ currentSession (store w') = Some (nextSession step)
  /\ pomodoroState (store w') = Some (step_pomodoroState step).
Proof.
  unfold handlePomodoroSessionEnd. unfold_m. cbn [fst snd].
  destruct (negb _); [discriminate|].
  destruct (isOnBreak _); [|destruct (rem_is_zero _ _)]; simpl;
    destruct (currentSession (store w)); simpl; intros [= <- <-]; simpl;
    repeat split; intros; congruence.
Qed.

Lemma startPomodoroMode_flag_tracks_type (work brk long now : Z) (w : World) :
  exists session p w',
    startPomodoroMode work brk long now w = (inr (session, p), w')
    /\ isOnBreak p = false /\ session_type session = Focus
    /\ session_duration session = work
    /\ p = mkPomodoroState true work brk long
             (sessionsUntilLongBreak
                (default DEFAULT_POMODORO_STATE (pomodoroState (store w))))
             1 false 0
    /\ currentSession (store w') = Some session
    /\ pomodoroState (store w') = Some p.
Proof.
  unfold startPomodoroMode. unfold_m. cbn [fst snd]. simpl.
  destruct (currentSession (store w)); simpl;
    (eexists; eexists; eexists; split; [reflexivity|]); simpl; repeat split.
Qed.

(** Scenario C: the breaks after the first three focus sessions last 5
    minutes, the one after the fourth lasts 15. *)
Example scenario_C :
  let w0 := exec (startPomodoroMode 25 5 15) 0 fresh_world in
  let break_after times :=
    (fun s => (session_type s, session_duration s))
      <$> currentSession (store (alarms times w0)) in
  break_after [minutes 25] = Some (Break, 5)
  /\ break_after [minutes 25; minutes 30; minutes 55] = Some (Break, 5)
  /\ break_after [minutes 25; minutes 30; minutes 55; minutes 60; minutes 85]
     = Some (Break, 5)
  /\ (fun s => (session_type s, session_duration s))
       <$> currentSession (store fourth_focus_world) = Some (Focus, 25)
  /\ (fun s => (session_type s, session_duration s))
       <$> currentSession (store (alarms [minutes 115] fourth_focus_world))
     = Some (Break, 15).
Proof. repeat split; vm_compute; reflexivity. Qed.



(** ** Ending a session that is not the current one *)

Section SessionNotFoundFacts.
Context {host : Host}.

Lemma endFocusSession_not_found (sessionId : string) (completed : bool)
      (now : Z) (w : World) :
  (currentSession (store w) = None
   \/ exists session, currentSession (store w) = Some session
                      /\ session_id session <> sessionId) ->
  endFocusSession sessionId completed now w = (inl SessionNotFound, w).
Proof.
  unfold endFocusSession. unfold_m.
  intros [Hnone | (session & Hcur & Hid)].
  - now rewrite Hnone.
  - rewrite Hcur. apply String.eqb_neq in Hid. now rewrite Hid.
Qed.

Lemma startFocusSession_current (d : Z) (type : SessionType) (now : Z) (w : World) :
  exists session w',
    startFocusSession d type now w = (inr session, w')
    /\ session = mkFocusSession (idgen w (issued w)) now None d false type
    /\ currentSession (store w') = Some session
    /\ (is_Some (currentSession (store w)) -> pausedSession (store w') = None)
    /\ (currentSession (store w) = None ->
        pausedSession (store w') = pausedSession (store w)).
Proof.
  unfold_m. destruct (currentSession (store w)) eqn:Hcur; simpl;
    (eexists; eexists; split; [reflexivity|]); simpl; repeat split;
    try reflexivity.
  - intros [=].
  - intros [? [=]].
Qed.

(** C8. From any state, a fresh idle one included: a session is started,
    ended as completed under the identifier that [start] returned, and
    then the remaining time is 0 and a second [end] with that identifier
    fails with [SessionNotFound].  In general [end] fails with
    [SessionNotFound] whenever no session is current or the current one
    has another identifier, and the failing call changes nothing. *)
Theorem endFocusSession_round_trip :
  (forall (d t1 t2 t3 t4 : Z) (w : World),
      exists session w1 w2,
        startFocusSession d Focus t1 w = (inr session, w1)
        /\ endFocusSession (session_id session) true t2 w1 = (inr tt, w2)
        /\ getTimeRemaining t3 w2 = (inr 0, w2)
        /\ endFocusSession (session_id session) true t4 w2
           = (inl SessionNotFound, w2))
  /\ (forall (sessionId : string) (completed : bool) (now : Z) (w : World),
         (currentSession (store w) = None
          \/ exists session, currentSession (store w) = Some session
                             /\ session_id session <> sessionId) ->
         endFocusSession sessionId completed now w = (inl SessionNotFound, w)).
Proof.
  split; [|exact endFocusSession_not_found].
  intros d t1 t2 t3 t4 w.
  destruct (startFocusSession_current d Focus t1 w)
    as (session & w1 & Hstart & _ & Hcur & _).
  destruct (endFocusSession_completed t2 w1 session Hcur)
    as (w2 & Hend & _ & Hnone & _).
  exists session, w1, w2. repeat split; try assumption.
  - now apply getTimeRemaining_idle.
  - apply endFocusSession_not_found. now left.
Qed.

End SessionNotFoundFacts.

Lemma endFocusSession_round_trip_witness :
  (exists session w1 w2,
      startFocusSession 25 Focus 0 fresh_world = (inr session, w1)
      /\ @endFocusSession utc_host (session_id session) true (minutes 25) w1 = (inr tt, w2)
      /\ getTimeRemaining (minutes 26) w2 = (inr 0, w2)
      /\ @endFocusSession utc_host (session_id session) true (minutes 27) w2
         = (inl SessionNotFound, w2))
  /\ ((currentSession (store paused_world) = None
       \/ exists session, currentSession (store paused_world) = Some session
                          /\ session_id session <> "s7")
      /\ @endFocusSession utc_host "s7" true (minutes 2) paused_world
         = (inl SessionNotFound, paused_world)).
Proof.
  destruct (@endFocusSession_round_trip utc_host) as [Hround Hfail].
  split; [apply Hround|].
  assert (Hother : currentSession (store paused_world) = None
       \/ exists session, currentSession (store paused_world) = Some session
                          /\ session_id session <> "s7").
  { right. eexists. split; [reflexivity | discriminate]. }
  split; [exact Hother | exact (Hfail "s7" true (minutes 2) paused_world Hother)].
Defined.

(** ** The paused record exists only while a session is current *)

Lemma preserves_ret {A} (a : A) : preserves (ret a).
Proof. intros now w H. exact H. Qed.

Lemma preserves_throw {A} (e : Error) : preserves (@throw A e).
Proof. intros now w H. exact H. Qed.

Lemma preserves_bind {A B} (c : M A) (k : A -> M B) :
  preserves c -> (forall a, preserves (k a)) -> preserves (bind c k).
Proof.
  intros Hc Hk now w H. unfold bind.
  specialize (Hc now w H). destruct (c now w) as [[e|a] w']; simpl in *.
  - exact Hc.
  - now apply Hk.
Qed.

(** A computation that leaves both records alone keeps the invariant. *)
Lemma preserves_frame {A} (c : M A) :
  (forall now w, currentSession (store (snd (c now w))) = currentSession (store w)
                 /\ pausedSession (store (snd (c now w))) = pausedSession (store w)) ->
  preserves c.
Proof.
  intros Hframe now w H. unfold paused_implies_current.
  destruct (Hframe now w) as [-> ->]. exact H.
Qed.

Lemma preserves_storage_get {A} (key : Store -> A) : preserves (storage_get key).
Proof. apply preserves_frame. now intros. Qed.

Lemma preserves_date_now : preserves date_now.
Proof. apply preserves_frame. now intros. Qed.

Lemma preserves_alarms_clear : preserves alarms_clear.
Proof. apply preserves_frame. now intros. Qed.

Lemma preserves_alarms_create (delay : Z) : preserves (alarms_create delay).
Proof. apply preserves_frame. now intros. Qed.

Lemma preserves_generateId : preserves generateId.
Proof. apply preserves_frame. now intros. Qed.

Lemma preserves_notifications_create (title : NotificationTitle) (text : string) :
  preserves (notifications_create title text).
Proof. apply preserves_frame. now intros. Qed.

Lemma preserves_update_frame (f : Store -> Store) :
  (forall s, currentSession (f s) = currentSession s
             /\ pausedSession (f s) = pausedSession s) ->
  preserves (storage_update f).
Proof. intros Hf. apply preserves_frame. intros now w. apply Hf. Qed.

Lemma preserves_remove_current_and_paused : preserves remove_current_and_paused.
Proof. intros now w _ [p Hp]. discriminate. Qed.

Lemma preserves_set_current (session : FocusSession) :
  preserves (storage_update (with_currentSession (Some session))).
Proof. intros now w _ _. simpl. eauto. Qed.

Lemma preserves_clear_paused : preserves (storage_update (with_pausedSession None)).
Proof. intros now w _ [p Hp]. discriminate. Qed.

Create HintDb preserves.
#[local] Hint Resolve preserves_ret preserves_throw preserves_storage_get
  preserves_date_now preserves_alarms_clear preserves_alarms_create
  preserves_generateId preserves_notifications_create
  preserves_remove_current_and_paused preserves_set_current preserves_clear_paused
  : preserves.

(** One step through the structure of a computation. *)
Ltac preserves_step :=
  match goal with
  | |- preserves (bind _ _) => apply preserves_bind; [|intros ?]
  | |- preserves (match ?x with _ => _ end) => destruct x
  | |- preserves (storage_update _) =>
      first [ solve [auto with preserves]
            | apply preserves_update_frame; intros ?; split; reflexivity ]
  | |- preserves _ => solve [auto with preserves]
  end.
Ltac preserves_auto := repeat preserves_step.

Lemma preserves_getStats : preserves getStats.
Proof. unfold getStats. preserves_auto. Qed.

Lemma preserves_updateStats (u : PartialStats) : preserves (updateStats u).
Proof. unfold updateStats, getStats. preserves_auto. Qed.

Lemma preserves_getSettings : preserves getSettings.
Proof. unfold getSettings. preserves_auto. Qed.

Lemma preserves_getBlockedSites : preserves getBlockedSites.
Proof. unfold getBlockedSites. preserves_auto. Qed.

Lemma preserves_getWeeklySchedule : preserves getWeeklySchedule.
Proof. unfold getWeeklySchedule. preserves_auto. Qed.

Lemma preserves_saveFocusSession (session : FocusSession) :
  preserves (saveFocusSession session).
Proof. unfold saveFocusSession, getFocusSessions. preserves_auto. Qed.

Lemma preserves_getPomodoroState : preserves getPomodoroState.
Proof. unfold getPomodoroState. preserves_auto. Qed.

Lemma preserves_updatePomodoroState (u : PartialPomodoroState) :
  preserves (updatePomodoroState u).
Proof. unfold updatePomodoroState, getPomodoroState. preserves_auto. Qed.

Lemma preserves_getCurrentSession : preserves getCurrentSession.
Proof. unfold getCurrentSession. preserves_auto. Qed.

#[local] Hint Resolve preserves_getStats preserves_updateStats preserves_getSettings
  preserves_getBlockedSites preserves_getWeeklySchedule preserves_saveFocusSession
  preserves_getPomodoroState preserves_updatePomodoroState preserves_getCurrentSession
  : preserves.

Lemma preserves_startFocusSession (d : Z) (type : SessionType) :
  preserves (startFocusSession d type).
Proof. unfold startFocusSession. preserves_auto. Qed.

Lemma preserves_getTimeRemaining : preserves getTimeRemaining.
Proof. unfold getTimeRemaining. preserves_auto. Qed.

(** [pauseSession] writes the paused record only under a current session. *)
Lemma preserves_pauseSession : preserves pauseSession.
Proof.
  intros now w H. unfold pauseSession, bind, getCurrentSession, storage_get.
  destruct (currentSession (store w)) as [session|] eqn:Hcur; [|exact H].
  rewrite (getTimeRemaining_spec now w session Hcur).
  destruct (_ <=? 0); [exact H|].
  intros _. simpl. rewrite Hcur. eauto.
Qed.

Lemma preserves_resumeSession : preserves resumeSession.
Proof. unfold resumeSession. preserves_auto. Qed.

#[local] Hint Resolve preserves_startFocusSession preserves_getTimeRemaining
  preserves_pauseSession preserves_resumeSession : preserves.

Lemma preserves_handlePomodoroSessionEnd : preserves handlePomodoroSessionEnd.
Proof.
  unfold handlePomodoroSessionEnd.
  apply preserves_bind; [auto with preserves|]. intros p.
  destruct (negb (pomodoro_enabled p)); [auto with preserves|].
  destruct (isOnBreak p); [|destruct (rem_is_zero _ _)]; preserves_auto.
Qed.

Lemma preserves_startPomodoroMode (w b l : Z) : preserves (startPomodoroMode w b l).
Proof. unfold startPomodoroMode. preserves_auto. Qed.

#[local] Hint Resolve preserves_handlePomodoroSessionEnd preserves_startPomodoroMode
  : preserves.

Section InvariantFacts.
Context {host : Host}.

Lemma preserves_endFocusSession (sessionId : string) (completed : bool) :
  preserves (endFocusSession sessionId completed).
Proof. unfold endFocusSession. preserves_auto. Qed.

Hint Resolve preserves_endFocusSession : preserves.

Lemma preserves_stopPomodoroMode : preserves stopPomodoroMode.
Proof. unfold stopPomodoroMode. preserves_auto. Qed.

Lemma preserves_try_catch (c : M unit) : preserves c -> preserves (try_catch c).
Proof.
  intros Hc now w H. unfold try_catch. specialize (Hc now w H).
  destruct (c now w) as [[e|a] w']; exact Hc.
Qed.

Lemma preserves_onAlarm : preserves onAlarm.
Proof. unfold onAlarm. apply preserves_try_catch. preserves_auto. Qed.

Lemma preserves_onStartup : preserves onStartup.
Proof. unfold onStartup. apply preserves_try_catch. preserves_auto. Qed.

Hint Resolve preserves_stopPomodoroMode : preserves.

Lemma preserves_handleMessage (msg : Message) : preserves (handleMessage msg).
Proof. destruct msg; unfold handleMessage; preserves_auto. Qed.

Lemma preserves_isUrlBlocked (url : string) : preserves (isUrlBlocked url).
Proof. unfold isUrlBlocked. preserves_auto. Qed.

Lemma preserves_incrementBlockCount (url : string) :
  preserves (incrementBlockCount url).
Proof. unfold incrementBlockCount. preserves_auto. Qed.

Hint Resolve preserves_isUrlBlocked preserves_incrementBlockCount : preserves.

Lemma preserves_onBeforeNavigate (url : string) : preserves (onBeforeNavigate url).
Proof. unfold onBeforeNavigate. preserves_auto. Qed.

Lemma run_entry_invariant (e : EntryPoint) (now : Z) (w : World) :
  paused_implies_current w -> paused_implies_current (run_entry e now w).
Proof.
  intros H. destruct e; unfold run_entry, exec.
  - now apply preserves_startFocusSession.
  - now apply preserves_endFocusSession.
  - now apply preserves_pauseSession.
  - now apply preserves_resumeSession.
  - unfold onMessage. pose proof (preserves_handleMessage msg now w H) as Hm.
    destruct (handleMessage msg now w) as [[err|r] w']; exact Hm.
  - now apply preserves_onAlarm.
  - now apply preserves_onStartup.
  - now apply preserves_onBeforeNavigate.
Qed.

Lemma run_trace_invariant (trace : list (EntryPoint * Z)) (w : World) :
  paused_implies_current w -> paused_implies_current (run_trace trace w).
Proof.
  revert w. induction trace as [|[e now] trace IH]; intros w H; simpl.
  - exact H.
  - apply IH. now apply run_entry_invariant.
Qed.

End InvariantFacts.

Section SessionOperations.
Context {host : Host}.

Lemma endFocusSession_clears (sessionId : string) (completed : bool)
      (now : Z) (w w' : World) :
  endFocusSession sessionId completed now w = (inr tt, w') ->
  currentSession (store w') = None /\ pausedSession (store w') = None.
Proof.
  unfold endFocusSession. unfold_m.
  destruct (currentSession (store w)) as [session|]; [|discriminate].
  destruct (negb _); [discriminate|].
  destruct completed; simpl; intros [= <-]; split; reflexivity.
Qed.

Lemma resumeSession_clears (now : Z) (w w' : World) :
  resumeSession now w = (inr tt, w') ->
  pausedSession (store w') = None /\ is_Some (currentSession (store w')).
Proof.
  unfold_m.
  destruct (currentSession (store w)) as [session|]; [|discriminate].
  destruct (pausedSession (store w)) as [paused|]; [|discriminate].
  simpl. intros [= <-]. simpl. eauto.
Qed.

Lemma pauseSession_under_current (now : Z) (w w' : World) :
  pauseSession now w = (inr tt, w') ->
  is_Some (currentSession (store w))
  /\ currentSession (store w') = currentSession (store w)
  /\ is_Some (pausedSession (store w')).
Proof.
  unfold pauseSession, bind, getCurrentSession, storage_get.
  destruct (currentSession (store w)) as [session|] eqn:Hcur; [|discriminate].
  rewrite (getTimeRemaining_spec now w session Hcur).
  destruct (_ <=? 0); [discriminate|].
  simpl. intros [= <-]. simpl. rewrite Hcur. eauto.
Qed.

Lemma startFocusSession_no_paused (d : Z) (type : SessionType) (now : Z) (w : World) :
  paused_implies_current w ->
  pausedSession (store (exec (startFocusSession d type) now w)) = None
  /\ is_Some (currentSession (store (exec (startFocusSession d type) now w))).
Proof.
  intros H. unfold exec.
  destruct (startFocusSession_current d type now w)
    as (session & w' & -> & _ & Hcur & Hsome & Hnone).
  simpl. split; [|rewrite Hcur; eauto].
  destruct (currentSession (store w)) as [old|] eqn:Hold.
  - apply Hsome. eauto.
  - rewrite Hnone by reflexivity.
    destruct (pausedSession (store w)) as [paused|] eqn:Hp; [|reflexivity].
    unfold paused_implies_current in H. rewrite Hp, Hold in H.
    destruct H as [? [=]]. eauto.
Qed.

(** C10.  Every entry point keeps the invariant that a paused-session
    record exists only while a current-session record exists.  Under the
    invariant, [start] leaves no paused record beside the session it
    creates; a successful [end] removes the current-session and the
    paused-session record together; a successful [resume] removes the
    paused record; [pause] writes a paused record only when a session is
    current, and leaves that session in place.  So in every state reached
    from an idle one the invariant holds, and whenever no session is
    current no paused record is there. *)
Theorem paused_only_while_current :
  (forall (e : EntryPoint) (now : Z) (w : World),
      paused_implies_current w -> paused_implies_current (run_entry e now w))
  /\ (forall (d : Z) (type : SessionType) (now : Z) (w : World),
         paused_implies_current w ->
         pausedSession (store (exec (startFocusSession d type) now w)) = None
         /\ is_Some (currentSession (store (exec (startFocusSession d type) now w))))
  /\ (forall (sessionId : string) (completed : bool) (now : Z) (w w' : World),
         endFocusSession sessionId completed now w = (inr tt, w') ->
         currentSession (store w') = None /\ pausedSession (store w') = None)
  /\ (forall (now : Z) (w w' : World),
         resumeSession now w = (inr tt, w') ->
         pausedSession (store w') = None /\ is_Some (currentSession (store w')))
  /\ (forall (now : Z) (w w' : World),
         pauseSession now w = (inr tt, w') ->
         is_Some (currentSession (store w))
         /\ currentSession (store w') = currentSession (store w)
         /\ is_Some (pausedSession (store w')))
  /\ (forall (trace : list (EntryPoint * Z)) (w : World),
         idle w ->
         paused_implies_current (run_trace trace w)
         /\ (currentSession (store (run_trace trace w)) = None ->
             pausedSession (store (run_trace trace w)) = None)).
Proof.
  split; [exact run_entry_invariant|].
  split; [exact startFocusSession_no_paused|].
  split; [exact endFocusSession_clears|].
  split; [exact resumeSession_clears|].
  split; [exact pauseSession_under_current|].
  intros trace w [Hcur Hp].
  assert (Hinv : paused_implies_current (run_trace trace w)).
  { apply run_trace_invariant. intros [p Hsome]. congruence. }
  split; [exact Hinv|].
  intros Hnone. destruct (pausedSession (store (run_trace trace w))) eqn:Hpaused;
    [|reflexivity].
  unfold paused_implies_current in Hinv. rewrite Hpaused, Hnone in Hinv.
  destruct Hinv as [? [=]]. eauto.
Qed.

End SessionOperations.

(** A session that is started, paused and then ended leaves neither record
    behind; while it is paused both records are there. *)
Lemma paused_only_while_current_witness :
  let trace := [(CallStart 25 Focus, 0); (CallPause, minutes 1);
                (CallEnd "s0" true, minutes 2)] in
  idle fresh_world
  /\ paused_implies_current (@run_trace utc_host trace fresh_world)
  /\ (currentSession (store (@run_trace utc_host trace fresh_world)) = None ->
      pausedSession (store (@run_trace utc_host trace fresh_world)) = None)
  /\ idle (@run_trace utc_host trace fresh_world)
  /\ is_Some (pausedSession
                (store (@run_trace utc_host [(CallStart 25 Focus, 0); (CallPause, minutes 1)]
                                   fresh_world))).
Proof.
  intros trace.
  assert (Hidle : idle fresh_world) by (split; reflexivity).
  destruct (@paused_only_while_current utc_host) as (_ & _ & _ & _ & _ & Htrace).
  destruct (Htrace trace fresh_world Hidle) as [Hinv Hnone].
  split; [exact Hidle|]. split; [exact Hinv|]. split; [exact Hnone|].
  split; [split; reflexivity | eexists; reflexivity].
Defined.

(** * Further properties *)

(** ** The wall-clock timer *)

Lemma round_div_mono (a a' b : Z) : 0 < b -> a <= a' -> round_div a b <= round_div a' b.
Proof. intros Hb Ha. unfold round_div. apply Z.div_le_mono; lia. Qed.

Lemma round_div_exact (q b : Z) : 0 < b -> round_div (q * b) b = q.
Proof.
  intros Hb. unfold round_div.
  replace (2 * (q * b) + b) with (b + q * (2 * b)) by lia.
  rewrite Z.div_add by lia. rewrite Z.div_small by lia. lia.
Qed.

(** X1. The remaining time read off the clock is never negative and never
    grows as time passes; from the start of the session on it is at most the
    full duration, which it equals at the start, and it is 0 from the
    scheduled end on. *)
Theorem remaining_by_clock_bounds (session : FocusSession) :
  (forall now, 0 <= remaining_by_clock session now)
  /\ (forall now now', now <= now' ->
        remaining_by_clock session now' <= remaining_by_clock session now)
  /\ (0 <= session_duration session ->
      remaining_by_clock session (session_startTime session)
      = session_duration session * 60
      /\ (forall now, session_startTime session <= now ->
            remaining_by_clock session now <= session_duration session * 60))
  /\ (forall now,
        session_startTime session + session_duration session * 60 * 1000 <= now ->
        remaining_by_clock session now = 0).
Proof.
  unfold remaining_by_clock. split; [intros; lia|]. split; [|split].
  - intros now now' Hle. apply Z.max_le_compat_l, round_div_mono; lia.
  - intros Hd.
    assert (Hstart : round_div (session_duration session * 60 * 1000
                                - (session_startTime session - session_startTime session))
                               1000 = session_duration session * 60).
    { replace (session_duration session * 60 * 1000
               - (session_startTime session - session_startTime session))
        with (session_duration session * 60 * 1000) by lia.
      apply round_div_exact. lia. }
    split; [rewrite Hstart; lia|].
    intros now Hnow. apply Z.max_lub; [lia|].
    rewrite <- Hstart. apply round_div_mono; lia.
  - intros now Hend. apply Z.max_l.
    transitivity (round_div 0 1000); [apply round_div_mono; lia | reflexivity].
Qed.

Lemma remaining_by_clock_bounds_witness :
  let session := mkFocusSession "s0" 1000 None 25 false Focus in
  (1000 <= 61000 /\ 0 <= session_duration session)
  /\ remaining_by_clock session 61000 <= remaining_by_clock session 1000
  /\ remaining_by_clock session 1000 = 1500
  /\ remaining_by_clock session (1000 + minutes 25) = 0.
Proof.
  intros session.
  destruct (remaining_by_clock_bounds session) as (_ & Hmono & Hfull & Hend).
  split; [split; [lia | simpl; lia]|].
  split; [apply Hmono; lia|].
  split; [apply (Hfull ltac:(simpl; lia)) | apply Hend; simpl; unfold minutes; lia].
Defined.

(** ** Pause and resume *)

Section PauseResumeFacts.
Context {host : Host}.

(** X2. A running session with time left is paused at [t1] and resumed at
    [t2].  Both calls succeed; while paused the remaining time is the value
    frozen at [t1], whatever the clock says; after the resume the timer runs
    on from that value: at every later instant it shows what the unpaused
    session would have shown [t2 - t1] earlier, the wake-up is set to the
    frozen number of seconds after [t2], and the paused record is gone. *)
Theorem pause_resume_round_trip (t1 t2 : Z) (w : World) (session : FocusSession) :
  currentSession (store w) = Some session ->
  pausedSession (store w) = None ->
  0 < remaining_by_clock session t1 ->
  exists w1 w2,
    pauseSession t1 w = (inr tt, w1)
    /\ alarm w1 = None
    /\ (forall t, getTimeRemaining t w1 = (inr (remaining_by_clock session t1), w1))
    /\ resumeSession t2 w1 = (inr tt, w2)
    /\ pausedSession (store w2) = None
    /\ alarm w2 = Some (t2 + remaining_by_clock session t1 * 1000)
    /\ (forall t, getTimeRemaining t w2
                  = (inr (remaining_by_clock session (t - (t2 - t1))), w2))
    /\ getTimeRemaining t2 w2 = (inr (remaining_by_clock session t1), w2).
Proof.
  intros Hcur Hp Hleft.
  assert (Hpause : pauseSession t1 w
          = (inr tt,
             with_store (with_pausedSession
                           (Some (mkPausedSession t1 (remaining_by_clock session t1))))
                        (with_alarm None w))).
  { unfold pauseSession, bind, getCurrentSession, storage_get. rewrite Hcur.
    rewrite (getTimeRemaining_spec t1 w session Hcur), Hp.
    fold (remaining_by_clock session t1).
    destruct (Z.leb_spec (remaining_by_clock session t1) 0); [lia|]. reflexivity. }
  eexists. eexists. split; [exact Hpause|].
  split; [reflexivity|]. split.
  { intros t. unfold_m. simpl. now rewrite Hcur. }
  split.
  { unfold_m. simpl. rewrite Hcur. simpl. reflexivity. }
  split; [reflexivity|]. split; [reflexivity|].
  assert (Hafter : forall t,
    getTimeRemaining t
      (with_store (with_pausedSession None)
         (with_store
            (with_currentSession
               (Some (mkFocusSession (session_id session)
                        (session_startTime session + (t2 - t1))
                        (session_endTime session) (session_duration session)
                        (session_completed session) (session_type session))))
            (with_alarm (Some (t2 + remaining_by_clock session t1 * 1000))
               (with_store (with_pausedSession
                              (Some (mkPausedSession t1 (remaining_by_clock session t1))))
                           (with_alarm None w)))))
    = (inr (remaining_by_clock session (t - (t2 - t1))),
       with_store (with_pausedSession None)
         (with_store
            (with_currentSession
               (Some (mkFocusSession (session_id session)
                        (session_startTime session + (t2 - t1))
                        (session_endTime session) (session_duration session)
                        (session_completed session) (session_type session))))
            (with_alarm (Some (t2 + remaining_by_clock session t1 * 1000))
               (with_store (with_pausedSession
                              (Some (mkPausedSession t1 (remaining_by_clock session t1))))
                           (with_alarm None w)))))).
  { intros t. unfold_m. simpl. unfold remaining_by_clock. simpl.
    replace (t - (session_startTime session + (t2 - t1)))
      with (t - (t2 - t1) - session_startTime session) by lia.
    reflexivity. }
  split; [exact Hafter|].
  rewrite Hafter. replace (t2 - (t2 - t1)) with t1 by lia. reflexivity.
Qed.

(** X3. [pause] and [resume] refuse what they cannot do, and a refused call
    changes nothing: [pause] without a current session, [pause] of a session
    whose remaining time is 0, [resume] without a current session, and
    [resume] of a session that is not paused. *)
Theorem pause_resume_refusals (now : Z) (w : World) :
  (currentSession (store w) = None ->
   pauseSession now w = (inl NoActiveSession, w)
   /\ resumeSession now w = (inl NoSessionToResume, w))
  /\ (forall session,
         currentSession (store w) = Some session ->
         pausedSession (store w) = None ->
         remaining_by_clock session now = 0 ->
         pauseSession now w = (inl SessionAlreadyEnded, w))
  /\ (forall session,
         currentSession (store w) = Some session ->
         pausedSession (store w) = None ->
         resumeSession now w = (inl NotPaused, w)).
Proof.
  split; [|split].
  - intros Hcur. unfold_m. now rewrite Hcur.
  - intros session Hcur Hp Hzero.
    unfold pauseSession, bind, getCurrentSession, storage_get. rewrite Hcur.
    rewrite (getTimeRemaining_spec now w session Hcur), Hp.
    fold (remaining_by_clock session now). now rewrite Hzero.
  - intros session Hcur Hp. unfold_m. now rewrite Hcur, Hp.
Qed.

End PauseResumeFacts.

Lemma pause_resume_round_trip_witness :
  let w := exec (startFocusSession 25 Focus) 0 fresh_world in
  let session := mkFocusSession "s0" 0 None 25 false Focus in
  (currentSession (store w) = Some session
   /\ pausedSession (store w) = None
   /\ 0 < remaining_by_clock session (minutes 1))
  /\ exists w1 w2,
      pauseSession (minutes 1) w = (inr tt, w1)
      /\ alarm w1 = None
      /\ (forall t, getTimeRemaining t w1 = (inr (remaining_by_clock session (minutes 1)), w1))
      /\ resumeSession (minutes 10) w1 = (inr tt, w2)
      /\ pausedSession (store w2) = None
      /\ alarm w2 = Some (minutes 10 + remaining_by_clock session (minutes 1) * 1000)
      /\ (forall t, getTimeRemaining t w2
                    = (inr (remaining_by_clock session (t - (minutes 10 - minutes 1))), w2))
      /\ getTimeRemaining (minutes 10) w2 = (inr (remaining_by_clock session (minutes 1)), w2).
Proof.
  intros w session.
  assert (H1 : currentSession (store w) = Some session) by reflexivity.
  assert (H2 : pausedSession (store w) = None) by reflexivity.
  assert (H3 : 0 < remaining_by_clock session (minutes 1)) by (vm_compute; reflexivity).
  split; [auto|].
  exact (pause_resume_round_trip (minutes 1) (minutes 10) w session H1 H2 H3).
Defined.

Lemma pause_resume_refusals_witness :
  (currentSession (store fresh_world) = None
   /\ pauseSession 0 fresh_world = (inl NoActiveSession, fresh_world)
   /\ resumeSession 0 fresh_world = (inl NoSessionToResume, fresh_world))
  /\ (let w := exec (startFocusSession 25 Focus) 0 fresh_world in
      resumeSession (minutes 1) w = (inl NotPaused, w)
      /\ pauseSession (minutes 25) w = (inl SessionAlreadyEnded, w)).
Proof.
  split.
  - destruct (pause_resume_refusals 0 fresh_world) as (Hidle & _ & _).
    split; [reflexivity | apply Hidle; reflexivity].
  - intros w. split.
    + destruct (pause_resume_refusals (minutes 1) w) as (_ & _ & Hnot).
      eapply Hnot; reflexivity.
    + destruct (pause_resume_refusals (minutes 25) w) as (_ & Hended & _).
      eapply Hended; reflexivity.
Defined.

(** ** Properties kept by a computation *)

Lemma keeps_ret {A} (P : World -> Prop) (a : A) : keeps P (ret a).
Proof. intros now w H. exact H. Qed.

Lemma keeps_throw {A} (P : World -> Prop) (e : Error) : keeps P (@throw A e).
Proof. intros now w H. exact H. Qed.

Lemma keeps_bind {A B} (P : World -> Prop) (c : M A) (k : A -> M B) :
  keeps P c -> (forall a, keeps P (k a)) -> keeps P (bind c k).
Proof.
  intros Hc Hk now w H. unfold bind.
  specialize (Hc now w H). destruct (c now w) as [[e|a] w']; simpl in *.
  - exact Hc.
  - now apply Hk.
Qed.

Lemma keeps_try_catch `{host : Host} (P : World -> Prop) (c : M unit) :
  keeps P c -> keeps P (try_catch c).
Proof.
  intros Hc now w H. unfold try_catch. specialize (Hc now w H).
  destruct (c now w) as [[e|a] w']; exact Hc.
Qed.

Create HintDb keeps.

(** One step through a computation; a leaf is closed by a lemma of the
    database, or because what it writes is not read by the property. *)
Ltac keeps_step :=
  match goal with
  | |- keeps _ (bind _ _) => apply keeps_bind; [|intros ?]
  | |- keeps _ (try_catch _) => apply keeps_try_catch
  | |- keeps _ (match ?x with _ => _ end) => destruct x
  | |- keeps _ _ =>
      solve [ auto with keeps | let H := fresh in intros ? ? H; exact H ]
  end.
Ltac keeps_auto := repeat keeps_step.

(** The history after [saveFocusSession]. *)
Lemma saveFocusSession_saved (session : FocusSession) (now : Z) (w : World) :
  saveFocusSession session now w
  = (inr tt, with_store (with_focusSessions (Some (saved session (history_of w)))) w).
Proof. reflexivity. Qed.

Lemma findIndex_Some {A} (pred : A -> bool) (l : list A) (i : nat) :
  findIndex pred l = Some i ->
  exists x, l !! i = Some x /\ pred x = true
            /\ forall j y, (j < i)%nat -> l !! j = Some y -> pred y = false.
Proof.
  revert i. induction l as [|a l IH]; intros i; simpl; [discriminate|].
  destruct (pred a) eqn:Ha.
  - intros [= <-]. exists a. repeat split; [exact Ha|]. intros j y Hj. lia.
  - destruct (findIndex pred l) as [k|]; [|discriminate]. simpl.
    intros [= <-]. destruct (IH k eq_refl) as (x & Hx & Hpx & Hbefore).
    exists x. repeat split; [exact Hx | exact Hpx |].
    intros [|j] y Hj Hy; simpl in Hy.
    + congruence.
    + apply (Hbefore j y); [lia | exact Hy].
Qed.

Lemma findIndex_None {A} (pred : A -> bool) (l : list A) :
  findIndex pred l = None -> Forall (fun x => pred x = false) l.
Proof.
  induction l as [|a l IH]; simpl; [constructor|].
  destruct (pred a) eqn:Ha; [discriminate|].
  destruct (findIndex pred l); [discriminate|]. intros _. constructor; auto.
Qed.

Lemma saved_length (session : FocusSession) (sessions : list FocusSession) :
  length (saved session sessions)
  = match findIndex (fun s => String.eqb (session_id s) (session_id session)) sessions with
    | Some _ => length sessions
    | None => S (length sessions)
    end.
Proof.
  unfold saved. destruct (findIndex _ sessions).
  - apply length_insert.
  - rewrite length_app. simpl. lia.
Qed.

(** The saved session is in the history afterwards. *)
Lemma saved_contains (session : FocusSession) (sessions : list FocusSession) :
  session ∈ saved session sessions.
Proof.
  unfold saved. destruct (findIndex _ sessions) as [i|] eqn:Hi.
  - apply findIndex_Some in Hi as (x & Hx & _).
    apply list_elem_of_lookup. exists i. apply list_lookup_insert_eq.
    now apply lookup_lt_Some in Hx.
  - apply elem_of_app. right. apply list_elem_of_here.
Qed.

(** Saving a session removes no identifier from the history. *)
Lemma saved_keeps_ids (session entry : FocusSession) (sessions : list FocusSession) :
  entry ∈ sessions ->
  exists entry', entry' ∈ saved session sessions /\ session_id entry' = session_id entry.
Proof.
  intros Hin. unfold saved. destruct (findIndex _ sessions) as [i|] eqn:Hi.
  - apply findIndex_Some in Hi as (x & Hx & Hid & _). apply String.eqb_eq in Hid.
    apply list_elem_of_lookup in Hin as (j & Hj).
    destruct (decide (i = j)) as [->|Hne].
    + exists session. split.
      * apply list_elem_of_lookup. exists j. apply list_lookup_insert_eq.
        now apply lookup_lt_Some in Hj.
      * congruence.
    + exists entry. split; [|reflexivity].
      apply list_elem_of_lookup. exists j. now rewrite list_lookup_insert_ne.
  - exists entry. split; [|reflexivity]. apply elem_of_app. now left.
Qed.

(** What [startFocusSession] leaves behind. *)
Lemma startFocusSession_world (d : Z) (type : SessionType) (now : Z) (w : World) :
  let session := mkFocusSession (idgen w (issued w)) now None d false type in
  exists w',
    startFocusSession d type now w = (inr session, w')
    /\ currentSession (store w') = Some session
    /\ pausedSession (store w')
       = match currentSession (store w) with
         | Some _ => None
         | None => pausedSession (store w)
         end
    /\ alarm w' = Some (now + d * 60 * 1000)
    /\ history_of w' = saved session (history_of w)
    /\ stats (store w') = stats (store w)
    /\ blockedSites (store w') = blockedSites (store w)
    /\ pomodoroState (store w') = pomodoroState (store w).
Proof.
  intros session. unfold_m.
  destruct (currentSession (store w)); simpl; eexists; (split; [reflexivity|]);
    simpl; repeat split.
Qed.

Section EndWorld.
Context {host : Host}.

(** What [endFocusSession] leaves behind: nothing changes when it throws,
    and otherwise the session it ended matched the identifier, the session
    records and the wake-up are gone, and the ended session is saved. *)
Lemma endFocusSession_world (sessionId : string) (completed : bool) (now : Z) (w : World) :
  endFocusSession sessionId completed now w = (inl SessionNotFound, w)
  \/ exists session w',
      currentSession (store w) = Some session
      /\ session_id session = sessionId
      /\ endFocusSession sessionId completed now w = (inr tt, w')
      /\ currentSession (store w') = None
      /\ pausedSession (store w') = None
      /\ alarm w' = None
      /\ history_of w'
         = saved (mkFocusSession (session_id session) (session_startTime session)
                                 (Some now) (session_duration session) completed
                                 (session_type session))
                 (history_of w)
      /\ stats_of w' = (if completed then stats_after session now (stats_of w)
                        else stats_of w)
      /\ blockedSites (store w') = blockedSites (store w)
      /\ pomodoroState (store w') = pomodoroState (store w).
Proof.
  unfold endFocusSession. unfold_m.
  destruct (currentSession (store w)) as [session|] eqn:Hcur; [|now left].
  destruct (String.eqb_spec (session_id session) sessionId) as [Hid|Hid]; [|now left].
  right. exists session. destruct completed; simpl;
    (eexists; split; [reflexivity|]); (split; [exact Hid|]);
    (split; [reflexivity|]); simpl; repeat split.
Qed.

End EndWorld.

(** ** No stale wake-up *)

Lemma keeps_records_startFocusSession (d : Z) (type : SessionType) :
  keeps session_records_consistent (startFocusSession d type).
Proof.
  intros now w [Hp Ha].
  destruct (startFocusSession_world d type now w)
    as (w' & -> & Hcur & Hpaused & Halarm & _).
  simpl. assert (Hnone : pausedSession (store w') = None).
  { rewrite Hpaused. destruct (currentSession (store w)) eqn:Hc; [reflexivity|].
    destruct (pausedSession (store w)) eqn:Hq; [|reflexivity].
    unfold paused_implies_current in Hp. rewrite Hq, Hc in Hp.
    destruct Hp as [? [=]]. eauto. }
  split.
  - intros _. rewrite Hcur. eauto.
  - intros _. rewrite Hcur. split; [eauto | exact Hnone].
Qed.

Lemma keeps_records_pauseSession : keeps session_records_consistent pauseSession.
Proof.
  intros now w H. unfold pauseSession, bind, getCurrentSession, storage_get.
  destruct (currentSession (store w)) as [session|] eqn:Hcur; [|exact H].
  rewrite (getTimeRemaining_spec now w session Hcur).
  destruct (_ <=? 0); [exact H|]. simpl. split.
  - intros _. simpl. rewrite Hcur. eauto.
  - intros [a Ha]. discriminate.
Qed.

Lemma keeps_records_resumeSession : keeps session_records_consistent resumeSession.
Proof.
  intros now w H. unfold_m.
  destruct (currentSession (store w)) as [session|]; [|exact H].
  destruct (pausedSession (store w)) as [paused|]; [|exact H].
  simpl. split.
  - intros [p Hp]. discriminate.
  - intros _. simpl. eauto.
Qed.

#[local] Hint Resolve keeps_records_startFocusSession keeps_records_pauseSession
  keeps_records_resumeSession : keeps.

Lemma keeps_records_handlePomodoroSessionEnd :
  keeps session_records_consistent handlePomodoroSessionEnd.
Proof. unfold handlePomodoroSessionEnd. keeps_auto. Qed.

Lemma keeps_records_startPomodoroMode (work brk long : Z) :
  keeps session_records_consistent (startPomodoroMode work brk long).
Proof. unfold startPomodoroMode. keeps_auto. Qed.

#[local] Hint Resolve keeps_records_handlePomodoroSessionEnd
  keeps_records_startPomodoroMode : keeps.

Section StaleAlarmFacts.
Context {host : Host}.

Lemma keeps_records_endFocusSession (sessionId : string) (completed : bool) :
  keeps session_records_consistent (endFocusSession sessionId completed).
Proof.
  intros now w H.
  destruct (endFocusSession_world sessionId completed now w)
    as [-> | (session & w' & _ & _ & -> & Hcur & Hp & Ha & _)]; [exact H|].
  simpl. split.
  - intros [p Hsome]. congruence.
  - intros [a Hsome]. congruence.
Qed.

Hint Resolve keeps_records_endFocusSession : keeps.

Lemma keeps_records_handleMessage (msg : Message) :
  keeps session_records_consistent (handleMessage msg).
Proof. destruct msg; unfold handleMessage, stopPomodoroMode; keeps_auto. Qed.

Lemma keeps_records_run_entry (e : EntryPoint) (now : Z) (w : World) :
  session_records_consistent w -> session_records_consistent (run_entry e now w).
Proof.
  intros H. destruct e; unfold run_entry, exec.
  - now apply keeps_records_startFocusSession.
  - now apply keeps_records_endFocusSession.
  - now apply keeps_records_pauseSession.
  - now apply keeps_records_resumeSession.
  - unfold onMessage. pose proof (keeps_records_handleMessage msg now w H) as Hm.
    destruct (handleMessage msg now w) as [[err|r] w']; exact Hm.
  - revert now w H. change (keeps session_records_consistent onAlarm).
    unfold onAlarm. keeps_auto.
  - revert now w H. change (keeps session_records_consistent onStartup).
    unfold onStartup. keeps_auto.
  - revert now w H. change (keeps session_records_consistent (onBeforeNavigate url)).
    unfold onBeforeNavigate, isUrlBlocked, incrementBlockCount. keeps_auto.
Qed.

Lemma keeps_records_run_event (ev : Event) (now : Z) (w : World) :
  ev <> ResetAllData ->
  session_records_consistent w -> session_records_consistent (run_event ev now w).
Proof.
  intros Hev H. destruct ev as [e|msg|url|slotId|]; unfold run_event, exec.
  - now apply keeps_records_run_entry.
  - revert now w H. change (keeps session_records_consistent (handleSettingsMessage msg)).
    destruct msg; unfold handleSettingsMessage; keeps_auto.
  - exact H.
  - revert now w H. change (keeps session_records_consistent (toggleScheduleSlot slotId)).
    unfold toggleScheduleSlot. keeps_auto.
  - congruence.
Qed.

Lemma run_events_keeps (P : World -> Prop) :
  (forall ev now w, P w -> P (run_event ev now w)) ->
  forall events w, P w -> P (run_events events w).
Proof.
  intros Hstep events. induction events as [|[ev now] events IH]; intros w H; simpl.
  - exact H.
  - apply IH, Hstep, H.
Qed.

Lemma run_events_keeps_without_reset (P : World -> Prop) :
  (forall ev now w, ev <> ResetAllData -> P w -> P (run_event ev now w)) ->
  forall events w, without_reset events -> P w -> P (run_events events w).
Proof.
  intros Hstep events.
  induction events as [|[ev now] events IH]; intros w Hno H; simpl.
  - exact H.
  - apply Forall_cons in Hno as [Hev Hno].
    apply IH; [exact Hno|]. apply Hstep; [exact Hev | exact H].
Qed.

Lemma resetAllData_world (now : Z) (w : World) :
  store (run_event ResetAllData now w) = empty_store
  /\ alarm (run_event ResetAllData now w) = alarm w.
Proof. split; reflexivity. Qed.

(** X4. No stale wake-up, short of a reset.  Every event other than the
    options page's Reset All Data keeps the session records consistent: a
    paused record only beside a current session, and a pending wake-up only
    for a current session that is not paused.  So in every state reached
    from an idle one without a wake-up by events other than Reset All Data,
    an alarm is pending only while a session is running, and never while it
    is paused or after it has ended.  Reset All Data is the exception: it
    removes the session records and leaves the alarm as it is, so a reset
    while a session runs leaves a wake-up pending with no session. *)
Theorem no_stale_alarm :
  (forall (ev : Event) (now : Z) (w : World),
      ev <> ResetAllData ->
      session_records_consistent w -> session_records_consistent (run_event ev now w))
  /\ (forall (events : list (Event * Z)) (w : World),
         without_reset events ->
         idle w -> alarm w = None ->
         let w' := run_events events w in
         (is_Some (alarm w') ->
          is_Some (currentSession (store w')) /\ pausedSession (store w') = None)
         /\ (currentSession (store w') = None -> alarm w' = None)
         /\ (is_Some (pausedSession (store w')) -> alarm w' = None))
  /\ (forall (now : Z) (w : World),
         let w' := run_event ResetAllData now w in
         alarm w' = alarm w
         /\ currentSession (store w') = None
         /\ pausedSession (store w') = None).
Proof.
  split; [exact keeps_records_run_event|]. split.
  - intros events w Hno [Hcur Hp] Ha.
    assert (Hinv : session_records_consistent (run_events events w)).
    { apply run_events_keeps_without_reset;
        [exact keeps_records_run_event | exact Hno |].
      split; intros [x Hx]; congruence. }
    destruct Hinv as [_ Halarm]. simpl. split; [exact Halarm|]. split.
    + intros Hnone. destruct (alarm (run_events events w)) eqn:Hal; [|reflexivity].
      destruct Halarm as [[s Hs] _]; [eauto | congruence].
    + intros [p Hpaused]. destruct (alarm (run_events events w)) eqn:Hal; [|reflexivity].
      destruct Halarm as [_ Hn]; [eauto | congruence].
  - intros now w. simpl. repeat split.
Qed.

End StaleAlarmFacts.

Lemma no_stale_alarm_witness :
  let events := [(Core (CallStart 25 Focus), 0); (Core CallPause, minutes 1);
                 (Command MsgToggleBlocking, minutes 2)] in
  (without_reset events /\ idle fresh_world /\ alarm fresh_world = None)
  /\ (let w' := @run_events utc_host events fresh_world in
      (is_Some (alarm w') ->
       is_Some (currentSession (store w')) /\ pausedSession (store w') = None)
      /\ (currentSession (store w') = None -> alarm w' = None)
      /\ (is_Some (pausedSession (store w')) -> alarm w' = None))
  /\ is_Some (pausedSession (store (@run_events utc_host events fresh_world)))
  /\ alarm (@run_events utc_host events fresh_world) = None
  /\ (let stale := @run_events utc_host
                      [(Core (CallStart 25 Focus), 0); (ResetAllData, minutes 1)]
                      fresh_world in
      alarm stale = Some (minutes 25) /\ currentSession (store stale) = None).
Proof.
  intros events.
  assert (Hidle : idle fresh_world) by (split; reflexivity).
  assert (Hno : without_reset events) by (repeat constructor; discriminate).
  destruct (@no_stale_alarm utc_host) as (_ & Hrun & _).
  split; [split; [exact Hno | split; [exact Hidle | reflexivity]]|].
  split; [exact (Hrun events fresh_world Hno Hidle eq_refl)|].
  split; [eexists; reflexivity|]. split; [reflexivity|]. split; reflexivity.
Defined.

(** ** The history of sessions *)

Lemma saved_fresh (session : FocusSession) (sessions : list FocusSession) :
  Forall (fun s => session_id s <> session_id session) sessions ->
  saved session sessions = (sessions ++ [session])%list.
Proof.
  intros Hfresh. unfold saved.
  destruct (findIndex _ sessions) as [i|] eqn:Hi; [|reflexivity].
  apply findIndex_Some in Hi as (x & Hx & Hid & _). apply String.eqb_eq in Hid.
  rewrite Forall_forall in Hfresh. exfalso.
  apply (Hfresh x); [|exact Hid]. apply list_elem_of_lookup. eauto.
Qed.

Lemma findIndex_app_last {A} (pred : A -> bool) (l : list A) (x : A) :
  Forall (fun y => pred y = false) l -> pred x = true ->
  findIndex pred (l ++ [x]) = Some (length l).
Proof.
  intros Hl Hx. induction Hl as [|y l Hy _ IH]; simpl.
  - now rewrite Hx.
  - rewrite Hy, IH. reflexivity.
Qed.

Lemma saved_last (session session' : FocusSession) (sessions : list FocusSession) :
  Forall (fun s => session_id s <> session_id session) sessions ->
  session_id session' = session_id session ->
  saved session' (sessions ++ [session]) = (sessions ++ [session'])%list.
Proof.
  intros Hfresh Hid. unfold saved.
  rewrite (findIndex_app_last _ sessions session).
  - rewrite insert_app_r_alt by lia. rewrite Nat.sub_diag. reflexivity.
  - eapply Forall_impl; [exact Hfresh|]. intros s Hs. simpl in *.
    apply String.eqb_neq. congruence.
  - apply String.eqb_eq. congruence.
Qed.

Lemma history_retains_refl (w : World) : history_retains (history_of w) w.
Proof. split; [eauto | lia]. Qed.

Lemma keeps_history_saveFocusSession (old : list FocusSession) (session : FocusSession) :
  keeps (history_retains old) (saveFocusSession session).
Proof.
  intros now w [Hids Hlen]. rewrite saveFocusSession_saved. simpl.
  unfold history_retains, history_of. simpl. fold (history_of w). split.
  - intros entry Hin. destruct (Hids entry Hin) as (e1 & Hin1 & Hid1).
    destruct (saved_keeps_ids session e1 (history_of w) Hin1) as (e2 & Hin2 & Hid2).
    exists e2. split; [exact Hin2 | congruence].
  - rewrite saved_length. destruct (findIndex _ _); lia.
Qed.

#[local] Hint Resolve keeps_history_saveFocusSession : keeps.

Lemma keeps_history_startFocusSession (old : list FocusSession) (d : Z)
      (type : SessionType) :
  keeps (history_retains old) (startFocusSession d type).
Proof. unfold startFocusSession. keeps_auto. Qed.

Lemma keeps_history_pauseSession (old : list FocusSession) :
  keeps (history_retains old) pauseSession.
Proof. unfold pauseSession, getTimeRemaining. keeps_auto. Qed.

Lemma keeps_history_resumeSession (old : list FocusSession) :
  keeps (history_retains old) resumeSession.
Proof. unfold resumeSession. keeps_auto. Qed.

#[local] Hint Resolve keeps_history_startFocusSession keeps_history_pauseSession
  keeps_history_resumeSession : keeps.

Lemma keeps_history_handlePomodoroSessionEnd (old : list FocusSession) :
  keeps (history_retains old) handlePomodoroSessionEnd.
Proof. unfold handlePomodoroSessionEnd. keeps_auto. Qed.

Lemma keeps_history_startPomodoroMode (old : list FocusSession) (work brk long : Z) :
  keeps (history_retains old) (startPomodoroMode work brk long).
Proof. unfold startPomodoroMode. keeps_auto. Qed.

#[local] Hint Resolve keeps_history_handlePomodoroSessionEnd
  keeps_history_startPomodoroMode : keeps.

Lemma keeps_current_startFocusSession (d : Z) (type : SessionType) :
  keeps current_in_history (startFocusSession d type).
Proof.
  intros now w _.
  destruct (startFocusSession_world d type now w)
    as (w' & -> & Hcur & _ & _ & Hhist & _).
  simpl. intros session Hs. rewrite Hcur in Hs. injection Hs as <-.
  eexists. split; [|reflexivity]. rewrite Hhist. apply saved_contains.
Qed.

Lemma keeps_current_pauseSession : keeps current_in_history pauseSession.
Proof. unfold pauseSession, getTimeRemaining. keeps_auto. Qed.

Lemma keeps_current_resumeSession : keeps current_in_history resumeSession.
Proof.
  intros now w H. unfold_m.
  destruct (currentSession (store w)) as [session|] eqn:Hcur; [|exact H].
  destruct (pausedSession (store w)) as [paused|]; [|exact H].
  simpl. intros s' [= <-]. simpl. exact (H session Hcur).
Qed.

#[local] Hint Resolve keeps_current_startFocusSession keeps_current_pauseSession
  keeps_current_resumeSession : keeps.

Lemma keeps_current_handlePomodoroSessionEnd :
  keeps current_in_history handlePomodoroSessionEnd.
Proof. unfold handlePomodoroSessionEnd. keeps_auto. Qed.

Lemma keeps_current_startPomodoroMode (work brk long : Z) :
  keeps current_in_history (startPomodoroMode work brk long).
Proof. unfold startPomodoroMode. keeps_auto. Qed.

#[local] Hint Resolve keeps_current_handlePomodoroSessionEnd
  keeps_current_startPomodoroMode : keeps.

Section HistoryFacts.
Context {host : Host}.

Lemma keeps_history_endFocusSession (old : list FocusSession) (sessionId : string)
      (completed : bool) :
  keeps (history_retains old) (endFocusSession sessionId completed).
Proof. unfold endFocusSession. keeps_auto. Qed.

Lemma keeps_current_endFocusSession (sessionId : string) (completed : bool) :
  keeps current_in_history (endFocusSession sessionId completed).
Proof.
  intros now w H.
  destruct (endFocusSession_world sessionId completed now w)
    as [-> | (session & w' & _ & _ & -> & Hcur & _)]; [exact H|].
  simpl. intros s Hs. congruence.
Qed.

Hint Resolve keeps_history_endFocusSession keeps_current_endFocusSession : keeps.

Lemma keeps_history_run_entry (old : list FocusSession) (e : EntryPoint) (now : Z)
      (w : World) :
  history_retains old w -> history_retains old (run_entry e now w).
Proof.
  intros H. destruct e; unfold run_entry, exec.
  - now apply keeps_history_startFocusSession.
  - now apply keeps_history_endFocusSession.
  - now apply keeps_history_pauseSession.
  - now apply keeps_history_resumeSession.
  - unfold onMessage.
    assert (Hm : keeps (history_retains old) (handleMessage msg)).
    { destruct msg; unfold handleMessage, stopPomodoroMode; keeps_auto. }
    specialize (Hm now w H).
    destruct (handleMessage msg now w) as [[err|r] w']; exact Hm.
  - revert now w H. change (keeps (history_retains old) onAlarm).
    unfold onAlarm. keeps_auto.
  - revert now w H. change (keeps (history_retains old) onStartup).
    unfold onStartup. keeps_auto.
  - revert now w H. change (keeps (history_retains old) (onBeforeNavigate url)).
    unfold onBeforeNavigate, isUrlBlocked, incrementBlockCount. keeps_auto.
Qed.

Lemma keeps_history_run_event (old : list FocusSession) (ev : Event) (now : Z)
      (w : World) :
  ev <> ResetAllData ->
  history_retains old w -> history_retains old (run_event ev now w).
Proof.
  intros Hev H. destruct ev as [e|msg|url|slotId|]; unfold run_event, exec.
  - now apply keeps_history_run_entry.
  - revert now w H. change (keeps (history_retains old) (handleSettingsMessage msg)).
    destruct msg; unfold handleSettingsMessage; keeps_auto.
  - exact H.
  - revert now w H. change (keeps (history_retains old) (toggleScheduleSlot slotId)).
    unfold toggleScheduleSlot. keeps_auto.
  - congruence.
Qed.

Lemma keeps_current_run_entry (e : EntryPoint) (now : Z) (w : World) :
  current_in_history w -> current_in_history (run_entry e now w).
Proof.
  intros H. destruct e; unfold run_entry, exec.
  - now apply keeps_current_startFocusSession.
  - now apply keeps_current_endFocusSession.
  - now apply keeps_current_pauseSession.
  - now apply keeps_current_resumeSession.
  - unfold onMessage.
    assert (Hm : keeps current_in_history (handleMessage msg)).
    { destruct msg; unfold handleMessage, stopPomodoroMode; keeps_auto. }
    specialize (Hm now w H).
    destruct (handleMessage msg now w) as [[err|r] w']; exact Hm.
  - revert now w H. change (keeps current_in_history onAlarm).
    unfold onAlarm. keeps_auto.
  - revert now w H. change (keeps current_in_history onStartup).
    unfold onStartup. keeps_auto.
  - revert now w H. change (keeps current_in_history (onBeforeNavigate url)).
    unfold onBeforeNavigate, isUrlBlocked, incrementBlockCount. keeps_auto.
Qed.

Lemma keeps_current_run_event (ev : Event) (now : Z) (w : World) :
  current_in_history w -> current_in_history (run_event ev now w).
Proof.
  intros H. destruct ev as [e|msg|url|slotId|]; unfold run_event, exec.
  - now apply keeps_current_run_entry.
  - revert now w H. change (keeps current_in_history (handleSettingsMessage msg)).
    destruct msg; unfold handleSettingsMessage; keeps_auto.
  - exact H.
  - revert now w H. change (keeps current_in_history (toggleScheduleSlot slotId)).
    unfold toggleScheduleSlot. keeps_auto.
  - intros session Hs. discriminate Hs.
Qed.

(** X5. The history only grows, short of a reset: over any sequence of
    events other than the options page's Reset All Data, every identifier
    that was in the history of sessions is still there afterwards and the
    history is not shorter; no such event deletes a session from the
    history.  Reset All Data is the one event that does: after it the
    history is empty. *)
Theorem history_is_retained :
  (forall (events : list (Event * Z)) (w : World),
      without_reset events ->
      history_retains (history_of w) (run_events events w))
  /\ (forall (now : Z) (w : World), history_of (run_event ResetAllData now w) = []).
Proof.
  split.
  - intros events w Hno. apply run_events_keeps_without_reset.
    + intros ev now w'. apply keeps_history_run_event.
    + exact Hno.
    + apply history_retains_refl.
  - reflexivity.
Qed.

(** X6. The current session always has its entry in the history, in every
    state reached from an idle one.  Hence ending a session never adds an
    entry: the entry with the session's identifier is replaced, in place, by
    the ended session with its [endTime] and [completed] flag. *)
Theorem current_session_in_history :
  (forall (events : list (Event * Z)) (w : World),
      idle w -> current_in_history (run_events events w))
  /\ (forall (sessionId : string) (completed : bool) (now : Z) (w w' : World),
         current_in_history w ->
         endFocusSession sessionId completed now w = (inr tt, w') ->
         exists i session old,
           currentSession (store w) = Some session
           /\ history_of w !! i = Some old
           /\ session_id old = sessionId
           /\ history_of w'
              = <[i := mkFocusSession sessionId (session_startTime session) (Some now)
                                      (session_duration session) completed
                                      (session_type session)]> (history_of w)
           /\ length (history_of w') = length (history_of w)).
Proof.
  split.
  - intros events w [Hcur _]. apply run_events_keeps.
    + exact keeps_current_run_event.
    + intros session Hs. congruence.
  - intros sessionId completed now w w' Hinv Hend.
    destruct (endFocusSession_world sessionId completed now w)
      as [Hfail | (session & w2 & Hcur & Hid & Hrun & _ & _ & _ & Hhist & _)];
      [congruence|].
    rewrite Hrun in Hend. injection Hend as <-.
    destruct (Hinv session Hcur) as (entry & Hin & Hentry).
    unfold saved in Hhist. simpl in Hhist.
    destruct (findIndex _ (history_of w)) as [i|] eqn:Hi.
    + apply findIndex_Some in Hi as (old & Hold & Hp & _). apply String.eqb_eq in Hp.
      exists i, session, old. rewrite Hhist, <- Hid.
      repeat split; try assumption. apply length_insert.
    + apply findIndex_None in Hi. rewrite Forall_forall in Hi.
      specialize (Hi entry Hin). apply String.eqb_neq in Hi. congruence.
Qed.

Lemma start_end_history (d t1 t2 : Z) (type : SessionType) (completed : bool)
        (w : World) :
  Forall (fun entry => session_id entry <> idgen w (issued w)) (history_of w) ->
  exists session w1 w2,
    startFocusSession d type t1 w = (inr session, w1)
    /\ endFocusSession (session_id session) completed t2 w1 = (inr tt, w2)
    /\ history_of w1 = (history_of w ++ [session])%list
    /\ history_of w2
       = (history_of w
          ++ [mkFocusSession (session_id session) t1 (Some t2) d completed type])%list.
Proof.
  intros Hfresh.
  destruct (startFocusSession_world d type t1 w)
    as (w1 & Hstart & Hcur & _ & _ & Hhist1 & _).
  rewrite saved_fresh in Hhist1 by exact Hfresh.
  destruct (endFocusSession_world (idgen w (issued w)) completed t2 w1)
    as [Hfail | (session & w2 & Hcur' & Hid & Hrun & _ & _ & _ & Hhist2 & _)].
  - exfalso. unfold endFocusSession in Hfail. unfold_m. rewrite Hcur in Hfail.
    simpl in Hfail. rewrite String.eqb_refl in Hfail. simpl in Hfail.
    destruct completed; discriminate.
  - rewrite Hcur in Hcur'. injection Hcur' as <-.
    eexists. exists w1, w2. split; [exact Hstart|]. split; [exact Hrun|].
    split; [exact Hhist1|]. rewrite Hhist2, Hhist1. simpl.
    apply saved_last; [exact Hfresh | reflexivity].
Qed.

(** X7. A session whose identifier is new to the history is started and
    then ended: the history is the old one followed by one entry, the
    session with the start time of [start], the end time of [end] and the
    [completed] flag that [end] was given. *)
Theorem start_end_appends_one (d t1 t2 : Z) (type : SessionType) (completed : bool)
        (w : World) :
  Forall (fun entry => session_id entry <> idgen w (issued w)) (history_of w) ->
  exists session w1 w2,
    startFocusSession d type t1 w = (inr session, w1)
    /\ endFocusSession (session_id session) completed t2 w1 = (inr tt, w2)
    /\ history_of w1 = (history_of w ++ [session])%list
    /\ history_of w2
       = (history_of w
          ++ [mkFocusSession (session_id session) t1 (Some t2) d completed type])%list.
Proof. apply start_end_history. Qed.

End HistoryFacts.

Lemma history_is_retained_witness :
  let w := first_break_world in
  let events := [(Core OnAlarm, minutes 30);
                 (Core (OnMessage MsgStopPomodoro), minutes 31);
                 (Command MsgToggleBlocking, minutes 32)] in
  without_reset events
  /\ history_retains (history_of w) (@run_events utc_host events w)
  /\ session_id <$> history_of w = ["s0"; "s1"]
  /\ session_id <$> history_of (@run_events utc_host events w) = ["s0"; "s1"; "s2"]
  /\ history_of (@run_event utc_host ResetAllData (minutes 33)
                              (@run_events utc_host events w)) = [].
Proof.
  intros w events.
  assert (Hno : without_reset events) by (repeat constructor; discriminate).
  destruct (@history_is_retained utc_host) as [Hkeep Hreset].
  split; [exact Hno|]. split; [exact (Hkeep events w Hno)|].
  split; [vm_compute; reflexivity|]. split; [vm_compute; reflexivity|].
  apply Hreset.
Defined.

Lemma current_session_in_history_witness :
  let events := [(Core (CallStart 25 Focus), 0); (Core CallPause, minutes 1);
                 (Core CallResume, minutes 3)] in
  idle fresh_world
  /\ @current_in_history (@run_events utc_host events fresh_world)
  /\ (session_startTime <$> currentSession (store (@run_events utc_host events fresh_world)))
     = Some (minutes 2)
  /\ (session_startTime <$> history_of (@run_events utc_host events fresh_world)) = [0].
Proof.
  intros events.
  assert (Hidle : idle fresh_world) by (split; reflexivity).
  destruct (@current_session_in_history utc_host) as [Hrun _].
  split; [exact Hidle|]. split; [exact (Hrun events fresh_world Hidle)|].
  split; reflexivity.
Defined.

Lemma start_end_appends_one_witness :
  Forall (fun entry => session_id entry <> idgen fresh_world (issued fresh_world))
         (history_of fresh_world)
  /\ exists session w1 w2,
      startFocusSession 25 Focus 0 fresh_world = (inr session, w1)
      /\ @endFocusSession utc_host (session_id session) true (minutes 24) w1 = (inr tt, w2)
      /\ history_of w1 = (history_of fresh_world ++ [session])%list
      /\ history_of w2
         = (history_of fresh_world
            ++ [mkFocusSession (session_id session) 0 (Some (minutes 24)) 25 true Focus])%list.
Proof.
  assert (Hfresh : Forall (fun entry => session_id entry <> idgen fresh_world (issued fresh_world))
                          (history_of fresh_world)) by constructor.
  split; [exact Hfresh|].
  exact (@start_end_appends_one utc_host 25 0 (minutes 24) Focus true fresh_world Hfresh).
Defined.

(** ** The Pomodoro controller: the other branches, stop and skip *)

(** The step of the controller when Pomodoro mode is enabled. *)
Lemma handlePomodoroSessionEnd_enabled (now : Z) (w : World) :
  let p := pomodoro_of w in
  pomodoro_enabled p = true ->
  exists step w',
    handlePomodoroSessionEnd now w = (inr (Some step), w')
    /\ step_pomodoroState step
       = (if isOnBreak p
          then mkPomodoroState true (workDuration p) (breakDuration p)
                               (longBreakDuration p) (sessionsUntilLongBreak p)
                               (currentCycle p) false (totalCyclesCompleted p)
          else mkPomodoroState true (workDuration p) (breakDuration p)
                               (longBreakDuration p) (sessionsUntilLongBreak p)
                               (currentCycle p + 1) true (totalCyclesCompleted p + 1))
    /\ nextSession step
       = mkFocusSession (idgen w (issued w)) now None
           (if isOnBreak p then workDuration p
            else if rem_is_zero (totalCyclesCompleted p + 1) (sessionsUntilLongBreak p)
                 then longBreakDuration p else breakDuration p)
           false (if isOnBreak p then Focus else Break)
    /\ pomodoroState (store w') = Some (step_pomodoroState step)
    /\ currentSession (store w') = Some (nextSession step)
    /\ stats (store w') = stats (store w)
    /\ alarm w' = Some (now + session_duration (nextSession step) * 60 * 1000).
Proof.
  intros p Hen. subst p. unfold pomodoro_of in *.
  destruct (pomodoroState (store w)) as [p|] eqn:Hp; simpl in *; [|discriminate].
  unfold handlePomodoroSessionEnd. unfold_m. cbn [fst snd].
  rewrite Hp. cbn [from_option id]. rewrite Hen. cbn [negb].
  destruct (isOnBreak p); [|destruct (rem_is_zero _ _)]; simpl;
    destruct (currentSession (store w)); simpl;
    rewrite ?Hp; simpl; rewrite ?Hen;
    (eexists; eexists; split; [reflexivity|]); unfold merge_pomodoro; simpl;
    rewrite ?Hp; simpl; rewrite ?Hen; repeat split.
Qed.

(** X8. The other two branches of the controller.  With Pomodoro mode off
    it returns [null] and changes nothing.  With Pomodoro mode on and
    [isOnBreak] set, it starts a focus session of [workDuration], clears
    [isOnBreak], announces the work session under the current cycle number
    and leaves [currentCycle] and [totalCyclesCompleted] as they are. *)
Theorem handlePomodoroSessionEnd_after_break (now : Z) (w : World) :
  let p := pomodoro_of w in
  (pomodoro_enabled p = false -> handlePomodoroSessionEnd now w = (inr None, w))
  /\ (pomodoro_enabled p = true -> isOnBreak p = true ->
      exists step w',
        handlePomodoroSessionEnd now w = (inr (Some step), w')
        /\ step_pomodoroState step
           = mkPomodoroState true (workDuration p) (breakDuration p)
                             (longBreakDuration p) (sessionsUntilLongBreak p)
                             (currentCycle p) false (totalCyclesCompleted p)
        /\ nextSession step
           = mkFocusSession (idgen w (issued w)) now None (workDuration p) false Focus
        /\ message step
           = "Break over! Starting work session " +:+ toString (currentCycle p)
        /\ pomodoroState (store w') = Some (step_pomodoroState step)
        /\ currentSession (store w') = Some (nextSession step)).
Proof.
  intros p. subst p. unfold pomodoro_of. split.
  - intros Hoff. unfold handlePomodoroSessionEnd. unfold_m. cbn [fst snd].
    now rewrite Hoff.
  - intros Hen Hbreak.
    destruct (pomodoroState (store w)) as [p|] eqn:Hp; simpl in *; [|discriminate].
    unfold handlePomodoroSessionEnd. unfold_m. cbn [fst snd].
    rewrite Hp. cbn [from_option id]. rewrite Hen, Hbreak. cbn [negb]. simpl.
    destruct (currentSession (store w)); simpl;
      rewrite ?Hp; simpl; rewrite ?Hen;
      (eexists; eexists; split; [reflexivity|]); unfold merge_pomodoro; simpl;
      rewrite ?Hp; simpl; rewrite ?Hen; repeat split.
Qed.

Lemma handlePomodoroSessionEnd_after_break_witness :
  let w := end_current (minutes 30) first_break_world in
  (pomodoro_enabled (pomodoro_of w) = true /\ isOnBreak (pomodoro_of w) = true)
  /\ exists step w',
      handlePomodoroSessionEnd (minutes 30) w = (inr (Some step), w')
      /\ step_pomodoroState step = mkPomodoroState true 25 5 15 4 2 false 1
      /\ nextSession step = mkFocusSession "s2" (minutes 30) None 25 false Focus
      /\ message step = "Break over! Starting work session 2"
      /\ pomodoroState (store w') = Some (step_pomodoroState step)
      /\ currentSession (store w') = Some (nextSession step).
Proof.
  intros w.
  assert (Hen : pomodoro_enabled (pomodoro_of w) = true) by reflexivity.
  assert (Hbreak : isOnBreak (pomodoro_of w) = true) by reflexivity.
  split; [auto|].
  destruct (handlePomodoroSessionEnd_after_break (minutes 30) w) as [_ Hstep].
  exact (Hstep Hen Hbreak).
Defined.

Section StopAndSkip.
Context {host : Host}.

(** X9. [stopPomodoroMode] never throws.  Afterwards Pomodoro mode is off
    with the rest of its record as before, no session is current, and the
    stats are unchanged: the running session is abandoned, not completed.
    Its wake-up and paused record are removed with it, and the controller
    then answers [null]. *)
Theorem stopPomodoroMode_spec (now : Z) (w : World) :
  exists w',
    stopPomodoroMode now w = (inr tt, w')
    /\ pomodoro_of w'
       = (let p := pomodoro_of w in
          mkPomodoroState false (workDuration p) (breakDuration p) (longBreakDuration p)
                          (sessionsUntilLongBreak p) (currentCycle p) (isOnBreak p)
                          (totalCyclesCompleted p))
    /\ currentSession (store w') = None
    /\ stats_of w' = stats_of w
    /\ (is_Some (currentSession (store w)) ->
        alarm w' = None /\ pausedSession (store w') = None)
    /\ (forall now', handlePomodoroSessionEnd now' w' = (inr None, w')).
Proof.
  unfold stopPomodoroMode, bind at 1 2. unfold getCurrentSession, storage_get.
  destruct (currentSession (store w)) as [session|] eqn:Hcur.
  - destruct (endFocusSession_world (session_id session) false now w)
      as [Hfail | (s' & w1 & Hcur' & _ & Hrun & Hnone & Hp & Ha & _ & Hstats & _ & Hpom)].
    { exfalso. unfold endFocusSession in Hfail. unfold_m. rewrite Hcur in Hfail.
      rewrite String.eqb_refl in Hfail. discriminate. }
    rewrite Hrun. unfold_m. simpl. eexists. split; [reflexivity|]. simpl.
    unfold pomodoro_of, stats_of in *. simpl. rewrite Hpom.
    repeat split; assumption.
  - unfold_m. simpl. eexists. split; [reflexivity|]. simpl.
    unfold pomodoro_of, stats_of. simpl.
    repeat split; try assumption;
      match goal with H : is_Some None |- _ => destruct H as [? [=]] end.
Qed.

(** X10. [skipToNext].  Without a current session, or with Pomodoro mode
    off, the command answers the error text and changes nothing.  Otherwise
    it ends the current session as not completed, so the stats do not move,
    and then takes the same step as the alarm would; in particular, when the
    flag [isOnBreak] is false, the skip still adds 1 to
    [totalCyclesCompleted], so the skipped session counts towards the long
    break, and a break is started. *)
Theorem skipToNext_spec (now : Z) (w : World) :
  ((currentSession (store w) = None \/ pomodoro_enabled (pomodoro_of w) = false) ->
   handleMessage MsgSkipToNext now w
   = (inr (RespError "No active Pomodoro session"), w))
  /\ (forall session,
         currentSession (store w) = Some session ->
         pomodoro_enabled (pomodoro_of w) = true ->
         exists w1 step w2,
           endFocusSession (session_id session) false now w = (inr tt, w1)
           /\ handlePomodoroSessionEnd now w1 = (inr (Some step), w2)
           /\ handleMessage MsgSkipToNext now w = (inr (RespNext (Some step)), w2)
           /\ stats_of w2 = stats_of w
           /\ (isOnBreak (pomodoro_of w) = false ->
               totalCyclesCompleted (step_pomodoroState step)
               = totalCyclesCompleted (pomodoro_of w) + 1
               /\ session_type (nextSession step) = Break)).
Proof.
  split.
  - intros Hno. unfold handleMessage. unfold bind at 1 2.
    unfold getCurrentSession, getPomodoroState, bind, storage_get, ret.
    fold (pomodoro_of w).
    destruct (currentSession (store w)); destruct Hno as [Hno|Hno];
      try discriminate; try reflexivity; now rewrite Hno.
  - intros session Hcur Hen.
    destruct (endFocusSession_world (session_id session) false now w)
      as [Hfail | (s' & w1 & Hcur' & _ & Hrun & _ & _ & _ & _ & Hstats & _ & Hpom)].
    { exfalso. unfold endFocusSession in Hfail. unfold_m. rewrite Hcur in Hfail.
      rewrite String.eqb_refl in Hfail. discriminate. }
    assert (Hsame : pomodoro_of w1 = pomodoro_of w).
    { unfold pomodoro_of. now rewrite Hpom. }
    destruct (handlePomodoroSessionEnd_enabled now w1)
      as (step & w2 & Hstep & Hstate & Hnext & _ & _ & Hstats2 & _).
    { now rewrite Hsame. }
    exists w1, step, w2. split; [exact Hrun|]. split; [exact Hstep|].
    split; [|split].
    + unfold handleMessage. unfold bind at 1 2.
      unfold getCurrentSession, getPomodoroState, storage_get.
      rewrite Hcur. unfold bind at 1. unfold ret at 1. fold (pomodoro_of w).
      rewrite Hen. unfold bind. rewrite Hrun, Hstep. reflexivity.
    + unfold stats_of in *. now rewrite Hstats2.
    + intros Hfocus. rewrite Hstate, Hnext, Hsame, Hfocus. split; reflexivity.
Qed.

(** X11. Recovery at start-up.  Nothing happens without a current session
    or while the session's end is still ahead.  A session whose end has
    passed is ended as completed: the session records and the wake-up are
    gone afterwards, and the stats count the time up to the start-up, not up
    to the scheduled end, so at least the full duration is added. *)
Theorem onStartup_recovery (now : Z) (w : World) :
  (currentSession (store w) = None -> onStartup now w = (inr tt, w))
  /\ (forall session,
         currentSession (store w) = Some session ->
         now - session_startTime session < session_duration session * 60 * 1000 ->
         onStartup now w = (inr tt, w))
  /\ (forall session,
         currentSession (store w) = Some session ->
         session_duration session * 60 * 1000 <= now - session_startTime session ->
         exists w',
           onStartup now w = (inr tt, w')
           /\ currentSession (store w') = None
           /\ pausedSession (store w') = None
           /\ alarm w' = None
           /\ stats_of w' = stats_after session now (stats_of w)
           /\ totalFocusTime (stats_of w) + session_duration session
              <= totalFocusTime (stats_of w')).
Proof.
  split; [|split].
  - intros Hcur. unfold onStartup, try_catch. unfold_m. now rewrite Hcur.
  - intros session Hcur Hahead. unfold onStartup, try_catch. unfold_m. rewrite Hcur.
    destruct (Z.leb_spec (session_duration session * 60 * 1000)
                         (now - session_startTime session)); [lia|]. reflexivity.
  - intros session Hcur Hpast.
    destruct (endFocusSession_world (session_id session) true now w)
      as [Hfail | (s' & w1 & Hcur' & _ & Hrun & Hnone & Hp & Ha & _ & Hstats & _)].
    { exfalso. unfold endFocusSession in Hfail. unfold_m. rewrite Hcur in Hfail.
      rewrite String.eqb_refl in Hfail. discriminate. }
    rewrite Hcur in Hcur'. injection Hcur' as <-.
    assert (Hrun' : exists w', onStartup now w = (inr tt, w')
                               /\ store w' = store w1 /\ alarm w' = alarm w1).
    { unfold onStartup, try_catch. unfold bind at 1.
      unfold getCurrentSession, storage_get. rewrite Hcur.
      unfold bind at 1. unfold date_now at 1.
      destruct (Z.leb_spec (session_duration session * 60 * 1000)
                           (now - session_startTime session)); [|lia].
      unfold bind at 1. rewrite Hrun. unfold_m. simpl.
      destruct (notificationsEnabled _); eexists; repeat split. }
    destruct Hrun' as (w' & Hstart & Hstore & Halarm).
    exists w'. unfold stats_of in *. rewrite Hstore, Halarm.
    repeat split; try assumption.
    rewrite Hstats. simpl.
    assert (session_duration session <= round_div (now - session_startTime session) 60000);
      [|lia].
    rewrite <- (round_div_exact (session_duration session) 60000) by lia.
    apply round_div_mono; lia.
Qed.

End StopAndSkip.

Lemma skipToNext_spec_witness :
  let w := first_break_world in
  let session := mkFocusSession "s1" (minutes 25) None 5 false Break in
  let w0 := exec (startPomodoroMode 25 5 15) 0 fresh_world in
  let session0 := mkFocusSession "s0" 0 None 25 false Focus in
  (currentSession (store fresh_world) = None
   /\ @handleMessage utc_host MsgSkipToNext 0 fresh_world
      = (inr (RespError "No active Pomodoro session"), fresh_world))
  /\ (currentSession (store w) = Some session
      /\ pomodoro_enabled (pomodoro_of w) = true
      /\ exists w1 step w2,
          @endFocusSession utc_host (session_id session) false (minutes 26) w = (inr tt, w1)
          /\ handlePomodoroSessionEnd (minutes 26) w1 = (inr (Some step), w2)
          /\ @handleMessage utc_host MsgSkipToNext (minutes 26) w
             = (inr (RespNext (Some step)), w2)
          /\ stats_of w2 = stats_of w)
  /\ (currentSession (store w0) = Some session0
      /\ pomodoro_enabled (pomodoro_of w0) = true
      /\ isOnBreak (pomodoro_of w0) = false
      /\ totalCyclesCompleted (pomodoro_of w0) = 0
      /\ exists step w2,
          @handleMessage utc_host MsgSkipToNext (minutes 10) w0
          = (inr (RespNext (Some step)), w2)
          /\ stats_of w2 = stats_of w0
          /\ totalCyclesCompleted (step_pomodoroState step) = 1
          /\ session_type (nextSession step) = Break).
Proof.
  intros w session w0 session0. split; [|split].
  - destruct (@skipToNext_spec utc_host 0 fresh_world) as [Hno _].
    split; [reflexivity | apply Hno; now left].
  - assert (Hcur : currentSession (store w) = Some session) by (vm_compute; reflexivity).
    assert (Hen : pomodoro_enabled (pomodoro_of w) = true) by (vm_compute; reflexivity).
    split; [exact Hcur|]. split; [exact Hen|].
    destruct (@skipToNext_spec utc_host (minutes 26) w) as [_ Hskip].
    destruct (Hskip session Hcur Hen) as (w1 & step & w2 & H1 & H2 & H3 & H4 & _).
    exists w1, step, w2. repeat split; assumption.
  - assert (Hcur : currentSession (store w0) = Some session0) by (vm_compute; reflexivity).
    assert (Hen : pomodoro_enabled (pomodoro_of w0) = true) by (vm_compute; reflexivity).
    assert (Hflag : isOnBreak (pomodoro_of w0) = false) by (vm_compute; reflexivity).
    assert (Hcycles : totalCyclesCompleted (pomodoro_of w0) = 0)
      by (vm_compute; reflexivity).
    split; [exact Hcur|]. split; [exact Hen|]. split; [exact Hflag|].
    split; [exact Hcycles|].
    destruct (@skipToNext_spec utc_host (minutes 10) w0) as [_ Hskip].
    destruct (Hskip session0 Hcur Hen) as (w1 & step & w2 & _ & _ & H3 & H4 & Hfocus).
    destruct (Hfocus Hflag) as [Hplus Hbreak].
    exists step, w2. split; [exact H3|]. split; [exact H4|].
    split; [rewrite Hplus, Hcycles; reflexivity | exact Hbreak].
Defined.

Lemma onStartup_recovery_witness :
  let w := exec (startFocusSession 25 Focus) 0 fresh_world in
  let session := mkFocusSession "s0" 0 None 25 false Focus in
  (currentSession (store fresh_world) = None
   /\ @onStartup utc_host 0 fresh_world = (inr tt, fresh_world))
  /\ (currentSession (store w) = Some session
      /\ minutes 10 - session_startTime session < session_duration session * 60 * 1000
      /\ @onStartup utc_host (minutes 10) w = (inr tt, w))
  /\ (session_duration session * 60 * 1000 <= hours 10 - session_startTime session
      /\ exists w',
          @onStartup utc_host (hours 10) w = (inr tt, w')
          /\ currentSession (store w') = None
          /\ pausedSession (store w') = None
          /\ alarm w' = None
          /\ stats_of w' = @stats_after utc_host session (hours 10) (stats_of w)
          /\ totalFocusTime (stats_of w) + session_duration session
             <= totalFocusTime (stats_of w')).
Proof.
  intros w session.
  assert (Hcur : currentSession (store w) = Some session) by (vm_compute; reflexivity).
  assert (Hahead : minutes 10 - session_startTime session
                   < session_duration session * 60 * 1000) by (vm_compute; reflexivity).
  assert (Hpast : session_duration session * 60 * 1000
                  <= hours 10 - session_startTime session) by (vm_compute; discriminate).
  destruct (@onStartup_recovery utc_host 0 fresh_world) as (Hidle & _ & _).
  destruct (@onStartup_recovery utc_host (minutes 10) w) as (_ & Hrunning & _).
  destruct (@onStartup_recovery utc_host (hours 10) w) as (_ & _ & Hover).
  split; [split; [reflexivity | apply Hidle; reflexivity]|].
  split; [split; [exact Hcur | split; [exact Hahead | exact (Hrunning session Hcur Hahead)]]|].
  split; [exact Hpast | exact (Hover session Hcur Hpast)].
Defined.

(** ** Stats counters *)

Lemma onMessage_world `{host : Host} (msg : Message) (now : Z) (w : World) :
  snd (onMessage msg now w) = snd (handleMessage msg now w).
Proof. unfold onMessage. now destruct (handleMessage msg now w) as [[e|r] w']. Qed.

(** The world after a computation keeps [P]: stated with [keeps]. *)
Ltac keeps_world :=
  lazymatch goal with
  | H : ?P ?w |- ?P (snd (?c ?now ?w)) => revert now w H; change (keeps P c)
  | H : ?P ?x ?w |- ?P ?x (snd (?c ?now ?w)) => revert now w H; change (keeps (P x) c)
  end.

(** Every event keeps a property, given the lemmas of the database for the
    operations that write what the property reads. *)
Ltac keeps_event :=
  let H := fresh "H" in
  let Hev := fresh "Hev" in
  intros ? ? ?;
  try lazymatch goal with
      | |- _ <> ResetAllData -> _ => intros Hev
      end;
  intros H;
  lazymatch goal with
  | |- _ (run_event ?ev _ _) => destruct ev as [[]| | | |]
  end;
  try (exfalso; exact (Hev eq_refl));
  unfold run_event, run_entry, exec; rewrite ?onMessage_world; keeps_world;
  try lazymatch goal with
      | |- keeps _ (handleMessage ?msg) => destruct msg
      | |- keeps _ (handleSettingsMessage ?msg) => destruct msg
      end;
  unfold handleMessage, handleSettingsMessage, stopPomodoroMode, onAlarm, onStartup,
    onBeforeNavigate, toggleScheduleSlot, onBreakButton;
  keeps_auto.

Lemma counters_grow_refl (st : Stats) : counters_grow st st.
Proof. unfold counters_grow. lia. Qed.

Lemma counters_grow_stats_after `{host : Host} (before st : Stats)
      (session : FocusSession) (now : Z) :
  counters_grow before st -> counters_grow before (stats_after session now st).
Proof. unfold counters_grow, stats_after. simpl. lia. Qed.

Section CounterFacts.
Context {host : Host}.

Lemma keeps_counters_endFocusSession (before : Stats) (sessionId : string)
      (completed : bool) :
  keeps (counters_not_below before) (endFocusSession sessionId completed).
Proof.
  intros now w H.
  destruct (endFocusSession_world sessionId completed now w)
    as [-> | (session & w' & _ & _ & -> & _ & _ & _ & _ & Hstats & _)]; [exact H|].
  unfold counters_not_below. simpl. rewrite Hstats.
  destruct completed; [now apply counters_grow_stats_after | exact H].
Qed.

Lemma keeps_counters_incrementBlockCount (before : Stats) (url : string) :
  keeps (counters_not_below before) (incrementBlockCount url).
Proof.
  intros now w H. unfold incrementBlockCount. unfold_m. simpl.
  destruct (bump_first_match _ _); [|exact H].
  unfold counters_not_below, counters_grow, stats_of in *. simpl. lia.
Qed.

Lemma keeps_streak_endFocusSession (sessionId : string) (completed : bool) :
  keeps streak_within_longest (endFocusSession sessionId completed).
Proof.
  intros now w H.
  destruct (endFocusSession_world sessionId completed now w)
    as [-> | (session & w' & _ & _ & -> & _ & _ & _ & _ & Hstats & _)]; [exact H|].
  unfold streak_within_longest. simpl. rewrite Hstats.
  destruct completed; [|exact H]. unfold stats_after. simpl. lia.
Qed.

Lemma keeps_streak_incrementBlockCount (url : string) :
  keeps streak_within_longest (incrementBlockCount url).
Proof.
  intros now w H. unfold incrementBlockCount. unfold_m. simpl.
  destruct (bump_first_match _ _); exact H.
Qed.

Hint Resolve keeps_counters_endFocusSession keeps_counters_incrementBlockCount
  keeps_streak_endFocusSession keeps_streak_incrementBlockCount : keeps.

Lemma keeps_streak_resetAllData : keeps streak_within_longest resetAllData.
Proof. intros now w _. unfold streak_within_longest. simpl. lia. Qed.

Hint Resolve keeps_streak_resetAllData : keeps.

Lemma keeps_counters_run_event (before : Stats) :
  forall ev now w, ev <> ResetAllData ->
                   counters_not_below before w ->
                   counters_not_below before (run_event ev now w).
Proof.
  keeps_event; unfold startPomodoroMode, handlePomodoroSessionEnd, startFocusSession,
    pauseSession, resumeSession, getTimeRemaining, isUrlBlocked, addBlockedSite,
    removeBlockedSite, updateSettings, updateWeeklySchedule, addScheduleSlot,
    removeScheduleSlot, storage_generateId; keeps_auto.
Qed.

Lemma keeps_streak_run_event :
  forall ev now w, streak_within_longest w -> streak_within_longest (run_event ev now w).
Proof.
  keeps_event; unfold startPomodoroMode, handlePomodoroSessionEnd, startFocusSession,
    pauseSession, resumeSession, getTimeRemaining, isUrlBlocked, addBlockedSite,
    removeBlockedSite, updateSettings, updateWeeklySchedule, addScheduleSlot,
    removeScheduleSlot, storage_generateId; keeps_auto.
Qed.

(** X12. The counters of the stats never go down, short of a reset: over
    any sequence of events other than the options page's Reset All Data,
    [totalBlocks], [sessionsCompleted] and [longestStreak] are at least what
    they were.  Reset All Data is the one event that lowers them: after it
    the stats are the defaults, every counter 0.  With or without resets,
    [currentStreak <= longestStreak], once true, stays true. *)
Theorem counters_never_decrease (events : list (Event * Z)) (w : World) :
  (without_reset events ->
   counters_grow (stats_of w) (stats_of (run_events events w)))
  /\ (currentStreak (stats_of w) <= longestStreak (stats_of w) ->
      currentStreak (stats_of (run_events events w))
      <= longestStreak (stats_of (run_events events w)))
  /\ (forall now : Z, stats_of (run_event ResetAllData now w) = mkStats 0 0 0 0 0).
Proof.
  split; [|split].
  - intros Hno.
    apply (run_events_keeps_without_reset (counters_not_below (stats_of w))).
    + apply keeps_counters_run_event.
    + exact Hno.
    + apply counters_grow_refl.
  - intros H. apply (run_events_keeps streak_within_longest).
    + apply keeps_streak_run_event.
    + exact H.
  - reflexivity.
Qed.

End CounterFacts.

Lemma counters_never_decrease_witness :
  let events := [(Core (CallStart 25 Focus), 0); (Core OnAlarm, minutes 25);
                 (Command (MsgAddSite "facebook.com" None), minutes 26);
                 (Core (OnNavigate "https://m.facebook.com/x"), minutes 27)] in
  (without_reset events
   /\ currentStreak (stats_of fresh_world) <= longestStreak (stats_of fresh_world))
  /\ counters_grow (stats_of fresh_world)
                   (stats_of (@run_events utc_host events fresh_world))
  /\ currentStreak (stats_of (@run_events utc_host events fresh_world))
     <= longestStreak (stats_of (@run_events utc_host events fresh_world))
  /\ stats_of (@run_events utc_host events fresh_world) = mkStats 25 1 1 1 1
  /\ stats_of (@run_events utc_host ((events ++ [(ResetAllData, minutes 28)])%list)
                           fresh_world) = mkStats 0 0 0 0 0.
Proof.
  intros events.
  assert (H0 : currentStreak (stats_of fresh_world) <= longestStreak (stats_of fresh_world))
    by (vm_compute; discriminate).
  assert (Hno : without_reset events) by (repeat constructor; discriminate).
  destruct (@counters_never_decrease utc_host events fresh_world)
    as (Hgrow & Hstreak & _).
  split; [split; [exact Hno | exact H0]|]. split; [exact (Hgrow Hno)|].
  split; [exact (Hstreak H0)|]. split; vm_compute; reflexivity.
Defined.

(** ** The blocklist *)

Lemma total_blockCount_app (l1 l2 : list BlockedSite) :
  total_blockCount (l1 ++ l2) = total_blockCount l1 + total_blockCount l2.
Proof.
  unfold total_blockCount. induction l1 as [|a l1 IH]; simpl; [lia|].
  rewrite IH. lia.
Qed.

Lemma total_blockCount_filter (P : BlockedSite -> Prop) `{forall x, Decision (P x)}
      (l : list BlockedSite) :
  Forall (fun site => 0 <= site_blockCount site) l ->
  Forall (fun site => 0 <= site_blockCount site) (filter P l)
  /\ total_blockCount (filter P l) <= total_blockCount l.
Proof.
  unfold total_blockCount. induction 1 as [|a l Ha Hl [IH1 IH2]]; simpl.
  - split; [constructor | lia].
  - rewrite filter_cons. destruct (decide (P a)); simpl.
    + split; [constructor; assumption | lia].
    + split; [assumption | lia].
Qed.

Lemma filter_all {A} (P : A -> Prop) `{forall x, Decision (P x)} (l : list A) :
  Forall P l -> filter P l = l.
Proof.
  induction 1 as [|a l Ha _ IH]; [reflexivity|].
  rewrite filter_cons. destruct (decide (P a)); [now rewrite IH | contradiction].
Qed.

Section BlocklistFacts.
Context {host : Host}.

Lemma bump_first_match_counts (domain : string) (sites sites' : list BlockedSite) :
  bump_first_match domain sites = Some sites' ->
  total_blockCount sites' = total_blockCount sites + 1
  /\ (Forall (fun site => 0 <= site_blockCount site) sites ->
      Forall (fun site => 0 <= site_blockCount site) sites').
Proof.
  revert sites'. induction sites as [|site sites IH]; intros sites'; simpl; [discriminate|].
  destruct (domainMatchesPattern domain (site_domain site)).
  - intros [= <-]. unfold total_blockCount. simpl. split; [lia|].
    intros Hall. inversion Hall; subst. constructor; [simpl; lia | assumption].
  - destruct (bump_first_match domain sites) as [rest|]; [|discriminate].
    simpl. intros [= <-]. destruct (IH rest eq_refl) as [Hsum Hall].
    unfold total_blockCount in *. simpl. split; [lia|].
    intros Hs. inversion Hs; subst. constructor; auto.
Qed.

Lemma keeps_counts_incrementBlockCount (url : string) :
  keeps block_counts_consistent (incrementBlockCount url).
Proof.
  intros now w [Hall Hsum]. unfold incrementBlockCount. unfold_m. simpl.
  fold (sites_of w). destruct (bump_first_match _ (sites_of w)) as [sites'|] eqn:Hb;
    [|split; assumption].
  destruct (bump_first_match_counts _ _ _ Hb) as [Hsum' Hall'].
  unfold block_counts_consistent, sites_of, stats_of in *. simpl. split; [auto | lia].
Qed.

Lemma keeps_counts_endFocusSession (sessionId : string) (completed : bool) :
  keeps block_counts_consistent (endFocusSession sessionId completed).
Proof.
  intros now w H.
  destruct (endFocusSession_world sessionId completed now w)
    as [-> | (session & w' & _ & _ & -> & _ & _ & _ & _ & Hstats & Hsites & _)];
    [exact H|].
  unfold block_counts_consistent, sites_of in *. simpl. rewrite Hstats, Hsites.
  destruct completed; exact H.
Qed.

Lemma keeps_counts_addBlockedSite (domain : string) (category : option string) :
  keeps block_counts_consistent (addBlockedSite domain category).
Proof.
  intros now w [Hall Hsum]. unfold addBlockedSite, storage_generateId. unfold_m. simpl.
  unfold block_counts_consistent, sites_of, stats_of in *. simpl. split.
  - apply Forall_app. split; [assumption|]. constructor; [simpl; lia | constructor].
  - rewrite total_blockCount_app. unfold total_blockCount at 2. simpl. lia.
Qed.

Lemma keeps_counts_removeBlockedSite (id : string) :
  keeps block_counts_consistent (removeBlockedSite id).
Proof.
  intros now w [Hall Hsum]. unfold removeBlockedSite. unfold_m. simpl.
  unfold block_counts_consistent, sites_of, stats_of in *. simpl.
  destruct (total_blockCount_filter (fun site => site_id site <> id) _ Hall).
  split; [assumption | lia].
Qed.

Hint Resolve keeps_counts_incrementBlockCount keeps_counts_endFocusSession
  keeps_counts_addBlockedSite keeps_counts_removeBlockedSite : keeps.

Lemma keeps_counts_resetAllData : keeps block_counts_consistent resetAllData.
Proof.
  intros now w _. split; [constructor|]. unfold sites_of, stats_of. simpl. lia.
Qed.

Hint Resolve keeps_counts_resetAllData : keeps.

Lemma keeps_counts_run_event :
  forall ev now w, block_counts_consistent w -> block_counts_consistent (run_event ev now w).
Proof.
  keeps_event; unfold startPomodoroMode, handlePomodoroSessionEnd, startFocusSession,
    pauseSession, resumeSession, getTimeRemaining, isUrlBlocked,
    updateSettings, updateWeeklySchedule, addScheduleSlot,
    removeScheduleSlot, storage_generateId; keeps_auto.
Qed.


(** X14. [addBlockedSite] appends one site and changes no other: the new
    site has the normalised domain, the given category, [createdAt = now]
    and [blockCount = 0].  [removeBlockedSite] with the identifier that
    was returned then takes out that site, and with it every site of the
    same identifier; when the identifier was not in use before, the
    blocklist is back to what it was. *)
Theorem addBlockedSite_then_remove (domain : string) (category : option string)
        (t1 t2 : Z) (w : World) :
  exists site w1 w2,
    addBlockedSite domain category t1 w = (inr site, w1)
    /\ site = mkBlockedSite (toString t1 +:+ "-" +:+ idgen w (issued w))
                            (normalize_site_domain domain) category t1 0
    /\ sites_of w1 = (sites_of w ++ [site])%list
    /\ removeBlockedSite (site_id site) t2 w1 = (inr tt, w2)
    /\ sites_of w2 = filter (fun other => site_id other <> site_id site) (sites_of w)
    /\ (Forall (fun other => site_id other <> site_id site) (sites_of w) ->
        sites_of w2 = sites_of w).
Proof.
  unfold addBlockedSite, removeBlockedSite, storage_generateId. unfold_m. simpl.
  eexists. eexists. eexists. split; [reflexivity|]. split; [reflexivity|].
  split; [reflexivity|]. split; [reflexivity|].
  unfold sites_of. simpl. fold (sites_of w).
  assert (Hfilter : filter (fun other => site_id other
                              <> toString t1 +:+ "-" +:+ idgen w (issued w))
                           (sites_of w ++
                            [mkBlockedSite (toString t1 +:+ "-" +:+ idgen w (issued w))
                                           (normalize_site_domain domain) category t1 0])%list
                    = filter (fun other => site_id other
                                <> toString t1 +:+ "-" +:+ idgen w (issued w))
                             (sites_of w)).
  { rewrite filter_app, filter_cons. simpl.
    destruct (decide _) as [Hne|_].
    - exfalso. now apply Hne.
    - rewrite filter_nil. apply app_nil_r. }
  split; [exact Hfilter|].
  intros Hfresh. rewrite Hfilter. now apply filter_all.
Qed.

(** The verdict of a navigation check, as one formula. *)
Lemma isUrlBlocked_verdict (url : string) (now : Z) (w : World) :
  fst (isUrlBlocked url now w)
  = inr (reaches_blocklist url now w
         && existsb (fun site => domainMatchesPattern (extractDomain url) (site_domain site))
                    (sites_of w)).
Proof.
  unfold isUrlBlocked, reaches_blocklist, settings_of, schedule_of, breaks_of, sites_of.
  destruct (String.eqb (extractDomain url) ""); [reflexivity|].
  destruct (JsString.startsWith url extension_root); [reflexivity|].
  unfold bind, getSettings, getWeeklySchedule, getBlockedSites, storage_get,
    storage_update, date_now, ret. simpl.
  destruct (settings_enabled _); [|reflexivity]. simpl.
  rewrite schedule_guard.
  destruct (isWithinSchedule now _); [|reflexivity]. simpl.
  destruct (break_in_force _ now); [reflexivity|].
  destruct (break_expired _ now); reflexivity.
Qed.

(** X15. A navigation check can be repeated: the second check at the same
    instant gives the verdict of the first and writes nothing, although the
    first may have deleted an expired break. *)
Theorem isUrlBlocked_idempotent (url : string) (now : Z) (w w1 : World)
        (verdict : Error + bool) :
  isUrlBlocked url now w = (verdict, w1) ->
  isUrlBlocked url now w1 = (verdict, w1).
Proof.
  intros Hrun.
  assert (Hv : verdict = fst (isUrlBlocked url now w)) by now rewrite Hrun.
  assert (Hw : w1 = snd (isUrlBlocked url now w)) by now rewrite Hrun.
  rewrite isUrlBlocked_verdict in Hv. rewrite isUrlBlocked_cleanup in Hw.
  rewrite (surjective_pairing (isUrlBlocked url now w1)).
  rewrite isUrlBlocked_verdict, isUrlBlocked_cleanup.
  destruct (_ && break_expired _ now) eqn:Hexp in Hw; subst w1 verdict.
  - apply andb_true_iff in Hexp as [Hreach Hexp].
    unfold reaches_blocklist, settings_of, schedule_of, breaks_of, sites_of. simpl.
    rewrite lookup_delete_eq. simpl. rewrite !andb_false_r.
    fold (breaks_of w).
    assert (Hforce : break_in_force (breaks_of w !! extractDomain url) now = false).
    { unfold breaks_of. destruct (default ∅ (temporaryBreaks (store w)) !! extractDomain url)
        as [t|]; [|reflexivity]. simpl in *.
      destruct (Z.eqb_spec t 0); simpl in *; [discriminate|].
      apply Z.leb_le in Hexp. apply Z.ltb_ge. exact Hexp. }
    rewrite Hforce. reflexivity.
  - rewrite Hexp. reflexivity.
Qed.

End BlocklistFacts.


Lemma isUrlBlocked_idempotent_witness :
  let w := with_store (with_temporaryBreaks (Some {[ "m.facebook.com" := 500 ]}))
                      facebook_world in
  let w1 := snd (@isUrlBlocked utc_host "https://m.facebook.com/x" 1000 w) in
  @isUrlBlocked utc_host "https://m.facebook.com/x" 1000 w = (inr true, w1)
  /\ @isUrlBlocked utc_host "https://m.facebook.com/x" 1000 w1 = (inr true, w1)
  /\ temporaryBreaks (store w1) = Some ∅.
Proof.
  intros w w1.
  assert (Hrun : @isUrlBlocked utc_host "https://m.facebook.com/x" 1000 w = (inr true, w1))
    by (vm_compute; reflexivity).
  split; [exact Hrun|].
  split; [exact (@isUrlBlocked_idempotent utc_host _ 1000 w w1 (inr true) Hrun)|].
  vm_compute. reflexivity.
Defined.

(** ** Adding a site, switching blocking off, taking a break *)

Section DecisionComposition.
Context {host : Host}.

Lemma existsb_app_true {A} (f : A -> bool) (l1 l2 : list A) :
  existsb f (l1 ++ l2) = existsb f l1 || existsb f l2.
Proof. induction l1 as [|a l1 IH]; simpl; [reflexivity|]. now rewrite IH, orb_assoc. Qed.

(** X16. What adding a site does to the verdicts.  After
    [addBlockedSite(domain)] a navigation is denied exactly when it was
    denied before, or it gets as far as the blocklist and its domain matches
    the normalised [domain]: adding a site never unblocks anything, and it
    blocks the domains that the new pattern covers. *)
Theorem added_site_is_blocked (domain : string) (category : option string)
        (t1 : Z) (url : string) (now : Z) (w : World) :
  fst (isUrlBlocked url now (exec (addBlockedSite domain category) t1 w))
  = inr (match fst (isUrlBlocked url now w) with
         | inr true => true
         | _ => reaches_blocklist url now w
                && domainMatchesPattern (extractDomain url) (normalize_site_domain domain)
         end).
Proof.
  rewrite !isUrlBlocked_verdict.
  assert (Hreach : reaches_blocklist url now (exec (addBlockedSite domain category) t1 w)
                   = reaches_blocklist url now w) by reflexivity.
  rewrite Hreach.
  assert (Hsites : sites_of (exec (addBlockedSite domain category) t1 w)
                   = (sites_of w
                      ++ [mkBlockedSite (toString t1 +:+ "-" +:+ idgen w (issued w))
                                        (normalize_site_domain domain) category t1 0])%list)
    by reflexivity.
  rewrite Hsites, existsb_app_true. simpl. rewrite orb_false_r.
  destruct (reaches_blocklist url now w); simpl; [|reflexivity].
  destruct (existsb _ (sites_of w)); reflexivity.
Qed.

(** X17. The blocking switch.  [toggleBlocking] answers the new value of
    [enabled], which is the negation of the stored one, and changes no other
    setting; a second toggle restores the settings.  While blocking is
    switched off every navigation is let through and nothing is counted. *)
Theorem toggleBlocking_spec (now : Z) (w : World) :
  exists w1,
    handleSettingsMessage MsgToggleBlocking now w
    = (inr (ReplyEnabled (negb (settings_enabled (settings_of w)))), w1)
    /\ settings_of w1
       = mkUserSettings (negb (settings_enabled (settings_of w)))
                        (strictMode (settings_of w)) (defaultSessionLength (settings_of w))
                        (breakLength (settings_of w)) (notificationsEnabled (settings_of w))
    /\ (forall now', settings_of (exec (handleSettingsMessage MsgToggleBlocking) now' w1)
                     = settings_of w)
    /\ (settings_enabled (settings_of w) = true ->
        forall url now', onBeforeNavigate url now' w1 = (inr false, w1)).
Proof.
  unfold handleSettingsMessage, updateSettings. unfold_m. simpl.
  eexists. split; [reflexivity|]. fold (settings_of w). split; [reflexivity|]. split.
  - intros now'. unfold settings_of, merge_settings. simpl.
    rewrite negb_involutive. now destruct (default DEFAULT_SETTINGS (settings (store w))).
  - intros Hen url now'. unfold onBeforeNavigate, isUrlBlocked.
    destruct (String.eqb (extractDomain url) ""); [reflexivity|].
    destruct (JsString.startsWith url extension_root); [reflexivity|].
    unfold_m. simpl. fold (settings_of w). rewrite Hen. reflexivity.
Qed.

(** X18. The break button.  A click stores, under the domain shown on the
    blocked page, an expiry five minutes ahead and touches no other break;
    the one domain for which it stores nothing is ["__proto__"], which an
    assignment on a plain object does not create.  When the domain shown is
    the one the engine extracts from the URL, and is not ["__proto__"],
    every navigation to the URL in the next five minutes is let through, and
    nothing is counted.  When the two domains differ, or the domain is
    ["__proto__"], the click changes no verdict for that URL. *)
Theorem break_button_spec (url : string) (t0 : Z) (w : World) :
  let w1 := exec (onBreakButton (Some url)) t0 w in
  (blockedDomain (Some url) <> "__proto__" ->
   breaks_of w1 = <[blockedDomain (Some url) := t0 + 5 * 60 * 1000]> (breaks_of w))
  /\ (blockedDomain (Some url) = "__proto__" -> breaks_of w1 = breaks_of w)
  /\ (blockedDomain (Some url) = extractDomain url ->
      blockedDomain (Some url) <> "__proto__" ->
      forall t, 0 <= t -> t < t0 + 5 * 60 * 1000 ->
                onBeforeNavigate url t w1 = (inr false, w1))
  /\ (blockedDomain (Some url) <> extractDomain url
      \/ blockedDomain (Some url) = "__proto__" ->
      forall t, fst (isUrlBlocked url t w1) = fst (isUrlBlocked url t w)).
Proof.
  intros w1. subst w1. unfold onBreakButton, exec, assign_break.
  generalize (blockedDomain (Some url)). intros key.
  destruct (String.eqb_spec key "__proto__") as [Hproto|Hproto].
  - split; [intros Hne; contradiction|]. split; [intros _; reflexivity|].
    split; [intros _ Hne; contradiction|].
    intros _ t. rewrite !isUrlBlocked_verdict. reflexivity.
  - split; [intros _; reflexivity|]. split; [intros Heq; contradiction|]. split.
    + intros Hkey _ t Ht Hsoon. unfold onBeforeNavigate, isUrlBlocked.
      destruct (String.eqb (extractDomain url) ""); [reflexivity|].
      destruct (JsString.startsWith url extension_root); [reflexivity|].
      unfold_m. simpl.
      destruct (negb _); [reflexivity|].
      destruct (_ && _); [reflexivity|].
      rewrite Hkey, lookup_insert_eq. simpl.
      destruct (Z.eqb_spec (t0 + 5 * 60 * 1000) 0); [lia|].
      destruct (Z.ltb_spec t (t0 + 5 * 60 * 1000)); [reflexivity | lia].
    + intros [Hkey|Heq] t; [|contradiction]. rewrite !isUrlBlocked_verdict.
      unfold reaches_blocklist, settings_of, schedule_of, sites_of, breaks_of.
      unfold_m. simpl.
      rewrite lookup_insert_ne by exact Hkey. reflexivity.
Qed.

End DecisionComposition.

Lemma toggleBlocking_spec_witness :
  settings_enabled (settings_of facebook_world) = true
  /\ exists w1,
      @handleSettingsMessage utc_host MsgToggleBlocking 0 facebook_world
      = (inr (ReplyEnabled false), w1)
      /\ @onBeforeNavigate utc_host "https://m.facebook.com/x" 1000 w1 = (inr false, w1)
      /\ settings_of (exec (@handleSettingsMessage utc_host MsgToggleBlocking) 2000 w1)
         = settings_of facebook_world.
Proof.
  assert (Hen : settings_enabled (settings_of facebook_world) = true) by reflexivity.
  split; [exact Hen|].
  destruct (@toggleBlocking_spec utc_host 0 facebook_world) as (w1 & Hrun & _ & Hback & Hoff).
  exists w1. split; [exact Hrun|]. split; [exact (Hoff Hen _ 1000) | exact (Hback 2000)].
Defined.

Lemma break_button_spec_witness :
  let url := "https://m.facebook.com/x" in
  let w1 := exec (@onBreakButton utc_host (Some url)) 1000 facebook_world in
  (@blockedDomain utc_host (Some url) = @extractDomain utc_host url
   /\ @blockedDomain utc_host (Some url) <> "__proto__"
   /\ 0 <= 2000 /\ 2000 < 1000 + 5 * 60 * 1000)
  /\ breaks_of w1 = {[ "m.facebook.com" := 301000 ]}
  /\ @onBeforeNavigate utc_host url 2000 w1 = (inr false, w1)
  /\ fst (@isUrlBlocked utc_host url (1000 + minutes 5) w1) = inr true
  /\ (let hidden := "http://__proto__/x" in
      @blockedDomain utc_host (Some hidden) = "__proto__"
      /\ breaks_of (exec (@onBreakButton utc_host (Some hidden)) 1000 facebook_world)
         = breaks_of facebook_world).
Proof.
  intros url w1.
  assert (Hkey : @blockedDomain utc_host (Some url) = @extractDomain utc_host url)
    by reflexivity.
  assert (Hne : @blockedDomain utc_host (Some url) <> "__proto__")
    by (vm_compute; discriminate).
  destruct (@break_button_spec utc_host url 1000 facebook_world)
    as (Hstore & _ & Hallow & _).
  destruct (@break_button_spec utc_host "http://__proto__/x" 1000 facebook_world)
    as (_ & Hsame & _).
  split; [split; [exact Hkey | split; [exact Hne | lia]]|].
  split; [unfold w1; rewrite (Hstore Hne); vm_compute; reflexivity|].
  split; [apply (Hallow Hkey Hne 2000); lia|].
  split; [vm_compute; reflexivity|].
  split; [vm_compute; reflexivity | exact (Hsame eq_refl)].
Defined.

(** The blocked page removes the first ["www."] wherever it stands, the
    engine only a leading one: for such a host the break is stored under
    another name and the site stays blocked. *)
Example break_button_other_key :
  let url := "https://awww.facebook.com/x" in
  let w1 := exec (@onBreakButton utc_host (Some url)) 1000 facebook_world in
  @blockedDomain utc_host (Some url) = "afacebook.com"
  /\ @extractDomain utc_host url = "awww.facebook.com"
  /\ fst (@isUrlBlocked utc_host url 2000 w1) = inr true.
Proof. repeat split; vm_compute; reflexivity. Qed.

(** ** The weekly schedule *)

Lemma toggle_first_spec (slotId : string) (slots : list ScheduleSlot) :
  match toggle_first slotId slots with
  | None => Forall (fun slot => slot_id slot <> slotId) slots
  | Some slots' =>
      exists before slot after,
        slots = (before ++ slot :: after)%list
        /\ Forall (fun other => slot_id other <> slotId) before
        /\ slot_id slot = slotId
        /\ slots' = (before
                     ++ mkScheduleSlot (slot_id slot) (slot_day slot) (slot_startTime slot)
                                       (slot_endTime slot) (negb (slot_enabled slot))
                     :: after)%list
  end.
Proof.
  induction slots as [|slot slots IH]; simpl; [constructor|].
  destruct (String.eqb_spec (slot_id slot) slotId) as [Hid|Hid].
  - exists [], slot, slots. repeat split; [constructor | exact Hid].
  - destruct (toggle_first slotId slots) as [slots'|]; simpl.
    + destruct IH as (before & s' & after & -> & Hb & Hs & ->).
      exists (slot :: before), s', after. repeat split; [constructor; assumption | exact Hs].
    + constructor; assumption.
Qed.

Lemma toggle_first_twice (slotId : string) (slots slots' : list ScheduleSlot) :
  toggle_first slotId slots = Some slots' -> toggle_first slotId slots' = Some slots.
Proof.
  revert slots'. induction slots as [|slot slots IH]; intros slots'; simpl; [discriminate|].
  destruct (String.eqb (slot_id slot) slotId) eqn:Hid.
  - intros [= <-]. simpl. rewrite Hid, negb_involutive. now destruct slot.
  - destruct (toggle_first slotId slots) as [rest|]; [|discriminate].
    simpl. intros [= <-]. simpl. rewrite Hid, (IH rest eq_refl). reflexivity.
Qed.

Section ScheduleEditing.
Context {host : Host}.

(** X19. [toggleScheduleSlot] flips [enabled] on the first slot with the
    given identifier and leaves every other slot as it is; without such a
    slot it writes nothing.  Toggling the same identifier twice restores the
    schedule. *)
Theorem toggleScheduleSlot_spec (slotId : string) (now : Z) (w : World) :
  (Forall (fun slot => slot_id slot <> slotId) (schedule_slots (schedule_of w)) ->
   toggleScheduleSlot slotId now w = (inr tt, w))
  /\ (forall before slot after,
         schedule_slots (schedule_of w) = (before ++ slot :: after)%list ->
         Forall (fun other => slot_id other <> slotId) before ->
         slot_id slot = slotId ->
         schedule_of (exec (toggleScheduleSlot slotId) now w)
         = mkWeeklySchedule
             (schedule_enabled (schedule_of w))
             (before
              ++ mkScheduleSlot (slot_id slot) (slot_day slot) (slot_startTime slot)
                                (slot_endTime slot) (negb (slot_enabled slot))
              :: after)%list)
  /\ (forall now',
         schedule_of (exec (toggleScheduleSlot slotId) now'
                           (exec (toggleScheduleSlot slotId) now w))
         = schedule_of w).
Proof.
  pose proof (toggle_first_spec slotId (schedule_slots (schedule_of w))) as Hspec.
  unfold toggleScheduleSlot, exec, getWeeklySchedule. unfold_m. simpl.
  fold (schedule_of w).
  destruct (toggle_first slotId (schedule_slots (schedule_of w))) as [slots'|] eqn:Ht.
  - destruct Hspec as (b0 & s0 & a0 & Hslots & Hb0 & Hs0 & ->).
    split; [|split].
    + intros Hnone. rewrite Hslots in Hnone. apply Forall_app in Hnone as [_ Hn].
      inversion Hn; subst. congruence.
    + intros before slot after Hsplit Hb Hs. simpl. unfold schedule_of at 1. simpl.
      f_equal. rewrite Hslots in Hsplit.
      assert (Hlen : length b0 = length before).
      { destruct (Nat.lt_trichotomy (length b0) (length before)) as [Hlt|[Heq|Hgt]];
          [exfalso | exact Heq | exfalso].
        - assert (Hl : (b0 ++ s0 :: a0)%list !! length b0 = Some s0)
            by (rewrite lookup_app_r, Nat.sub_diag by lia; reflexivity).
          rewrite Hsplit, lookup_app_l in Hl by lia.
          rewrite Forall_forall in Hb. apply (Hb s0); [|exact Hs0].
          apply list_elem_of_lookup. eauto.
        - assert (Hl : (before ++ slot :: after)%list !! length before = Some slot)
            by (rewrite lookup_app_r, Nat.sub_diag by lia; reflexivity).
          rewrite <- Hsplit, lookup_app_l in Hl by lia.
          rewrite Forall_forall in Hb0. apply (Hb0 slot); [|exact Hs].
          apply list_elem_of_lookup. eauto. }
      apply app_inj_1 in Hsplit as [-> Heq]; [|exact Hlen].
      injection Heq as -> ->. reflexivity.
    + intros now'. simpl. unfold schedule_of at 1 2. simpl.
      rewrite (toggle_first_twice _ _ _ Ht). simpl.
      unfold schedule_of. simpl. fold (schedule_of w). now destruct (schedule_of w).
  - split; [reflexivity|]. split.
    + intros before slot after Hsplit Hb Hs. exfalso.
      rewrite Hsplit in Hspec. apply Forall_app in Hspec as [_ Hn].
      inversion Hn; subst. congruence.
    + intros now'. simpl. fold (schedule_of w). now rewrite Ht.
Qed.

(** X20. Adding a slot.  The [addScheduleSlot] command appends one enabled
    slot and keeps the schedule's switch.  Inside the window of the new slot
    the schedule is then active.  When the schedule is switched on and had
    no slot, it was active at all times before, and after the command it is
    active only inside the new window. *)
Theorem added_slot_window (day : Z) (startTime endTime : string) (t1 : Z) (w : World) :
  let w1 := exec (handleSettingsMessage (MsgAddScheduleSlot day startTime endTime)) t1 w in
  let slot := mkScheduleSlot (toString t1 +:+ "-" +:+ idgen w (issued w))
                             day startTime endTime true in
  schedule_of w1
  = mkWeeklySchedule (schedule_enabled (schedule_of w))
                     (schedule_slots (schedule_of w) ++ [slot])%list
  /\ (forall now, slot_active now slot -> isWithinSchedule now (schedule_of w1) = true)
  /\ (schedule_enabled (schedule_of w) = true ->
      schedule_slots (schedule_of w) = [] ->
      forall now, isWithinSchedule now (schedule_of w) = true
                  /\ (isWithinSchedule now (schedule_of w1) = true <-> slot_active now slot)).
Proof.
  intros w1 slot.
  assert (Hsched : schedule_of w1
          = mkWeeklySchedule (schedule_enabled (schedule_of w))
                             (schedule_slots (schedule_of w) ++ [slot])%list)
    by reflexivity.
  split; [exact Hsched|]. rewrite Hsched. clear Hsched. split.
  - intros now Hact. unfold isWithinSchedule. simpl.
    destruct (negb _ || _); [reflexivity|].
    apply existsb_exists. exists slot. split; [apply in_or_app; right; now left|].
    now apply slot_test_spec.
  - intros Hen Hempty now. rewrite Hempty. split.
    + unfold isWithinSchedule. rewrite Hempty. simpl. now rewrite orb_true_r.
    + unfold isWithinSchedule. cbn [schedule_enabled schedule_slots app length].
      rewrite Hen. cbn [negb orb Nat.eqb existsb]. rewrite orb_false_r.
      exact (slot_test_spec now slot).
Qed.

(** X21. Two ways to suspend the schedule.  [removeScheduleSlot] takes out
    every slot with the given identifier and no other; and when no slot is
    left, or after the schedule is switched off with [updateWeeklySchedule],
    the schedule is active at every instant, so blocking applies at all
    times. *)
Theorem schedule_suspended (slotId : string) (t1 : Z) (w : World) :
  let removed := exec (removeScheduleSlot slotId) t1 w in
  let off := exec (handleSettingsMessage (MsgUpdateWeeklySchedule (Some false))) t1 w in
  schedule_of removed
  = mkWeeklySchedule (schedule_enabled (schedule_of w))
                     (filter (fun slot => slot_id slot <> slotId)
                             (schedule_slots (schedule_of w)))
  /\ (Forall (fun slot => slot_id slot = slotId) (schedule_slots (schedule_of w)) ->
      forall now, isWithinSchedule now (schedule_of removed) = true)
  /\ schedule_of off = mkWeeklySchedule false (schedule_slots (schedule_of w))
  /\ (forall now, isWithinSchedule now (schedule_of off) = true).
Proof.
  intros removed off. split; [reflexivity|]. split; [|split; [reflexivity|]].
  - intros Hall now.
    assert (Hempty : filter (fun slot => slot_id slot <> slotId)
                            (schedule_slots (schedule_of w)) = []).
    { induction Hall as [|a l Ha _ IH]; [reflexivity|].
      rewrite filter_cons. destruct (decide _); [contradiction | exact IH]. }
    change (schedule_of removed)
      with (mkWeeklySchedule (schedule_enabled (schedule_of w))
                             (filter (fun slot => slot_id slot <> slotId)
                                     (schedule_slots (schedule_of w)))).
    rewrite Hempty. unfold isWithinSchedule. simpl. now rewrite orb_true_r.
  - intros now. reflexivity.
Qed.

End ScheduleEditing.

Lemma toggleScheduleSlot_spec_witness :
  let slot := mkScheduleSlot "a" 4 "09:00" "17:00" true in
  let w := with_store (with_weeklySchedule (Some (mkWeeklySchedule true [slot]))) fresh_world in
  (Forall (fun other => slot_id other <> "b") (schedule_slots (schedule_of w))
   /\ toggleScheduleSlot "b" 0 w = (inr tt, w))
  /\ (schedule_slots (schedule_of w) = ([] ++ slot :: [])%list
      /\ schedule_of (exec (toggleScheduleSlot "a") 0 w)
         = mkWeeklySchedule true [mkScheduleSlot "a" 4 "09:00" "17:00" false])
  /\ schedule_of (exec (toggleScheduleSlot "a") 1 (exec (toggleScheduleSlot "a") 0 w))
     = schedule_of w.
Proof.
  intros slot w.
  assert (Hnone : Forall (fun other => slot_id other <> "b") (schedule_slots (schedule_of w))).
  { constructor; [discriminate | constructor]. }
  assert (Hsplit : schedule_slots (schedule_of w) = ([] ++ slot :: [])%list) by reflexivity.
  destruct (toggleScheduleSlot_spec "b" 0 w) as (Hno & _ & _).
  destruct (toggleScheduleSlot_spec "a" 0 w) as (_ & Hflip & Htwice).
  split; [split; [exact Hnone | exact (Hno Hnone)]|].
  split; [split; [exact Hsplit|] | exact (Htwice 1)].
  apply (Hflip [] slot []); [exact Hsplit | constructor | reflexivity].
Defined.

Lemma added_slot_window_witness :
  let w := exec (@handleSettingsMessage utc_host (MsgUpdateWeeklySchedule (Some true)))
                0 fresh_world in
  let w1 := exec (@handleSettingsMessage utc_host (MsgAddScheduleSlot 4 "09:00" "17:00"))
                 1 w in
  let slot := mkScheduleSlot "1-s0" 4 "09:00" "17:00" true in
  (schedule_enabled (schedule_of w) = true /\ schedule_slots (schedule_of w) = []
   /\ @slot_active utc_host (hours 10) slot)
  /\ @isWithinSchedule utc_host (hours 10) (schedule_of w1) = true
  /\ @isWithinSchedule utc_host (hours 18) (schedule_of w) = true
  /\ (@isWithinSchedule utc_host (hours 18) (schedule_of w1) = true
      <-> @slot_active utc_host (hours 18) slot).
Proof.
  intros w w1 slot.
  assert (Hen : schedule_enabled (schedule_of w) = true) by reflexivity.
  assert (Hempty : schedule_slots (schedule_of w) = []) by reflexivity.
  assert (Hact : @slot_active utc_host (hours 10) slot) by (repeat split).
  destruct (@added_slot_window utc_host 4 "09:00" "17:00" 1 w) as (_ & Hin & Hfirst).
  split; [auto|]. split; [exact (Hin (hours 10) Hact)|].
  exact (Hfirst Hen Hempty (hours 18)).
Defined.

Lemma schedule_suspended_witness :
  let slot := mkScheduleSlot "a" 4 "09:00" "17:00" true in
  let w := with_store (with_weeklySchedule (Some (mkWeeklySchedule true [slot]))) fresh_world in
  Forall (fun other => slot_id other = "a") (schedule_slots (schedule_of w))
  /\ @isWithinSchedule utc_host (hours 18) (schedule_of w) = false
  /\ @isWithinSchedule utc_host (hours 18) (schedule_of (exec (removeScheduleSlot "a") 0 w))
     = true
  /\ @isWithinSchedule utc_host (hours 18)
       (schedule_of (exec (@handleSettingsMessage utc_host
                             (MsgUpdateWeeklySchedule (Some false))) 0 w))
     = true.
Proof.
  intros slot w.
  assert (Hall : Forall (fun other => slot_id other = "a") (schedule_slots (schedule_of w))).
  { constructor; [reflexivity | constructor]. }
  destruct (@schedule_suspended utc_host "a" 0 w) as (_ & Hrem & _ & Hoff).
  split; [exact Hall|]. split; [vm_compute; reflexivity|].
  split; [exact (Hrem Hall (hours 18)) | exact (Hoff (hours 18))].
Defined.

(** ** Analytics *)

Lemma insert_by_blockCount_perm (site : BlockedSite) (l : list BlockedSite) :
  Permutation (insert_by_blockCount site l) (site :: l).
Proof.
  induction l as [|a l IH]; simpl; [reflexivity|].
  destruct (site_blockCount site <? site_blockCount a); [|reflexivity].
  rewrite IH. apply perm_swap.
Qed.

Lemma insert_by_blockCount_sorted (site : BlockedSite) (l : list BlockedSite) :
  StronglySorted more_blocked l -> StronglySorted more_blocked (insert_by_blockCount site l).
Proof.
  induction 1 as [|a l Hl IH Ha]; simpl; [repeat constructor|].
  destruct (Z.ltb_spec (site_blockCount site) (site_blockCount a)) as [Hlt|Hge].
  - constructor; [exact IH|].
    apply (Permutation_Forall (Permutation_sym (insert_by_blockCount_perm site l))).
    constructor; [unfold more_blocked; lia | exact Ha].
  - constructor; [constructor; assumption|].
    constructor; [unfold more_blocked; lia|].
    eapply Forall_impl; [exact Ha|]. unfold more_blocked. intros x Hx. simpl in *. lia.
Qed.

Lemma sort_by_blockCount_spec (sites : list BlockedSite) :
  Permutation (sort_by_blockCount sites) sites
  /\ StronglySorted more_blocked (sort_by_blockCount sites).
Proof.
  unfold sort_by_blockCount. induction sites as [|a l [IHp IHs]]; simpl.
  - split; constructor.
  - split; [rewrite insert_by_blockCount_perm; now constructor|].
    now apply insert_by_blockCount_sorted.
Qed.

(** X22. [getTopBlockedSites(limit)] reads the blocklist and writes
    nothing.  Its answer is the beginning of an arrangement of the whole
    blocklist, most blocked first: the sites of the answer are in descending
    order of [blockCount], and no site left out has more blocks than a site
    in the answer.  For [0 <= limit] the answer has [limit] sites, or all of
    them when there are fewer; a negative [limit] leaves out that many of
    the least blocked sites. *)
Theorem getTopBlockedSites_spec (limit now : Z) (w : World) :
  exists top rest,
    getTopBlockedSites limit now w = (inr top, w)
    /\ Permutation (top ++ rest) (sites_of w)
    /\ StronglySorted more_blocked (top ++ rest)
    /\ (0 <= limit -> length top = Nat.min (Z.to_nat limit) (length (sites_of w)))
    /\ (limit < 0 -> length top = (length (sites_of w) - Z.to_nat (- limit))%nat).
Proof.
  destruct (sort_by_blockCount_spec (sites_of w)) as [Hperm Hsorted].
  assert (Hlen : length (sort_by_blockCount (sites_of w)) = length (sites_of w))
    by (now apply Permutation_length).
  unfold getTopBlockedSites, getBlockedSites, slice_to. unfold_m. simpl.
  fold (sites_of w). rewrite Hlen.
  destruct (Z.leb_spec 0 limit) as [Hpos|Hneg].
  - exists (take (Z.to_nat limit) (sort_by_blockCount (sites_of w))),
           (drop (Z.to_nat limit) (sort_by_blockCount (sites_of w))).
    rewrite take_drop. repeat split; try assumption.
    + intros _. rewrite length_take, Hlen. reflexivity.
    + intros Hlt. lia.
  - exists (take (length (sites_of w) - Z.to_nat (- limit))
                 (sort_by_blockCount (sites_of w))),
           (drop (length (sites_of w) - Z.to_nat (- limit))
                 (sort_by_blockCount (sites_of w))).
    rewrite take_drop. repeat split; try assumption.
    + intros Hge. lia.
    + intros _. rewrite length_take, Hlen. lia.
Qed.

Lemma getTopBlockedSites_spec_witness :
  (0 <= 2 /\ -1 < 0)
  /\ fst (getTopBlockedSites 2 0 overlapping_world)
     = inr [mkBlockedSite "2" "facebook.com" (Some "Social Media") 5 7;
            mkBlockedSite "1" "twitter.com" None 0 3]
  /\ exists top rest,
      getTopBlockedSites (-1) 0 overlapping_world = (inr top, overlapping_world)
      /\ Permutation (top ++ rest) (sites_of overlapping_world)
      /\ StronglySorted more_blocked (top ++ rest)
      /\ length top = 2%nat.
Proof.
  split; [lia|]. split; [reflexivity|].
  destruct (getTopBlockedSites_spec (-1) 0 overlapping_world)
    as (top & rest & Hrun & Hperm & Hsorted & _ & Hneg).
  exists top, rest. repeat split; try assumption. apply Hneg. lia.
Defined.

Lemma fold_left_duration (sessions : list FocusSession) (start : Z) :
  fold_left (fun total session => total + session_duration session) sessions start
  = start + total_duration sessions.
Proof.
  unfold total_duration. revert start.
  induction sessions as [|a l IH]; intros start; simpl; [lia|].
  rewrite IH, (IH (0 + session_duration a)). lia.
Qed.

Lemma total_duration_app (l1 l2 : list FocusSession) :
  total_duration (l1 ++ l2) = total_duration l1 + total_duration l2.
Proof.
  unfold total_duration at 1. rewrite fold_left_app.
  fold (total_duration l1). apply fold_left_duration.
Qed.

Lemma sum_Z_alter (l : list Z) (i : nat) (d : Z) :
  (i < length l)%nat -> sum_Z (alter (fun t => t + d) i l) = sum_Z l + d.
Proof.
  unfold sum_Z. revert i. induction l as [|a l IH]; intros i Hi; simpl in *; [lia|].
  destruct i as [|i].
  - change (alter (fun t => t + d) 0%nat (a :: l)) with ((a + d) :: l). simpl. lia.
  - change (alter (fun t => t + d) (S i) (a :: l)) with (a :: alter (fun t => t + d) i l).
    simpl. rewrite IH by lia. lia.
Qed.

Lemma sum_minutes_week (totals : list Z) :
  length totals = 7%nat ->
  sum_minutes (zip dayNames totals) = sum_Z totals
  /\ (zip dayNames totals).*1 = dayNames.
Proof.
  intros Hlen. do 8 (destruct totals as [|? totals]; try discriminate).
  unfold sum_minutes, sum_Z. simpl. split; [lia | reflexivity].
Qed.

Lemma getWeeklyFocusSessions_filter (now : Z) (w : World) :
  getWeeklyFocusSessions now w
  = (inr (filter (fun session => Is_true (counts_this_week now session)) (history_of w)), w).
Proof. reflexivity. Qed.

Section AnalyticsFacts.
Context {host : Host}.

Lemma fold_add_to_day (sessions : list FocusSession) (totals : list Z) :
  (forall t, 0 <= getDay t < 7) ->
  length totals = 7%nat ->
  length (fold_left add_to_day sessions totals) = 7%nat
  /\ sum_Z (fold_left add_to_day sessions totals) = sum_Z totals + total_duration sessions.
Proof.
  intros Hday. revert totals. induction sessions as [|a l IH]; intros totals Hlen; simpl.
  - unfold total_duration. simpl. split; [exact Hlen | lia].
  - assert (Hstep : length (add_to_day totals a) = 7%nat
                    /\ sum_Z (add_to_day totals a) = sum_Z totals + session_duration a).
    { unfold add_to_day. specialize (Hday (session_startTime a)).
      destruct (Z.leb_spec 0 (getDay (session_startTime a))); [|lia].
      split; [now rewrite length_alter|]. apply sum_Z_alter. lia. }
    destruct Hstep as [Hlen' Hsum'].
    destruct (IH _ Hlen') as [Hl Hs]. split; [exact Hl|].
    rewrite Hs, Hsum'. unfold total_duration at 2. simpl.
    rewrite fold_left_duration. lia.
Qed.

(** X23. The daily figures add up to the weekly figure.  On a host whose
    weekdays are 0 to 6, [getDailyFocusTime] answers one entry for each of
    [Sun] to [Sat], in this order, and the minutes of the seven entries
    add up to what [getWeeklyTotalFocus] answers at the same instant. *)
Theorem daily_totals_add_up (now : Z) (w : World) :
  (forall t, 0 <= getDay t < 7) ->
  exists daily total,
    getDailyFocusTime now w = (inr daily, w)
    /\ getWeeklyTotalFocus now w = (inr total, w)
    /\ daily.*1 = dayNames
    /\ sum_minutes daily = total.
Proof.
  intros Hday.
  unfold getDailyFocusTime, getWeeklyTotalFocus, bind. rewrite getWeeklyFocusSessions_filter.
  unfold ret. eexists. eexists. split; [reflexivity|]. split; [reflexivity|].
  destruct (fold_add_to_day
              (filter (fun session => Is_true (counts_this_week now session)) (history_of w))
              [0; 0; 0; 0; 0; 0; 0] Hday eq_refl) as [Hlen Hsum].
  destruct (sum_minutes_week _ Hlen) as [Hmin Hnames].
  split; [exact Hnames|]. rewrite Hmin, Hsum. unfold sum_Z, total_duration. simpl. lia.
Qed.

(** X24. What a session adds to the weekly figure.  A session with a new
    identifier is started and ended.  A query of the weekly total then
    gives the earlier figure plus the nominal [duration] of the session when
    the session is a focus session, was ended as completed and started less
    than seven days before the query; in every other case (a break, an
    abandoned session, an old one) it gives the earlier figure. *)
Theorem weekly_total_after_session (d t1 t2 now : Z) (type : SessionType)
        (completed : bool) (w : World) :
  Forall (fun entry => session_id entry <> idgen w (issued w)) (history_of w) ->
  exists session w1 w2 before,
    startFocusSession d type t1 w = (inr session, w1)
    /\ endFocusSession (session_id session) completed t2 w1 = (inr tt, w2)
    /\ getWeeklyTotalFocus now w = (inr before, w)
    /\ getWeeklyTotalFocus now w2
       = (inr (before
               + (if (now - 7 * 24 * 60 * 60 * 1000 <? t1)
                     && match type with Focus => true | Break => false end
                     && completed
                  then d else 0)), w2).
Proof.
  intros Hfresh.
  destruct (start_end_history d t1 t2 type completed w Hfresh)
    as (session & w1 & w2 & Hstart & Hend & _ & Hhist).
  exists session, w1, w2. eexists. split; [exact Hstart|]. split; [exact Hend|].
  unfold getWeeklyTotalFocus, bind. rewrite !getWeeklyFocusSessions_filter.
  unfold ret. split; [reflexivity|]. f_equal. f_equal.
  change (total_duration (filter (fun s => Is_true (counts_this_week now s)) (history_of w2))
          = total_duration (filter (fun s => Is_true (counts_this_week now s)) (history_of w))
            + (if (now - 7 * 24 * 60 * 60 * 1000 <? t1)
                  && match type with Focus => true | Break => false end
                  && completed
               then d else 0)).
  rewrite Hhist, filter_app, total_duration_app. f_equal.
  rewrite filter_cons, filter_nil. unfold counts_this_week, session_is_focus. simpl.
  destruct ((now - 7 * 24 * 60 * 60 * 1000 <? t1)
            && match type with Focus => true | Break => false end && completed);
    destruct (decide _) as [Hyes|Hno]; simpl in *; try contradiction;
    try (exfalso; apply Hno; exact I); reflexivity.
Qed.

End AnalyticsFacts.

Lemma utc_weekday_range (t : Z) : 0 <= @getDay utc_host t < 7.
Proof. simpl. apply Z.mod_pos_bound. lia. Qed.

Lemma daily_totals_add_up_witness :
  let w := complete_session (days 1 + hours 10) (days 1 + hours 10 + minutes 25)
             (complete_session (hours 10) (hours 10 + minutes 24) fresh_world) in
  (forall t, 0 <= @getDay utc_host t < 7)
  /\ (exists daily total,
         @getDailyFocusTime utc_host (days 2) w = (inr daily, w)
         /\ getWeeklyTotalFocus (days 2) w = (inr total, w)
         /\ daily.*1 = dayNames
         /\ sum_minutes daily = total)
  /\ fst (@getDailyFocusTime utc_host (days 2) w)
     = inr [("Sun", 0); ("Mon", 0); ("Tue", 0); ("Wed", 0); ("Thu", 25); ("Fri", 25);
            ("Sat", 0)].
Proof.
  intros w. split; [exact utc_weekday_range|].
  split; [exact (@daily_totals_add_up utc_host (days 2) w utc_weekday_range)|].
  vm_compute. reflexivity.
Defined.

Lemma weekly_total_after_session_witness :
  Forall (fun entry => session_id entry <> idgen fresh_world (issued fresh_world))
         (history_of fresh_world)
  /\ exists session w1 w2 before,
      startFocusSession 25 Focus 0 fresh_world = (inr session, w1)
      /\ @endFocusSession utc_host (session_id session) true (minutes 24) w1 = (inr tt, w2)
      /\ getWeeklyTotalFocus (days 1) fresh_world = (inr before, fresh_world)
      /\ getWeeklyTotalFocus (days 1) w2
         = (inr (before
                 + (if (days 1 - 7 * 24 * 60 * 60 * 1000 <? 0) && true && true
                    then 25 else 0)), w2).
Proof.
  assert (Hfresh : Forall (fun entry => session_id entry
                                        <> idgen fresh_world (issued fresh_world))
                          (history_of fresh_world)) by constructor.
  split; [exact Hfresh|].
  exact (@weekly_total_after_session utc_host 25 0 (minutes 24) (days 1) Focus true
           fresh_world Hfresh).
Defined.

Lemma stopPomodoroMode_spec_witness :
  is_Some (currentSession (store first_break_world))
  /\ exists w',
      @stopPomodoroMode utc_host (minutes 26) first_break_world = (inr tt, w')
      /\ pomodoro_of w' = mkPomodoroState false 25 5 15 4 2 true 1
      /\ currentSession (store w') = None
      /\ stats_of w' = stats_of first_break_world
      /\ alarm w' = None
      /\ handlePomodoroSessionEnd (minutes 30) w' = (inr None, w').
Proof.
  assert (Hcur : is_Some (currentSession (store first_break_world)))
    by (eexists; vm_compute; reflexivity).
  split; [exact Hcur|].
  destruct (@stopPomodoroMode_spec utc_host (minutes 26) first_break_world)
    as (w' & Hrun & Hpom & Hnone & Hstats & Hrec & Hoff).
  exists w'. split; [exact Hrun|]. split; [rewrite Hpom; vm_compute; reflexivity|].
  split; [exact Hnone|]. split; [exact Hstats|].
  split; [exact (proj1 (Hrec Hcur)) | exact (Hoff (minutes 30))].
Defined.

Lemma addBlockedSite_then_remove_witness :
  Forall (fun other => site_id other <> "5-s0") (sites_of facebook_world)
  /\ exists site w1 w2,
      addBlockedSite "https://www.Reddit.com" (Some "Social Media") 5 facebook_world
      = (inr site, w1)
      /\ site = mkBlockedSite "5-s0" "reddit.com" (Some "Social Media") 5 0
      /\ removeBlockedSite (site_id site) 6 w1 = (inr tt, w2)
      /\ sites_of w2 = sites_of facebook_world.
Proof.
  assert (Hfresh : Forall (fun other => site_id other <> "5-s0") (sites_of facebook_world)).
  { constructor; [discriminate | constructor]. }
  split; [exact Hfresh|].
  destruct (addBlockedSite_then_remove "https://www.Reddit.com" (Some "Social Media") 5 6
              facebook_world)
    as (site & w1 & w2 & Hadd & Hsite & _ & Hrem & _ & Hback).
  exists site, w1, w2. split; [exact Hadd|]. split; [exact Hsite|].
  split; [exact Hrem|]. apply Hback. rewrite Hsite. exact Hfresh.
Defined.

(** ** The remaining time, from the utility and from the command *)

Lemma round_div_nearest_second (ms : Z) : nearest_second ms (round_div ms 1000).
Proof.
  unfold nearest_second. pose proof (round_div_nearest ms 1000 ltac:(lia)). lia.
Qed.

Lemma keeps_not_paused_startFocusSession (d : Z) (type : SessionType) :
  keeps not_paused (startFocusSession d type).
Proof.
  intros now w H. unfold not_paused in *. unfold_m.
  destruct (currentSession (store w)); simpl; [reflexivity | exact H].
Qed.

Lemma keeps_not_paused_resumeSession : keeps not_paused resumeSession.
Proof.
  intros now w H. unfold not_paused in *. unfold_m.
  destruct (currentSession (store w)); [|exact H].
  rewrite H. simpl. exact H.
Qed.

#[local] Hint Resolve keeps_not_paused_startFocusSession
  keeps_not_paused_resumeSession : keeps.

Section RemainingTimeQuery.
Context {host : Host}.

Lemma keeps_not_paused_endFocusSession (sessionId : string) (completed : bool) :
  keeps not_paused (endFocusSession sessionId completed).
Proof.
  intros now w H.
  destruct (endFocusSession_world sessionId completed now w)
    as [-> | (session & w' & _ & _ & -> & _ & Hp & _)]; [exact H | exact Hp].
Qed.

Hint Resolve keeps_not_paused_endFocusSession : keeps.

Lemma keeps_not_paused_run_event (ev : Event) (now : Z) (w : World) :
  ev <> Core CallPause -> not_paused w -> not_paused (run_event ev now w).
Proof.
  intros Hev H. destruct ev as [e|msg|url|slotId|]; unfold run_event, exec.
  - destruct e; unfold run_entry, exec.
    + now apply keeps_not_paused_startFocusSession.
    + now apply keeps_not_paused_endFocusSession.
    + congruence.
    + now apply keeps_not_paused_resumeSession.
    + rewrite onMessage_world. revert now w H.
      change (keeps not_paused (handleMessage msg)).
      destruct msg;
        unfold handleMessage, stopPomodoroMode, startPomodoroMode,
          handlePomodoroSessionEnd; keeps_auto.
    + revert now w H. change (keeps not_paused onAlarm).
      unfold onAlarm, handlePomodoroSessionEnd. keeps_auto.
    + revert now w H. change (keeps not_paused onStartup).
      unfold onStartup. keeps_auto.
    + revert now w H. change (keeps not_paused (onBeforeNavigate url)).
      unfold onBeforeNavigate, isUrlBlocked, incrementBlockCount. keeps_auto.
  - revert now w H. change (keeps not_paused (handleSettingsMessage msg)).
    destruct msg; unfold handleSettingsMessage; keeps_auto.
  - exact H.
  - revert now w H. change (keeps not_paused (toggleScheduleSlot slotId)).
    unfold toggleScheduleSlot. keeps_auto.
  - reflexivity.
Qed.

Lemma run_events_not_paused (events : list (Event * Z)) (w : World) :
  without_pause events -> not_paused w -> not_paused (run_events events w).
Proof.
  revert w. induction events as [|[ev now] events IH]; intros w Hno H; simpl.
  - exact H.
  - apply Forall_cons in Hno as [Hev Hno].
    apply IH; [exact Hno|]. now apply keeps_not_paused_run_event.
Qed.

Lemma command_getTimeRemaining_idle (now : Z) (w : World) :
  currentSession (store w) = None ->
  handleMessage MsgGetTimeRemaining now w = (inr (RespRemaining 0), w).
Proof. intros Hcur. unfold handleMessage. unfold_m. now rewrite Hcur. Qed.


End RemainingTimeQuery.

